(** * Rhine water level monitor: a shallow embedding of the browser code

    The development follows [js/api.js] (class [RheinPegelAPI]),
    [js/storage.js] (class [WaterLevelStorage], the table [ALERT_LEVELS] and
    [RheinPegelApp.getAlertLevel] with the refresh timer of the
    application) and the series and colours of [js/chart.js] (class
    [WaterLevelChart]).

    Conventions of the embedding.
    - A JavaScript string is a [string]; each [ascii] stands for one UTF-16
      code unit below 256 (a-umlaut is the single character 228).
    - A JavaScript number produced by the parser is a binary64 value, modelled
      by [spec_float] at precision 53 with the operations of [SpecFloat].
      Levels and timestamps kept in the history store are integers ([Z]), as
      [Math.round] and [Date.now] produce them.
    - [throw] is the constructor [Throw] of [completion]; a [try]/[catch] is
      [catch_c], and [try_catch] where state is threaded.  State (the
      client's proxy flag, the [localStorage] slot, the clock) is passed
      explicitly.
    - What lives outside the repository (the DOM parser, [fetch],
      [localStorage], the [Date] constructor in local time) is an explicit
      argument of the function that uses it. *)

From Stdlib Require Import ZArith NArith Bool Ascii String List Lia.
From Stdlib Require Import SpecFloat DecimalString.
From Stdlib Require Import Sorting.Sorted Sorting.Permutation.
From stdpp Require Import base option list gmap strings sorting.

Local Open Scope Z_scope.

(** ** Exceptions *)

Record js_error := JsError { name : string; message : string }.

Inductive completion (A : Type) :=
| Return (a : A)
| Throw (e : js_error).
Arguments Return {A} a.
Arguments Throw {A} e.

(** [new Error(msg)] *)
Definition Error (msg : string) : js_error := JsError "Error" msg.
Definition TypeError (msg : string) : js_error := JsError "TypeError" msg.

Definition bind_c {A B} (c : completion A) (k : A -> completion B) : completion B :=
  match c with
  | Return a => k a
  | Throw e => Throw e
  end.

Definition catch_c {A} (c : completion A) (h : js_error -> completion A) : completion A :=
  match c with
  | Return a => Return a
  | Throw e => h e
  end.

(** ** Strings *)
Module JsString.

Definition code (c : ascii) : N := N_of_ascii c.

(** WhiteSpace and LineTerminator code units below 256: TAB, LF, VT, FF, CR,
    SP and NBSP.  [String.prototype.trim], [parseFloat] and the regular
    expression class [\s] all use this set. *)
Definition is_white_space (c : ascii) : bool :=
  let n := code c in
  ((9 <=? n) && (n <=? 13) || (n =? 32) || (n =? 160))%N.

(** [0-9] *)
Definition is_digit (c : ascii) : bool :=
  let n := code c in ((48 <=? n) && (n <=? 57))%N.

(** [A-Za-z0-9_], the class [\w] without the unicode and ignoreCase flags *)
Definition is_word (c : ascii) : bool :=
  let n := code c in
  ((65 <=? n) && (n <=? 90) || (97 <=? n) && (n <=? 122)
   || (48 <=? n) && (n <=? 57) || (n =? 95))%N.

Definition is_empty (s : string) : bool :=
  match s with EmptyString => true | String _ _ => false end.

Fixpoint trimStart (s : string) : string :=
  match s with
  | EmptyString => EmptyString
  | String c s' => if is_white_space c then trimStart s' else s
  end.

Fixpoint trimEnd (s : string) : string :=
  match s with
  | EmptyString => EmptyString
  | String c s' =>
      let t := trimEnd s' in
      if is_empty t && is_white_space c then EmptyString else String c t
  end.

(** [s.trim()] *)
Definition trim (s : string) : string := trimEnd (trimStart s).

(** [s.startsWith(pat)] *)
Fixpoint starts_with (pat s : string) : bool :=
  match pat with
  | EmptyString => true
  | String a pat' =>
      match s with
      | String b s' => Ascii.eqb a b && starts_with pat' s'
      | EmptyString => false
      end
  end.

(** The string without its first [n] characters. *)
Fixpoint drop_chars (n : nat) (s : string) : string :=
  match n, s with
  | O, _ => s
  | S n', String _ s' => drop_chars n' s'
  | S _, EmptyString => EmptyString
  end.

(** [s.includes(pat)]: [pat] occurs at some position of [s]. *)
Fixpoint includes (pat s : string) : bool :=
  starts_with pat s
  || match s with
     | String _ s' => includes pat s'
     | EmptyString => false
     end.

(** [s.replace(pat, rep)] with a string pattern: the leftmost occurrence of
    [pat] only is replaced. *)
Fixpoint replace (pat rep s : string) : string :=
  if starts_with pat s then rep +:+ drop_chars (String.length pat) s
  else
    match s with
    | String c s' => String c (replace pat rep s')
    | EmptyString => EmptyString
    end.

(** Template-literal rendering of a non-negative integer. *)
Definition of_nat (n : nat) : string :=
  NilEmpty.string_of_uint (Nat.to_uint n).

(** The value of a string of decimal digits, most significant first. *)
Fixpoint digits_value_from (acc : Z) (s : string) : Z :=
  match s with
  | EmptyString => acc
  | String c s' => digits_value_from (10 * acc + (Z.of_N (code c) - 48)) s'
  end.
Definition digits_value (s : string) : Z := digits_value_from 0 s.

(** The longest prefix whose characters satisfy [p], and the rest. *)
Fixpoint span (p : ascii -> bool) (s : string) : string * string :=
  match s with
  | EmptyString => (EmptyString, EmptyString)
  | String c s' =>
      if p c then let '(a, b) := span p s' in (String c a, b)
      else (EmptyString, s)
  end.

Fixpoint all (p : ascii -> bool) (s : string) : bool :=
  match s with
  | EmptyString => true
  | String c s' => p c && all p s'
  end.

End JsString.

(** ** Regular expressions

    A backtracking matcher for the fragment the two patterns of
    [parseGermanDateTime] use: character classes, concatenation, greedy [+]
    and [?], and capture groups.  [exec] is [RegExp.prototype.exec] for a
    pattern without flags: the leftmost start position at which the pattern
    matches, alternatives tried in the order greedy backtracking tries them. *)
Module Regex.
Import JsString.

Inductive re :=
| Cls (p : ascii -> bool)
| Chr (c : ascii)
| Cat (r1 r2 : re)
| Plus (r : re)
| Opt (r : re)
| Group (i : nat) (r : re).

Definition captures := list (nat * string).

Definition consumed (s rest : string) : string :=
  substring 0 (String.length s - String.length rest) s.

Definition set_group (i : nat) (v : string) (caps : captures) : captures :=
  (i, v) :: caps.

Fixpoint group (i : nat) (caps : captures) : string :=
  match caps with
  | [] => EmptyString
  | (j, v) :: caps' => if Nat.eqb i j then v else group i caps'
  end.

Definition or_else {A} (a : option A) (b : option A) : option A :=
  match a with Some x => Some x | None => b end.

Fixpoint run (r : re) (s : string) (caps : captures)
    (k : string -> captures -> option captures) : option captures :=
  match r with
  | Cls p =>
      match s with
      | String c s' => if p c then k s' caps else None
      | EmptyString => None
      end
  | Chr c0 =>
      match s with
      | String c s' => if Ascii.eqb c c0 then k s' caps else None
      | EmptyString => None
      end
  | Cat r1 r2 => run r1 s caps (fun s1 c1 => run r2 s1 c1 k)
  | Opt r1 => or_else (run r1 s caps k) (k s caps)
  | Plus r1 =>
      (fix more (fuel : nat) (s : string) (caps : captures) : option captures :=
         run r1 s caps
           (fun s1 c1 =>
              match fuel with
              | O => k s1 c1
              | S fuel' =>
                  if (String.length s1 <? String.length s)%nat
                  then or_else (more fuel' s1 c1) (k s1 c1)
                  else k s1 c1
              end))
        (String.length s) s caps
  | Group i r1 => run r1 s caps (fun s1 c1 => k s1 (set_group i (consumed s s1) c1))
  end.

Definition match_here (r : re) (s : string) : option captures :=
  run r s [] (fun _ caps => Some caps).

Fixpoint exec (r : re) (s : string) : option captures :=
  match match_here r s with
  | Some caps => Some caps
  | None =>
      match s with
      | EmptyString => None
      | String _ s' => exec r s'
      end
  end.

Definition d : re := Cls is_digit.
Definition w : re := Cls is_word.
Definition sp : re := Cls is_white_space.

(** [/(\d+)\.\s+(\w+)\s+(\d{4})/] *)
Definition date_re : re :=
  Cat (Group 1 (Plus d))
    (Cat (Chr ".")
       (Cat (Plus sp)
          (Cat (Group 2 (Plus w))
             (Cat (Plus sp)
                (Group 3 (Cat d (Cat d (Cat d d)))))))).

(** [/(\d{1,2}):(\d{2})/] *)
Definition time_re : re :=
  Cat (Group 1 (Cat d (Opt d)))
    (Cat (Chr ":")
       (Group 2 (Cat d d))).

End Regex.

(** ** Numbers: binary64 *)
Module Number.
Import JsString.

Definition prec : Z := 53.
Definition emax : Z := 1024.

Definition number := spec_float.

Definition NaN : number := S754_nan.
Definition Infinity (neg : bool) : number := S754_infinity neg.

(** The Number value for an integer (round to nearest, ties to even). *)
Definition of_Z (z : Z) : number := binary_normalize prec emax z 0 false.

(** The Number value for the rational [p / q] with the sign [neg]. *)
Definition of_ratio (neg : bool) (p q : positive) : number :=
  SFdiv prec emax (S754_finite neg p 0) (S754_finite false q 0).

(** The Number value for [n * 10 ^ e10], [n >= 0], with the sign [neg]. *)
Definition of_decimal (neg : bool) (n : Z) (e10 : Z) : number :=
  match n with
  | Zpos p =>
      if 0 <=? e10 then of_ratio neg (p * Z.to_pos (10 ^ e10)) 1
      else of_ratio neg p (Z.to_pos (10 ^ (- e10)))
  | _ => S754_zero neg
  end.

Definition isNaN (x : number) : bool :=
  match x with S754_nan => true | _ => false end.

Definition mul (x y : number) : number := SFmul prec emax x y.

(** [Math.round]: non-finite and integral values are returned as they are;
    otherwise the closest integer, ties towards +Infinity, that is
    floor(x + 1/2) computed exactly; a zero result keeps the sign of [x]. *)
Definition Math_round (x : number) : number :=
  match x with
  | S754_finite s m e =>
      if 0 <=? e then x
      else
        let v := if s then Zneg m else Zpos m in
        let r := (2 * v + 2 ^ (- e)) / 2 ^ (- e + 1) in
        if r =? 0 then S754_zero s else of_Z r
  | _ => x
  end.

(** *** [parseFloat]

    The argument is trimmed at the start; the longest prefix that is a
    StrDecimalLiteral is converted, and [NaN] is returned when there is
    none.  StrDecimalLiteral is an optional sign followed by [Infinity],
    [digits . digits? exponent?], [. digits exponent?] or
    [digits exponent?]. *)
Inductive literal :=
| LitInfinity
| LitDecimal (int_part frac_part : string) (exponent : Z).

(** ExponentPart: [e] or [E], an optional sign, at least one digit;
    anything else is not part of the literal and counts as exponent 0. *)
Definition scan_exponent (s : string) : Z :=
  match s with
  | String c r =>
      if Ascii.eqb c "e" || Ascii.eqb c "E" then
        let '(neg, r') :=
          match r with
          | String "-" r' => (true, r')
          | String "+" r' => (false, r')
          | _ => (false, r)
          end in
        let '(ds, _) := span is_digit r' in
        if is_empty ds then 0
        else if neg then - digits_value ds else digits_value ds
      else 0
  | EmptyString => 0
  end.

Definition scan_unsigned (s : string) : option literal :=
  if starts_with "Infinity" s then Some LitInfinity
  else
    let '(ip, r1) := span is_digit s in
    match r1 with
    | String "." r2 =>
        let '(fp, r3) := span is_digit r2 in
        if is_empty ip && is_empty fp then None
        else Some (LitDecimal ip fp (scan_exponent r3))
    | _ =>
        if is_empty ip then None
        else Some (LitDecimal ip EmptyString (scan_exponent r1))
    end.

Definition scan_sign (s : string) : bool * string :=
  match s with
  | String "-" u => (true, u)
  | String "+" u => (false, u)
  | _ => (false, s)
  end.

Definition parseFloat (s : string) : number :=
  let '(neg, u) := scan_sign (trimStart s) in
  match scan_unsigned u with
  | None => NaN
  | Some LitInfinity => Infinity neg
  | Some (LitDecimal ip fp e) =>
      of_decimal neg (digits_value (ip +:+ fp)) (e - Z.of_nat (String.length fp))
  end.

(** [parseInt] in radix 10: trimmed, an optional sign, then the longest
    prefix of digits; [NaN] when there is no digit.  (The callers pass
    captures of [\d] classes, so the "0x" prefix rule never applies.) *)
Definition parseInt (s : string) : number :=
  let '(neg, u) := scan_sign (trim s) in
  let '(ds, _) := span is_digit u in
  if is_empty ds then NaN
  else
    match digits_value ds with
    | 0 => S754_zero neg
    | v => of_Z (if neg then - v else v)
    end.

End Number.

(** ** The API client, [js/api.js] *)
Module RheinPegelAPI.
Import JsString Number.

(** The reading returned by the parser; the store keeps the same record
    with integer fields. *)
Record Reading (num : Type) := mkReading {
  waterLevel : num;
  date : string;
  time : string;
  timestamp : num;
  graphic : option string   (* a string or [null] *)
}.
Arguments mkReading {num}.
Arguments waterLevel {num}.
Arguments date {num}.
Arguments time {num}.
Arguments timestamp {num}.
Arguments graphic {num}.

(** What the browser provides to the parser.  [DOMParser_text xmlString sel]
    is [xmlDoc.querySelector(sel)?.textContent] for the document that
    [DOMParser] makes of [xmlString]: [None] when no element matches (a text
    that is not well-formed yields a document with a [parsererror] element).
    [Date_local y m d h min] is [new Date(y, m, d, h, min).getTime()], which
    depends on the time zone. *)
Record browser := {
  DOMParser_text : string -> string -> option string;
  Date_local : number -> number -> number -> number -> number -> number
}.

(** *** [convertGermanDecimal] *)
Definition convertGermanDecimal (germanNumber : string) : completion number :=
  catch_c
    (let meters := parseFloat (replace "," "." (trim germanNumber)) in
     if isNaN meters then
       Throw (Error ("Invalid number format: " +:+ germanNumber))
     else
       let centimeters := Math_round (mul meters (of_Z 100)) in
       (* outside 0..2000 only a warning is logged *)
       Return centimeters)
    (fun error => Throw (Error ("Number conversion failed: " +:+ message error))).

(** *** [parseGermanDateTime] *)
Definition a_umlaut : ascii := ascii_of_N 228.

Definition monthNames : list (string * Z) :=
  [ ("Januar", 0); ("Februar", 1); (String "M" (String a_umlaut "rz"), 2);
    ("April", 3); ("Mai", 4); ("Juni", 5); ("Juli", 6); ("August", 7);
    ("September", 8); ("Oktober", 9); ("November", 10); ("Dezember", 11) ]%string.

(** The properties an object literal inherits from [Object.prototype]. *)
Definition object_prototype_keys : list string :=
  [ "constructor"; "hasOwnProperty"; "isPrototypeOf"; "propertyIsEnumerable";
    "toLocaleString"; "toString"; "valueOf"; "__proto__";
    "__defineGetter__"; "__defineSetter__"; "__lookupGetter__";
    "__lookupSetter__" ]%string.

Inductive property :=
| Own (v : Z)      (* a month index of the table *)
| Inherited        (* a function or object of the prototype *)
| Undefined.

Fixpoint assoc (k : string) (l : list (string * Z)) : option Z :=
  match l with
  | [] => None
  | (k', v) :: l' => if String.eqb k k' then Some v else assoc k l'
  end.

(** [monthNames[monthName]] *)
Definition monthNames_get (monthName : string) : property :=
  match assoc monthName monthNames with
  | Some v => Own v
  | None =>
      if existsb (String.eqb monthName) object_prototype_keys
      then Inherited else Undefined
  end.

(** The [try] block of [parseGermanDateTime]. *)
Definition parseGermanDateTime_try (env : browser) (dateStr timeStr : string)
    : completion number :=
  match Regex.exec Regex.date_re dateStr with
  | None => Throw (Error ("Invalid date format: " +:+ dateStr))
  | Some dateMatch =>
      let day := parseInt (Regex.group 1 dateMatch) in
      let monthName := Regex.group 2 dateMatch in
      let year := parseInt (Regex.group 3 dateMatch) in
      match monthNames_get monthName with
      | Undefined => Throw (Error ("Unknown month: " +:+ monthName))
      | month =>
          match Regex.exec Regex.time_re timeStr with
          | None => Throw (Error ("Invalid time format: " +:+ timeStr))
          | Some timeMatch =>
              let hours := parseInt (Regex.group 1 timeMatch) in
              let minutes := parseInt (Regex.group 2 timeMatch) in
              let month_number :=
                match month with Own v => of_Z v | _ => NaN end in
              Return (Date_local env year month_number day hours minutes)
          end
      end
  end.

(** [now] is the value [Date.now()] has when the [catch] block runs. *)
Definition parseGermanDateTime (env : browser) (now : Z)
    (dateStr timeStr : string) : number :=
  match parseGermanDateTime_try env dateStr timeStr with
  | Return t => t
  | Throw _ => of_Z now
  end.

(** *** [parseXMLResponse] *)

(** [!x] for a value that is a string or [undefined] *)
Definition falsy (x : option string) : bool :=
  match x with
  | None => true
  | Some s => is_empty s
  end.

Definition text_of (x : option string) : string :=
  match x with Some s => s | None => EmptyString end.

Definition parseXMLResponse (env : browser) (now : Z) (xmlString : string)
    : completion (Reading number) :=
  catch_c
    (let xmlDoc := DOMParser_text env xmlString in
     match xmlDoc "parsererror" with
     | Some textContent => Throw (Error ("XML parsing error: " +:+ textContent))
     | None =>
         let datum := xmlDoc "Datum" in
         let uhrzeit := xmlDoc "Uhrzeit" in
         let pegel := xmlDoc "Pegel" in
         let grafik := xmlDoc "Grafik" in
         if falsy datum || falsy uhrzeit || falsy pegel then
           Throw (Error "Missing required fields in XML response")
         else
           bind_c (convertGermanDecimal (text_of pegel)) (fun waterLevel =>
           let timestamp :=
             parseGermanDateTime env now (text_of datum) (text_of uhrzeit) in
           Return {| waterLevel := waterLevel;
                     date := trim (text_of datum);
                     time := trim (text_of uhrzeit);
                     timestamp := timestamp;
                     graphic :=
                       match grafik with
                       | Some g => if is_empty (trim g) then None else Some (trim g)
                       | None => None
                       end |})
     end)
    (fun error => Throw (Error ("XML parsing failed: " +:+ message error))).

(** *** [isCorsError] *)
Definition isCorsError (error : js_error) : bool :=
  includes "CORS" (message error)
  || includes "Network request failed" (message error)
  || String.eqb (name error) "TypeError" && includes "Failed to fetch" (message error).

(** *** The client and [fetchCurrentLevel] *)
Record client := mkClient {
  apiUrl : string;
  timeout : Z;
  maxRetries : nat;
  retryDelay : Z;
  useCorsProxy : bool;
  corsProxyUrl : string
}.

Definition constructor (apiUrl : string) : client :=
  {| apiUrl := apiUrl;
     timeout := 10000;
     maxRetries := 3;
     retryDelay := 1000;
     useCorsProxy := false;
     corsProxyUrl := "https://cors-anywhere.herokuapp.com/" |}.

Definition set_useCorsProxy (b : bool) (this : client) : client :=
  {| apiUrl := apiUrl this; timeout := timeout this;
     maxRetries := maxRetries this; retryDelay := retryDelay this;
     useCorsProxy := b; corsProxyUrl := corsProxyUrl this |}.

Record response := { ok : bool; status : nat; text : string }.

(** The transport: what [fetch(url)] of the given attempt settles to (a
    rejection covers the abort after [timeout] ms), and the clock read by
    the parser during that attempt. *)
Record network := {
  fetch : nat -> string -> completion response;
  clock : nat -> Z
}.

Inductive event :=
| Request (attempt : nat) (url : string)
| Delay (ms : Z).

(** The body of the [try] block of one attempt. *)
Definition attempt_try (env : browser) (net : network)
    (attempt : nat) (url : string) : completion (Reading number) :=
  bind_c (fetch net attempt url) (fun response =>
  if negb (ok response) then
    Throw (Error ("HTTP error! status: " +:+ of_nat (status response)))
  else
    parseXMLResponse env (clock net attempt) (text response)).

(** The [for] loop from [attempt] on, with [remaining] iterations left. *)
Fixpoint attempts (env : browser) (net : network) (remaining : nat)
    (attempt : nat) (this : client) (lastError : option js_error)
    (log : list event) : completion (Reading number) * client * list event :=
  match remaining with
  | O =>
      match lastError with
      | Some e =>
          (Throw (Error ("Failed to fetch data after " +:+ of_nat (maxRetries this)
                         +:+ " attempts: " +:+ message e)), this, log)
      | None =>
          (Throw (TypeError "Cannot read properties of null (reading 'message')"),
           this, log)
      end
  | S remaining' =>
      let url :=
        if useCorsProxy this then corsProxyUrl this +:+ apiUrl this
        else apiUrl this in
      let log := log ++ [Request attempt url] in
      match attempt_try env net attempt url with
      | Return data => (Return data, this, log)
      | Throw error =>
          let this :=
            if isCorsError error && negb (useCorsProxy this) && Nat.eqb attempt 1
            then set_useCorsProxy true this else this in
          let log :=
            if (attempt <? maxRetries this)%nat
            then log ++ [Delay (retryDelay this * Z.of_nat attempt)] else log in
          attempts env net remaining' (S attempt) this (Some error) log
      end
  end.

Definition fetchCurrentLevel (env : browser) (net : network) (this : client)
    : completion (Reading number) * client * list event :=
  attempts env net (maxRetries this) 1 this None [].

Definition testConnection (env : browser) (net : network) (this : client)
    : bool * client :=
  match fetchCurrentLevel env net this with
  | (Return _, this', _) => (true, this')
  | (Throw _, this', _) => (false, this')
  end.

Definition enableCorsProxy (proxyUrl : option string) (this : client) : client :=
  let this := set_useCorsProxy true this in
  match proxyUrl with
  | Some u =>
      if is_empty u then this
      else {| apiUrl := apiUrl this; timeout := timeout this;
              maxRetries := maxRetries this; retryDelay := retryDelay this;
              useCorsProxy := useCorsProxy this; corsProxyUrl := u |}
  | None => this
  end.

Definition disableCorsProxy (this : client) : client :=
  set_useCorsProxy false this.

(** *** [getDefaultApiUrl] and the constructor with its default

    [window.location] gives the host name and the port of the page; the port
    is the empty string when the URL of the page has none. *)
Record window_location := { hostname : string; port : string }.

Definition getDefaultApiUrl (location : window_location) : string :=
  let isLocalhost :=
    String.eqb (hostname location) "localhost"
    || String.eqb (hostname location) "127.0.0.1"
    || String.eqb (hostname location) "" in
  if isLocalhost && negb (is_empty (port location)) then
    "http://localhost:" +:+ port location +:+ "/api/pegel"
  else "https://www.stadt-koeln.de/interne-dienste/hochwasser/pegel_ws.php".

(** [new RheinPegelAPI(apiUrl)], where [apiUrl] is a string or [null]:
    [this.apiUrl = apiUrl || this.getDefaultApiUrl()]. *)
Definition new_RheinPegelAPI (location : window_location) (apiUrl : option string)
    : client :=
  constructor
    (match apiUrl with
     | Some u => if is_empty u then getDefaultApiUrl location else u
     | None => getDefaultApiUrl location
     end).

End RheinPegelAPI.

(** ** Dates made from a time value *)
Module JsDate.

(** [new Date(t)] for an integer [t]: a date with time value [t], or an
    invalid date when [t] is more than 8.64e15 ms away from the epoch. *)
Inductive Date :=
| ValidDate (t : Z)
| InvalidDate.

Definition new_Date (t : Z) : Date :=
  if Z.abs t <=? 8640000000000000 then ValidDate t else InvalidDate.

End JsDate.

(** ** The history store, [js/storage.js] *)
Module WaterLevelStorage.
Import JsString.

(** A JSON value of a field the store does not interpret. *)
Inductive jsval :=
| VNull
| VBool (b : bool)
| VNum (n : Z)
| VStr (s : string).

(** A stored reading: the four fields the store writes, with integer level
    and timestamp, and whatever other properties the object carries. *)
Record entry := mkEntry {
  entry_waterLevel : Z;
  entry_date : string;
  entry_time : string;
  entry_timestamp : Z;
  entry_extra : gmap string jsval
}.

(** The property names of a stored reading. *)
Definition keys (e : entry) : gset string :=
  {[ "waterLevel"; "date"; "time"; "timestamp" ]} ∪ dom (entry_extra e).

(** The storage object.  [version] is [None] when the property is missing
    ([undefined]); [readings] is [None] when the property is missing or
    [null]; [lastUpdated] is [None] for [null]. *)
Record storage := mkStorage {
  version : option jsval;
  readings : option (list entry);
  lastUpdated : option Z
}.

(** A JSON document: [null], an object of the shape above, or any other
    value (a number, a string, a boolean, an array). *)
Inductive json :=
| JNull
| JObject (o : storage)
| JOther.

(** The text held by the [localStorage] slot, seen through [JSON.parse]:
    the empty string, a text that [JSON.parse] rejects, or a document. *)
Inductive item :=
| Empty
| Malformed
| Json (j : json).

(** The environment of the store: the slot under [storageKey], the faults
    of the coming calls that change the storage, [setItem] and [removeItem]
    ([Some e]: the call throws [e] and changes nothing; no entry: the call
    succeeds), and the clock: [Date.now()] returns [clock_now], after which
    the clock moves by the next tick. *)
Record world := mkWorld {
  slot : option item;
  faults : list (option js_error);
  clock_now : Z;
  ticks : list Z
}.

Definition M (A : Type) : Type := world -> completion A * world.

Definition ret {A} (a : A) : M A := fun w => (Return a, w).
Definition throw {A} (e : js_error) : M A := fun w => (Throw e, w).
Definition bind {A B} (k : A -> M B) (m : M A) : M B :=
  fun w =>
    match m w with
    | (Return a, w') => k a w'
    | (Throw e, w') => (Throw e, w')
    end.
Definition try_catch {A} (m : M A) (h : js_error -> M A) : M A :=
  fun w =>
    match m w with
    | (Return a, w') => (Return a, w')
    | (Throw e, w') => h e w'
    end.

(** The notations [x ← m; k] and [m;; k] sequence two steps. *)
#[global] Instance M_bind : MBind M := @bind.
#[global] Instance M_ret : MRet M := @ret.

Definition Date_now : M Z :=
  fun w =>
    (Return (clock_now w),
     {| slot := slot w; faults := faults w;
        clock_now := clock_now w + hd 0 (ticks w); ticks := tl (ticks w) |}).

Definition localStorage_getItem : M (option item) :=
  fun w => (Return (slot w), w).

Definition localStorage_setItem (v : item) : M unit :=
  fun w =>
    match faults w with
    | Some e :: fs =>
        (Throw e, {| slot := slot w; faults := fs;
                     clock_now := clock_now w; ticks := ticks w |})
    | None :: fs =>
        (Return tt, {| slot := Some v; faults := fs;
                       clock_now := clock_now w; ticks := ticks w |})
    | [] =>
        (Return tt, {| slot := Some v; faults := [];
                       clock_now := clock_now w; ticks := ticks w |})
    end.

Definition localStorage_removeItem : M unit :=
  fun w =>
    match faults w with
    | Some e :: fs =>
        (Throw e, {| slot := slot w; faults := fs;
                     clock_now := clock_now w; ticks := ticks w |})
    | None :: fs =>
        (Return tt, {| slot := None; faults := fs;
                       clock_now := clock_now w; ticks := ticks w |})
    | [] =>
        (Return tt, {| slot := None; faults := [];
                       clock_now := clock_now w; ticks := ticks w |})
    end.

Definition JSON_stringify (data : storage) : item := Json (JObject data).

Definition JSON_parse (text : item) : M json :=
  match text with
  | Json j => ret j
  | _ => throw (JsError "SyntaxError" "Unexpected end of JSON input")
  end.

(** [x.readings] used as an array: a [TypeError] when it is missing. *)
Definition array_of (rs : option (list entry)) : M (list entry) :=
  match rs with
  | Some l => ret l
  | None => throw (TypeError "Cannot read properties of undefined")
  end.

(** *** Constants of the constructor *)
Definition maxAge : Z := 24 * 60 * 60 * 1000.
Definition maxEntries : nat := 1440.
Definition this_version : string := "1.0.0".

(** *** [Array.prototype.sort] with a comparator: a stable sort, [a] before
    [b] when [cmp a b < 0]. *)
Fixpoint insert_by {A} (cmp : A -> A -> Z) (x : A) (l : list A) : list A :=
  match l with
  | [] => [x]
  | y :: l' => if cmp x y <=? 0 then x :: l else y :: insert_by cmp x l'
  end.

Definition sort {A} (cmp : A -> A -> Z) (l : list A) : list A :=
  foldr (insert_by cmp) [] l.

Definition filter_b {A} (p : A -> bool) (l : list A) : list A :=
  List.filter p l.

(** *** [createEmptyStorage] *)
Definition createEmptyStorage : storage :=
  {| version := Some (VStr this_version); readings := Some []; lastUpdated := None |}.

(** [parsed.version !== this.version] *)
Definition version_differs (v : option jsval) : bool :=
  match v with
  | Some (VStr s) => negb (String.eqb s this_version)
  | _ => true
  end.

(** *** [getStorageData] *)
Definition getStorageData : M storage :=
  try_catch
    (data ← localStorage_getItem;
     match data with
     | None | Some Empty => ret createEmptyStorage          (* !data *)
     | Some text =>
         parsed ← JSON_parse text;
         match parsed with
         | JNull => throw (TypeError "Cannot read properties of null (reading 'version')")
         | JOther => ret createEmptyStorage                 (* undefined !== version *)
         | JObject o =>
             if version_differs (version o) then ret createEmptyStorage
             else ret o
         end
     end)
    (fun error => ret createEmptyStorage).

(** *** [setStorageData] *)
Definition setStorageData (data : storage) : M unit :=
  try_catch
    (localStorage_setItem (JSON_stringify data))
    (fun error =>
       if String.eqb (name error) "QuotaExceededError" then
         rs ← array_of (readings data);
         let data :=
           {| version := version data;
              readings := Some (take (length rs / 2)%nat rs);
              lastUpdated := lastUpdated data |} in
         localStorage_setItem (JSON_stringify data)
       else throw error).

(** *** [cleanOldData] *)
Definition cleanOldData : M unit :=
  try_catch
    (storage ← getStorageData;
     now ← Date_now;
     let cutoffTime := now - maxAge in
     rs ← array_of (readings storage);
     let storage :=
       {| version := version storage;
          readings := Some (filter_b (fun reading => cutoffTime <=? entry_timestamp reading) rs);
          lastUpdated := lastUpdated storage |} in
     setStorageData storage)
    (fun error => ret tt).

(** The object literal pushed by [saveReading]: four properties. *)
Definition entry_of (data : RheinPegelAPI.Reading Z) : entry :=
  {| entry_waterLevel := RheinPegelAPI.waterLevel data;
     entry_date := RheinPegelAPI.date data;
     entry_time := RheinPegelAPI.time data;
     entry_timestamp := RheinPegelAPI.timestamp data;
     entry_extra := ∅ |}.

(** *** [saveReading] *)
Definition saveReading (data : RheinPegelAPI.Reading Z) : M bool :=
  try_catch
    (storage ← getStorageData;
     rs ← array_of (readings storage);
     let rs := rs ++ [entry_of data] in
     let rs := sort (fun a b => entry_timestamp b - entry_timestamp a) rs in
     let rs := if (maxEntries <? length rs)%nat then take maxEntries rs else rs in
     now ← Date_now;
     let storage :=
       {| version := version storage; readings := Some rs; lastUpdated := Some now |} in
     setStorageData storage;;
     cleanOldData;;
     ret true)
    (fun error => ret false).

(** *** [getHistoricalData] *)
Definition getHistoricalData (hours : Z) : M (list entry) :=
  try_catch
    (storage ← getStorageData;
     now ← Date_now;
     let cutoffTime := now - hours * 60 * 60 * 1000 in
     rs ← array_of (readings storage);
     let filteredReadings :=
       filter_b (fun reading => cutoffTime <=? entry_timestamp reading) rs in
     ret (sort (fun a b => entry_timestamp a - entry_timestamp b) filteredReadings))
    (fun error => ret []).

(** *** [getLatestReading] *)
Definition getLatestReading : M (option entry) :=
  try_catch
    (storage ← getStorageData;
     rs ← array_of (readings storage);
     ret (if (0 <? length rs)%nat then head rs else None))
    (fun error => ret None).

(** *** [clearAll] *)
Definition clearAll : M bool :=
  try_catch (localStorage_removeItem;; ret true) (fun error => ret false).

(** *** [exportData]

    The text [JSON.stringify(storage, null, 2)], or [null].  The indented
    text parses to the same document as the plain one. *)
Definition exportData : M (option item) :=
  try_catch
    (storage ← getStorageData;
     ret (Some (JSON_stringify storage)))
    (fun error => ret None).

(** *** [getStatistics]

    [blob_size text] is [new Blob([text]).size], the number of bytes of the
    text in UTF-8; it is given by the browser.  [toFixed2_KB n] is
    [(n / 1024).toFixed(2)]: the quotient is exact in binary64 for every size
    below 2^53, and [toFixed] takes the closest multiple of 1/100, the larger
    one of two, and writes it with two decimals. *)
Module Statistics.
Record t := {
  totalReadings : nat;
  oldestReading : option JsDate.Date;
  newestReading : option JsDate.Date;
  lastUpdated : option JsDate.Date;
  storageSize : nat;
  storageSizeKB : string
}.
End Statistics.



End WaterLevelStorage.

(** ** The classifier, [ALERT_LEVELS] and [RheinPegelApp.getAlertLevel] *)
Module RheinPegelApp.

Inductive bound := Finite (z : Z) | PlusInfinity.

(** An entry of [ALERT_LEVELS].  Of the display properties the colours and
    labels are kept; [icon] and [description] hold characters above 255. *)
Record alert_level := mkAlert {
  min : Z;
  max : bound;
  color : string;
  bgColor : string;
  label : string;
  labelDE : string
}.

Module ALERT_LEVELS.
Definition NORMAL : alert_level :=
  {| min := 0; max := Finite 400; color := "#4CAF50";
     bgColor := "rgba(76, 175, 80, 0.1)";
     label := "Normal"; labelDE := "Normal" |}.
Definition WARNING : alert_level :=
  {| min := 400; max := Finite 800; color := "#FF9800";
     bgColor := "rgba(255, 152, 0, 0.1)";
     label := "Warning"; labelDE := "Warnung" |}.
Definition DANGER : alert_level :=
  {| min := 800; max := PlusInfinity; color := "#F44336";
     bgColor := "rgba(244, 67, 54, 0.1)";
     label := "Danger"; labelDE := "Gefahr" |}.
End ALERT_LEVELS.

(** [waterLevel < b] *)
Definition below (waterLevel : Z) (b : bound) : bool :=
  match b with
  | Finite z => waterLevel <? z
  | PlusInfinity => true
  end.

Definition getAlertLevel (waterLevel : Z) : alert_level :=
  if below waterLevel (max ALERT_LEVELS.NORMAL) then ALERT_LEVELS.NORMAL
  else if below waterLevel (max ALERT_LEVELS.WARNING) then ALERT_LEVELS.WARNING
  else ALERT_LEVELS.DANGER.

(** *** The application state and the refresh timer

    The object [AppState], and the interval timers of the window: the ids in
    use with their periods.  [setInterval] hands out an id that is not in
    use ([fresh], given by the browser; ids are positive integers), and
    [clearInterval] frees the id. *)
Record app_state := mkAppState {
  currentLevel : option Z;
  lastUpdate : option Z;
  isLoading : bool;
  hasError : bool;
  errorMessage : option string;
  autoRefreshEnabled : bool;
  refreshInterval : Z;
  refreshTimer : option positive
}.

Definition AppState : app_state :=
  {| currentLevel := None;
     lastUpdate := None;
     isLoading := false;
     hasError := false;
     errorMessage := None;
     autoRefreshEnabled := true;
     refreshInterval := 60000;
     refreshTimer := None |}.

Definition intervals := gmap positive Z.

Definition setInterval (fresh : intervals -> positive) (ms : Z) (timers : intervals)
    : positive * intervals :=
  (fresh timers, <[fresh timers := ms]> timers).

Definition clearInterval (id : positive) (timers : intervals) : intervals :=
  delete id timers.

Definition set_refreshTimer (timer : option positive) (state : app_state) : app_state :=
  {| currentLevel := currentLevel state;
     lastUpdate := lastUpdate state;
     isLoading := isLoading state;
     hasError := hasError state;
     errorMessage := errorMessage state;
     autoRefreshEnabled := autoRefreshEnabled state;
     refreshInterval := refreshInterval state;
     refreshTimer := timer |}.

(** [stopAutoRefresh] *)
Definition stopAutoRefresh (state : app_state) (timers : intervals)
    : app_state * intervals :=
  match refreshTimer state with
  | Some id => (set_refreshTimer None state, clearInterval id timers)
  | None => (state, timers)
  end.

(** [startAutoRefresh]: the timer in use is cleared before the new one is
    set. *)
Definition startAutoRefresh (fresh : intervals -> positive) (state : app_state)
    (timers : intervals) : app_state * intervals :=
  let '(state, timers) := stopAutoRefresh state timers in
  let '(id, timers) := setInterval fresh (refreshInterval state) timers in
  (set_refreshTimer (Some id) state, timers).

End RheinPegelApp.

(** ** The chart, [js/chart.js]

    Of the Chart.js object the class reads and writes [data.labels], the
    [data] arrays of the three datasets (levels, warning line, danger line)
    and the two colours of the first dataset; these make up [Chart].
    Drawing ([chart.update]) changes none of them. *)
Module WaterLevelChart.
Import JsDate WaterLevelStorage.

Record chartData := mkChartData {
  labels : list Date;
  values : list Z;
  warningLine : list Z;
  dangerLine : list Z
}.

Record Chart := mkChart {
  data : chartData;
  borderColor : string;
  backgroundColor : string
}.

(** The object: whether a canvas element was given, the chart or [null],
    and the bound on the number of points. *)
Record object := mkObject {
  canvas : bool;
  chart : option Chart;
  maxDataPoints : nat
}.

Definition constructor (canvasElement : bool) : object :=
  {| canvas := canvasElement; chart := None; maxDataPoints := 144 |}.

Definition set_chart (c : option Chart) (this : object) : object :=
  {| canvas := canvas this; chart := c; maxDataPoints := maxDataPoints this |}.

(** *** [prepareChartData] *)
Definition prepareChartData (historicalData : list entry) : chartData :=
  let sortedData :=
    sort (fun a b => entry_timestamp a - entry_timestamp b) historicalData in
  let labels := map (fun reading => new_Date (entry_timestamp reading)) sortedData in
  let values := map entry_waterLevel sortedData in
  let dataLength := length labels in
  {| labels := labels;
     values := values;
     warningLine := replicate dataLength 400;
     dangerLine := replicate dataLength 800 |}.

(** *** [initialize] *)
Definition initialize (historicalData : list entry) (this : object) : object :=
  if negb (canvas this) then this
  else
    let chartData := prepareChartData historicalData in
    set_chart (Some {| data := chartData;
                       borderColor := "#2196F3";
                       backgroundColor := "rgba(33, 150, 243, 0.1)" |}) this.


(** *** [refreshChart] *)
Definition refreshChart (historicalData : list entry) (this : object) : object :=
  match chart this with
  | None => initialize historicalData this
  | Some c =>
      let chartData := prepareChartData historicalData in
      set_chart (Some {| data := chartData; borderColor := borderColor c;
                         backgroundColor := backgroundColor c |}) this
  end.

(** *** [highlightAlertZone] *)
Definition highlightAlertZone (currentLevel : Z) (this : object) : object :=
  match chart this with
  | None => this
  | Some c =>
      let '(border, background) :=
        if 800 <=? currentLevel then ("#F44336", "rgba(244, 67, 54, 0.1)")
        else if 400 <=? currentLevel then ("#FF9800", "rgba(255, 152, 0, 0.1)")
        else ("#2196F3", "rgba(33, 150, 243, 0.1)") in
      set_chart (Some {| data := data c; borderColor := border;
                         backgroundColor := background |}) this
  end.

(** *** [destroy] and [getChart] *)
Definition destroy (this : object) : object :=
  match chart this with
  | Some _ => set_chart None this
  | None => this
  end.

Definition getChart (this : object) : option Chart := chart this.

End WaterLevelChart.

(** * Vocabulary of the statements *)

Section StoreVocabulary.
Import WaterLevelStorage.

(** The version recorded in the text of the slot, if it is a JSON object
    that has one. *)
Definition blob_version (text : item) : option jsval :=
  match text with
  | Json (JObject o) => version o
  | _ => None
  end.

(** A stored reading written by an older or foreign writer. *)
Definition sample_entry (t : Z) : entry :=
  {| entry_waterLevel := 368; entry_date := "27. Oktober 2025";
     entry_time := "15:25"; entry_timestamp := t;
     entry_extra := {[ "graphic" := VStr "pegel.png" ]} |}.

(** A blob written under another schema version. *)
Definition old_version_blob : item :=
  Json (JObject {| version := Some (VStr "0.9.0");
                   readings := Some [sample_entry 5];
                   lastUpdated := Some 5 |}).

(** The timestamp of a stored reading. *)
Definition ts (e : entry) : Z := entry_timestamp e.

(** Descending and ascending order of timestamps. *)
Definition newer_or_equal (a b : entry) : Prop := ts b <= ts a.
Definition older_or_equal (a b : entry) : Prop := ts a <= ts b.
Definition newest_first (l : list entry) : Prop := Sorted newer_or_equal l.
Definition oldest_first (l : list entry) : Prop := Sorted older_or_equal l.

(** A comparator that subtracts keys, and the order it sorts into. *)
Definition key_cmp {A} (key : A -> Z) (a b : A) : Z := key a - key b.
Definition key_le {A} (key : A -> Z) (a b : A) : Prop := key a <= key b.

(** The comparators of [saveReading] and [getHistoricalData]. *)
Definition by_newest (a b : entry) : Z := entry_timestamp b - entry_timestamp a.
Definition by_oldest (a b : entry) : Z := entry_timestamp a - entry_timestamp b.

(** What [getStorageData] returns for a slot. *)
Definition load (s : option item) : storage :=
  match fst (getStorageData {| slot := s; faults := []; clock_now := 0; ticks := [] |}) with
  | Return st => st
  | Throw _ => createEmptyStorage
  end.

(** The readings the store holds, as the public methods see them. *)
Definition stored_readings (w : world) : list entry :=
  match readings (load (slot w)) with
  | Some rs => rs
  | None => []
  end.

(** The invariant of the history store. *)
Definition store_inv (w : world) : Prop :=
  (length (stored_readings w) <= maxEntries)%nat
  /\ newest_first (stored_readings w).

(** The world after a sequence of [saveReading] calls. *)
Definition run_saves (datas : list (RheinPegelAPI.Reading Z)) (w : world) : world :=
  fold_left (fun w data => snd (saveReading data w)) datas w.

(** The truncation of [saveReading]. *)
Definition trimmed (l : list entry) : list entry :=
  if (maxEntries <? length l)%nat then take maxEntries l else l.

(** The cutoff of [getHistoricalData] and [cleanOldData]. *)
Definition within (cutoffTime : Z) (e : entry) : bool := cutoffTime <=? entry_timestamp e.

(** A stored reading with the four properties only. *)
Definition plain_entry (t : Z) : entry :=
  {| entry_waterLevel := 368; entry_date := "27. Oktober 2025";
     entry_time := "15:25"; entry_timestamp := t; entry_extra := ∅ |}.

(** A reading as the parser hands it to the store, taken at [t]. *)
Definition sample_reading (t : Z) : RheinPegelAPI.Reading Z :=
  {| RheinPegelAPI.waterLevel := 368;
     RheinPegelAPI.date := "27. Oktober 2025";
     RheinPegelAPI.time := "15:25";
     RheinPegelAPI.timestamp := t;
     RheinPegelAPI.graphic := Some "pegel.png" |}.

(** The text of a store that holds [rs]. *)
Definition store_text (rs : list entry) (lu : option Z) : item :=
  JSON_stringify {| version := Some (VStr this_version);
                    readings := Some rs; lastUpdated := lu |}.

(** An instant, 27 October 2025 15:25 CET, in milliseconds. *)
Definition an_instant : Z := 1761575100000.

(** A world with the given slot, no storage fault, the clock at [now] and
    standing still. *)
Definition quiet_world (s : option item) (now : Z) : world :=
  {| slot := s; faults := []; clock_now := now; ticks := [] |}.

(** A full store: 1440 readings, all taken at [an_instant], which is also the
    time of the clock. *)
Definition full_world : world :=
  quiet_world (Some (store_text (replicate maxEntries (plain_entry an_instant))
                                (Some an_instant)))
              an_instant.
End StoreVocabulary.

Section ClientVocabulary.
Import JsString Number RheinPegelAPI.

(** [pat] occurs in [s]. *)
Definition contains (pat s : string) : Prop :=
  exists a b, s = a +:+ pat +:+ b.

(** An error that looks like a cross-origin rejection: its message contains
    "CORS" or "Network request failed", or it is a TypeError whose message
    contains "Failed to fetch". *)
Definition cors_shaped (e : js_error) : Prop :=
  contains "CORS" (message e)
  \/ contains "Network request failed" (message e)
  \/ (name e = "TypeError" /\ contains "Failed to fetch" (message e)).

(** The URL requested while the proxy is engaged. *)
Definition proxied_url (this : client) : string :=
  corsProxyUrl this +:+ apiUrl this.

(** The operations of a client other than [disableCorsProxy]. *)
Inductive client_op :=
| OpFetch (env : browser) (net : network)
| OpTestConnection (env : browser) (net : network)
| OpEnableCorsProxy (proxyUrl : option string).

Definition client_step (this : client) (op : client_op) : client :=
  match op with
  | OpFetch env net => snd (fst (fetchCurrentLevel env net this))
  | OpTestConnection env net => snd (testConnection env net this)
  | OpEnableCorsProxy u => enableCorsProxy u this
  end.

Definition client_run (ops : list client_op) (this : client) : client :=
  fold_left client_step ops this.

(** A document with the three required fields and the picture. *)
Definition sample_document (datum uhrzeit pegel : string) (sel : string)
    : option string :=
  if String.eqb sel "Datum" then Some datum
  else if String.eqb sel "Uhrzeit" then Some uhrzeit
  else if String.eqb sel "Pegel" then Some pegel
  else if String.eqb sel "Grafik" then Some "pegel.png"
  else None.

(** A browser whose DOM parser reads every text as the document with date
    [datum], time [uhrzeit] and level [pegel], and whose local time zone
    makes every date the instant 1761575100000. *)
Definition sample_browser (datum uhrzeit pegel : string) : browser :=
  {| DOMParser_text := fun _ => sample_document datum uhrzeit pegel;
     Date_local := fun _ _ _ _ _ => of_Z 1761575100000 |}.

(** The browser that reads the sample response, and the client of the
    Cologne endpoint. *)
Definition sample_env : browser := sample_browser "27. Oktober 2025" "15:25" "3,68".
Definition sample_client : client :=
  constructor "https://www.stadt-koeln.de/interne-dienste/hochwasser/pegel_ws.php".

(** The rejection of a cross-origin request by the browser. *)
Definition failed_to_fetch : js_error := TypeError "Failed to fetch".

(** A transport that rejects the first two attempts and answers the third. *)
Definition flaky_network : network :=
  {| fetch := fun attempt url =>
       match attempt with
       | 1%nat | 2%nat => Throw failed_to_fetch
       | _ => Return {| ok := true; status := 200; text := "<Hochwasserpegel/>" |}
       end;
     clock := fun _ => 1761575160000 |}.
End ClientVocabulary.

Section ParserVocabulary.
Import JsString Number RheinPegelAPI.

(** The text begins with an unsigned StrDecimalLiteral: [Infinity], a digit,
    or a point followed by a digit. *)
Definition starts_number (u : string) : bool :=
  starts_with "Infinity" u
  || match u with
     | String c r =>
         is_digit c
         || Ascii.eqb c "." && match r with
                               | String c2 _ => is_digit c2
                               | EmptyString => false
                               end
     | EmptyString => false
     end.

(** After leading white space and an optional sign, the text begins with a
    number. *)
Definition numeric_prefix (s : string) : bool :=
  starts_number (snd (scan_sign (trimStart s))).

(** [D] is a non-empty string of digits and [FF] is two digits. *)
Definition german_decimal (D FF : string) : bool :=
  negb (is_empty D) && all is_digit D
  && Nat.eqb (String.length FF) 2 && all is_digit FF.

(** The whole text has the form [D,FF]. *)
Definition is_german_decimal (s : string) : bool :=
  let '(D, r) := span is_digit s in
  match r with
  | String "," FF => german_decimal D FF
  | _ => false
  end.

(** The conversion in the words of the specification: replace the comma by a
    point, parse as floating point, multiply by 100, round half-up. *)
Definition convert_spec (s : string) : number :=
  Math_round (mul (parseFloat (replace "," "." s)) (of_Z 100)).

(** Empty after trimming. *)
Definition blank (s : string) : bool := is_empty (trim s).

(** The error classes of the specification, read off the message the code
    builds: [parseXMLResponse] prefixes every failure with
    "XML parsing failed: ", [convertGermanDecimal] with
    "Number conversion failed: ", and the date parser would report
    "Invalid date format", "Unknown month" or "Invalid time format". *)
Definition is_ParseError (e : js_error) : bool :=
  starts_with "XML parsing failed: " (message e).
Definition is_NumberFormatError (e : js_error) : bool :=
  includes "Number conversion failed: " (message e).
Definition is_DateFormatError (e : js_error) : bool :=
  includes "Invalid date format: " (message e)
  || includes "Unknown month: " (message e)
  || includes "Invalid time format: " (message e).

(** The document has no parser error and carries the three required fields,
    none of them the empty string. *)
Definition fields_present (env : browser) (xmlString datum uhrzeit pegel : string) : Prop :=
  DOMParser_text env xmlString "parsererror" = None
  /\ DOMParser_text env xmlString "Datum" = Some datum
  /\ DOMParser_text env xmlString "Uhrzeit" = Some uhrzeit
  /\ DOMParser_text env xmlString "Pegel" = Some pegel
  /\ is_empty datum = false /\ is_empty uhrzeit = false /\ is_empty pegel = false.

(** The picture of a reading, as the parser derives it. *)
Definition graphic_of (grafik : option string) : option string :=
  match grafik with
  | Some g => if is_empty (trim g) then None else Some (trim g)
  | None => None
  end.

(** A shift record stands for the rational [a / b]: its mantissa is the
    integer part and the two flags locate the rest against one half. *)
Definition represents (a b : Z) (rec : shr_record) : Prop :=
  0 < b /\ 0 <= shr_m rec
  /\ match shr_r rec, shr_s rec with
     | false, false => a = shr_m rec * b
     | false, true => shr_m rec * b < a /\ 2 * a < (2 * shr_m rec + 1) * b
     | true, false => 2 * a = (2 * shr_m rec + 1) * b
     | true, true => (2 * shr_m rec + 1) * b < 2 * a /\ a < (shr_m rec + 1) * b
     end.

(** The levels, in centimetres, for which the conversion is shown exact:
    below 2^40, about eleven million kilometres. *)
Definition exact_levels : Z := 2 ^ 40.
End ParserVocabulary.

Section RetryVocabulary.
Import JsString Number RheinPegelAPI.

(** The URL a request goes to under the flag of the client. *)
Definition request_url (this : client) : string :=
  if useCorsProxy this then corsProxyUrl this +:+ apiUrl this else apiUrl this.

(** The log of [n] attempts in a row, numbered from [first]: a request each,
    and after each but the last a pause of [retryDelay] times the number of
    the attempt. *)
Fixpoint retry_log (retryDelay : Z) (url : nat -> string) (first n : nat) : list event :=
  match n with
  | O => []
  | S n' =>
      Request first (url first)
      :: match n' with
         | O => []
         | S _ => Delay (retryDelay * Z.of_nat first)
                  :: retry_log retryDelay url (S first) n'
         end
  end.

(** The URL of attempt [k] in a call that the client enters as [this] and
    leaves as [this']. *)
Definition attempt_url (this this' : client) (k : nat) : string :=
  if Nat.eqb k 1 then request_url this else request_url this'.

(** The call engages the proxy: the flag is not set, there is a first
    attempt, and it fails with an error that [isCorsError] accepts. *)
Definition engages (env : browser) (net : network) (this : client) : bool :=
  negb (useCorsProxy this)
  && (0 <? maxRetries this)%nat
  && match attempt_try env net 1 (apiUrl this) with
     | Throw e => isCorsError e
     | Return _ => false
     end.

(** The error of a call all of whose attempts failed, the last with [e]. *)
Definition exhausted (this : client) (e : js_error) : js_error :=
  Error ("Failed to fetch data after " +:+ of_nat (maxRetries this)
         +:+ " attempts: " +:+ message e).

(** A transport that is down: every request is rejected. *)
Definition dead_network (e : js_error) : network :=
  {| fetch := fun _ _ => Throw e; clock := fun _ => 1761575160000 |}.

(** A transport that answers every request with the status 503. *)
Definition failing_server : network :=
  {| fetch := fun _ _ => Return {| ok := false; status := 503; text := "" |};
     clock := fun _ => 1761575160000 |}.

(** A transport whose first request runs into the timeout and whose later
    requests are rejected as cross-origin. *)
Definition abort_then_cors : network :=
  {| fetch := fun attempt _ =>
       match attempt with
       | 1%nat => Throw (JsError "AbortError" "The operation was aborted.")
       | _ => Throw (TypeError "Failed to fetch")
       end;
     clock := fun _ => 1761575160000 |}.

(** The requests of a log. *)
Definition requested (log : list event) : list (nat * string) :=
  omap (fun ev => match ev with Request a u => Some (a, u) | Delay _ => None end) log.

(** The pauses of a log. *)
Definition pauses (log : list event) : list Z :=
  omap (fun ev => match ev with Delay ms => Some ms | Request _ _ => None end) log.
End RetryVocabulary.

Section LevelVocabulary.
Import JsString Number RheinPegelAPI.

(** The text does not go on with a digit or an exponent mark. *)
Definition ends_number (rest : string) : bool :=
  match rest with
  | String c _ => negb (is_digit c || Ascii.eqb c "e" || Ascii.eqb c "E")
  | EmptyString => true
  end.
End LevelVocabulary.

Section RegexVocabulary.
Import JsString Number Regex RheinPegelAPI.

(** The loop of [run] for [Plus r]: one more round of [r], then further
    rounds before the continuation is tried. *)
Definition plus_loop (r : re) (k : string -> captures -> option captures)
    : nat -> string -> captures -> option captures :=
  fix more (fuel : nat) (s : string) (caps : captures) : option captures :=
    run r s caps
      (fun s1 c1 =>
         match fuel with
         | O => k s1 c1
         | S fuel' =>
             if (String.length s1 <? String.length s)%nat
             then or_else (more fuel' s1 c1) (k s1 c1)
             else k s1 c1
         end).

(** What a pattern may match: [matches r s caps s1 c1] when [r] can consume
    a prefix of [s] and leave [s1], turning the captures [caps] into [c1]. *)
Inductive matches : re -> string -> captures -> string -> captures -> Prop :=
| matches_Cls p c s caps :
    p c = true -> matches (Cls p) (String c s) caps s caps
| matches_Chr c s caps :
    matches (Chr c) (String c s) caps s caps
| matches_Cat r1 r2 s caps s1 c1 s2 c2 :
    matches r1 s caps s1 c1 -> matches r2 s1 c1 s2 c2 ->
    matches (Cat r1 r2) s caps s2 c2
| matches_Opt_some r s caps s1 c1 :
    matches r s caps s1 c1 -> matches (Opt r) s caps s1 c1
| matches_Opt_none r s caps :
    matches (Opt r) s caps s caps
| matches_Plus_one r s caps s1 c1 :
    matches r s caps s1 c1 -> matches (Plus r) s caps s1 c1
| matches_Plus_more r s caps s1 c1 s2 c2 :
    matches r s caps s1 c1 -> matches (Plus r) s1 c1 s2 c2 ->
    matches (Plus r) s caps s2 c2
| matches_Group i r s caps s1 c1 :
    matches r s caps s1 c1 ->
    matches (Group i r) s caps s1 (set_group i (consumed s s1) c1).

(** A non-empty string of digits; a non-empty string of white space. *)
Definition digits (s : string) : bool := negb (is_empty s) && all is_digit s.
Definition spaces (s : string) : bool := negb (is_empty s) && all is_white_space s.

(** A date as the endpoint writes it, with white space before it and
    anything behind it: day, full stop, month and year. *)
Definition date_text (ws day sp1 month sp2 year rest : string) : string :=
  ws +:+ day +:+ String "." (sp1 +:+ month +:+ sp2 +:+ year +:+ rest).

Definition date_shaped (ws day sp1 month sp2 year : string) : bool :=
  all is_white_space ws && digits day && spaces sp1 && all is_word month
  && spaces sp2 && Nat.eqb (String.length year) 4 && all is_digit year.

(** A time of day, with white space before it and anything behind it: one or
    two digits, a colon, two digits. *)
Definition time_text (ws hh mm rest : string) : string :=
  ws +:+ hh +:+ String ":" (mm +:+ rest).

Definition time_shaped (ws hh mm : string) : bool :=
  all is_white_space ws
  && (Nat.eqb (String.length hh) 1 || Nat.eqb (String.length hh) 2) && all is_digit hh
  && Nat.eqb (String.length mm) 2 && all is_digit mm.

(** The month argument of the [Date] constructor for a looked-up month. *)
Definition month_number (month : property) : number :=
  match month with Own v => of_Z v | _ => NaN end.
End RegexVocabulary.

Section FaultVocabulary.
Import WaterLevelStorage.

(** The error of a [setItem] call that finds the storage full. *)
Definition quota_exceeded : js_error :=
  JsError "QuotaExceededError" "The quota has been exceeded.".

(** The error of a [setItem] or [removeItem] call in a context without
    storage access. *)
Definition access_denied : js_error :=
  JsError "SecurityError" "The operation is insecure.".

(** The next write fails: the storage rejects it with an error other than
    the quota error, or with the quota error and then rejects the second try
    as well. *)
Definition write_fails (fs : list (option js_error)) : bool :=
  match fs with
  | Some e :: fs' =>
      negb (String.eqb (name e) "QuotaExceededError")
      || match fs' with
         | Some _ :: _ => true
         | _ => false
         end
  | _ => false
  end.
(** A world whose storage rejects the next change: the full store, and the
    next [setItem] or [removeItem] call throws. *)
Definition locked_world : world :=
  {| slot := slot full_world; faults := [Some access_denied];
     clock_now := an_instant; ticks := [] |}.
End FaultVocabulary.

Section TimerVocabulary.
Import RheinPegelApp.

(** The two calls that touch the refresh timer. *)
Inductive refresh_op :=
| Start
| Stop.

Definition refresh_step (fresh : intervals -> positive)
    (x : app_state * intervals) (op : refresh_op) : app_state * intervals :=
  match op with
  | Start => startAutoRefresh fresh (fst x) (snd x)
  | Stop => stopAutoRefresh (fst x) (snd x)
  end.

Definition refresh_run (fresh : intervals -> positive) (ops : list refresh_op)
    (x : app_state * intervals) : app_state * intervals :=
  fold_left (refresh_step fresh) ops x.

(** The id that [setInterval] hands out is not in use. *)
Definition hands_out_free (fresh : intervals -> positive) : Prop :=
  forall timers : intervals, timers !! fresh timers = None.

(** A browser that hands out some id that is not in use. *)
Definition next_id (timers : intervals) : positive := fresh (dom timers).
End TimerVocabulary.

(** * Properties *)

(** ** Classifier *)
Section Classifier.
Import RheinPegelApp.

Lemma getAlertLevel_normal (L : Z) :
  getAlertLevel L = ALERT_LEVELS.NORMAL <-> L < 400.
Proof.
  unfold getAlertLevel; cbn.
  destruct (Z.ltb_spec L 400), (Z.ltb_spec L 800); split;
    intros; try lia; try reflexivity; discriminate.
Qed.

Lemma getAlertLevel_warning (L : Z) :
  getAlertLevel L = ALERT_LEVELS.WARNING <-> 400 <= L < 800.
Proof.
  unfold getAlertLevel; cbn.
  destruct (Z.ltb_spec L 400), (Z.ltb_spec L 800); split;
    intros; try lia; try reflexivity; discriminate.
Qed.

Lemma getAlertLevel_danger (L : Z) :
  getAlertLevel L = ALERT_LEVELS.DANGER <-> 800 <= L.
Proof.
  unfold getAlertLevel; cbn.
  destruct (Z.ltb_spec L 400), (Z.ltb_spec L 800); split;
    intros; try lia; try reflexivity; discriminate.
Qed.

(** C1. The classifier is a total function of the level: it answers NORMAL
    exactly below 400, WARNING exactly from 400 up to but not including 800,
    DANGER exactly from 800 on; so 399 is NORMAL, 400 is WARNING and 800 is
    DANGER. *)
Theorem getAlertLevel_tiers :
  (forall L : Z,
      (getAlertLevel L = ALERT_LEVELS.NORMAL <-> L < 400)
      /\ (getAlertLevel L = ALERT_LEVELS.WARNING <-> 400 <= L < 800)
      /\ (getAlertLevel L = ALERT_LEVELS.DANGER <-> 800 <= L))
  /\ getAlertLevel 399 = ALERT_LEVELS.NORMAL
  /\ getAlertLevel 400 = ALERT_LEVELS.WARNING
  /\ getAlertLevel 800 = ALERT_LEVELS.DANGER.
Proof.
  split; [| repeat split].
  intros L.
  split; [apply getAlertLevel_normal |].
  split; [apply getAlertLevel_warning | apply getAlertLevel_danger].
Qed.
End Classifier.

(** ** History store: loading *)
Section StoreLoading.
Import WaterLevelStorage.

(** C9. Whatever the slot holds, if its version is not the current schema
    version (a different string, another JSON value, or no version at all),
    loading returns the freshly created empty storage (no readings,
    [lastUpdated] null) and raises nothing; the public readers, which load
    first, then answer with no reading. *)
Theorem getStorageData_version_mismatch (w : world) (text : item) :
  slot w = Some text ->
  blob_version text <> Some (VStr this_version) ->
  getStorageData w = (Return createEmptyStorage, w)
  /\ readings createEmptyStorage = Some []
  /\ lastUpdated createEmptyStorage = None
  /\ fst (getLatestReading w) = Return None
  /\ (forall hours, fst (getHistoricalData hours w) = Return []).
Proof.
  intros Hslot Hver.
  assert (Hload : getStorageData w = (Return createEmptyStorage, w)).
  { unfold getStorageData, try_catch, mbind, M_bind, bind, localStorage_getItem.
    rewrite Hslot.
    destruct text as [| | [| o |]]; cbn; try reflexivity.
    destruct o as [v rs lu]; cbn in *.
    destruct v as [[| b | n | s] |]; cbn; try reflexivity.
    destruct (String.eqb_spec s this_version) as [-> | Hne]; cbn; [| reflexivity].
    exfalso; apply Hver; reflexivity. }
  split; [exact Hload |].
  split; [reflexivity |].
  split; [reflexivity |].
  split.
  - unfold getLatestReading, try_catch, mbind, M_bind, bind.
    rewrite Hload. reflexivity.
  - intros hours.
    unfold getHistoricalData, try_catch, mbind, M_bind, bind.
    rewrite Hload. reflexivity.
Qed.

Lemma getStorageData_version_mismatch_witness :
  slot (quiet_world (Some old_version_blob) 10) = Some old_version_blob
  /\ blob_version old_version_blob <> Some (VStr this_version)
  /\ getStorageData (quiet_world (Some old_version_blob) 10)
     = (Return createEmptyStorage, quiet_world (Some old_version_blob) 10).
Proof.
  assert (H1 : slot (quiet_world (Some old_version_blob) 10) = Some old_version_blob)
    by reflexivity.
  assert (H2 : blob_version old_version_blob <> Some (VStr this_version))
    by (vm_compute; discriminate).
  split; [exact H1 |]. split; [exact H2 |].
  exact (proj1 (getStorageData_version_mismatch _ _ H1 H2)).
Defined.
End StoreLoading.

(** ** Fetch client: the proxy latch *)
Section FetchClient.
Import JsString Number RheinPegelAPI.

Lemma starts_with_spec (pat s : string) :
  starts_with pat s = true <-> exists b, s = pat +:+ b.
Proof.
  revert s. induction pat as [| c pat IH]; intros s; cbn [starts_with].
  - split; [intros _; exists s; reflexivity | reflexivity].
  - destruct s as [| c' s].
    + split; [discriminate | intros [b Hb]; discriminate Hb].
    + rewrite andb_true_iff, IH. split.
      * intros [Hc [b ->]]. apply Ascii.eqb_eq in Hc as ->. exists b. reflexivity.
      * intros [b Hb]. injection Hb as -> ->.
        split; [apply Ascii.eqb_refl | exists b; reflexivity].
Qed.

(** [includes] decides [contains]. *)
Lemma includes_spec (pat s : string) :
  includes pat s = true <-> contains pat s.
Proof.
  unfold contains. induction s as [| c s IH]; cbn [includes].
  - rewrite orb_false_r, starts_with_spec. split.
    + intros [b Hb]. exists EmptyString, b. exact Hb.
    + intros (a & b & Hab). destruct a as [| c a]; [exists b; exact Hab |].
      discriminate Hab.
  - rewrite orb_true_iff, starts_with_spec, IH. split.
    + intros [[b Hb] | (a & b & Hab)].
      * exists EmptyString, b. exact Hb.
      * exists (String c a), b. rewrite Hab. reflexivity.
    + intros (a & b & Hab). destruct a as [| c' a].
      * left. exists b. exact Hab.
      * right. injection Hab as -> ->. exists a, b. reflexivity.
Qed.

Lemma isCorsError_spec (e : js_error) : isCorsError e = true <-> cors_shaped e.
Proof.
  unfold isCorsError, cors_shaped.
  rewrite !orb_true_iff, andb_true_iff, !includes_spec, String.eqb_eq.
  tauto.
Qed.

(** Once the flag is set, the loop keeps it and requests only the proxied
    URL. *)
Lemma attempts_latched env net (remaining : nat) :
  forall attempt this lastError log,
    useCorsProxy this = true ->
    let '(_, this', log') := attempts env net remaining attempt this lastError log in
    useCorsProxy this' = true
    /\ exists events,
        log' = log ++ events
        /\ forall a u, In (Request a u) events -> u = proxied_url this.
Proof.
  induction remaining as [| n IH]; intros attempt this lastError log Hflag;
    cbn [attempts].
  - destruct lastError; (split; [exact Hflag |]); exists [];
      (split; [symmetry; apply app_nil_r | intros a u []]).
  - rewrite Hflag. cbn [negb andb].
    destruct (attempt_try env net attempt (corsProxyUrl this +:+ apiUrl this))
      as [data | error].
    + split; [exact Hflag |].
      exists [Request attempt (corsProxyUrl this +:+ apiUrl this)].
      split; [reflexivity |].
      intros a u [Heq | []]. injection Heq as _ <-. reflexivity.
    + rewrite andb_false_r. cbn [andb].
      match goal with
      | |- context [attempts env net n ?a ?t ?le ?lg] =>
          specialize (IH a t le lg Hflag);
          destruct (attempts env net n a t le lg) as [[res this'] log']
      end.
      destruct IH as (H1 & events & H2 & H3).
      split; [exact H1 |].
      destruct (attempt <? maxRetries this)%nat.
      * exists ([Request attempt (corsProxyUrl this +:+ apiUrl this);
                 Delay (retryDelay this * Z.of_nat attempt)] ++ events).
        split; [rewrite H2, <- !app_assoc; reflexivity |].
        intros a u [Heq | [Heq | Hin]]; [| discriminate | exact (H3 a u Hin)].
        injection Heq as _ <-. reflexivity.
      * exists ([Request attempt (corsProxyUrl this +:+ apiUrl this)] ++ events).
        split; [rewrite H2, <- !app_assoc; reflexivity |].
        intros a u [Heq | Hin]; [| exact (H3 a u Hin)].
        injection Heq as _ <-. reflexivity.
Qed.

(** The loop never touches the two URLs. *)
Lemma attempts_same_urls env net (remaining : nat) :
  forall attempt this lastError log,
    proxied_url (snd (fst (attempts env net remaining attempt this lastError log)))
    = proxied_url this.
Proof.
  induction remaining as [| n IH]; intros attempt this lastError log; cbn [attempts].
  - destruct lastError; reflexivity.
  - match goal with
    | |- context [attempt_try env net attempt ?u] =>
        destruct (attempt_try env net attempt u) as [data | error]
    end; [reflexivity |].
    rewrite IH.
    destruct (isCorsError error && negb (useCorsProxy this) && Nat.eqb attempt 1);
      reflexivity.
Qed.

Lemma fetchCurrentLevel_keeps_flag env net (this : client) :
  useCorsProxy this = true ->
  useCorsProxy (snd (fst (fetchCurrentLevel env net this))) = true.
Proof.
  intros Hflag. unfold fetchCurrentLevel.
  pose proof (attempts_latched env net (maxRetries this) 1 this None [] Hflag) as H.
  destruct (attempts env net (maxRetries this) 1 this None []) as [[res this'] log'].
  cbn. apply H.
Qed.

(** The first iteration of the loop when the direct request is rejected as
    cross-origin. *)
Lemma fetchCurrentLevel_first_cors env net (this : client) (e1 : js_error) :
  useCorsProxy this = false ->
  (0 < maxRetries this)%nat ->
  attempt_try env net 1 (apiUrl this) = Throw e1 ->
  isCorsError e1 = true ->
  exists n log1,
    maxRetries this = S n
    /\ fetchCurrentLevel env net this
       = attempts env net n 2 (set_useCorsProxy true this) (Some e1) log1
    /\ hd_error log1 = Some (Request 1 (apiUrl this))
    /\ (forall a u, ~ In (Request a u) (skipn 1 log1)).
Proof.
  intros Hflag Hmax Htry Hcors. unfold fetchCurrentLevel.
  destruct (maxRetries this) as [| n] eqn:Hn; [lia |].
  cbn [attempts]. rewrite Hflag, Htry, Hcors. cbn [negb andb Nat.eqb app].
  exists n.
  destruct (1 <? maxRetries (set_useCorsProxy true this))%nat.
  - eexists. split; [reflexivity |]. split; [reflexivity |]. split; [reflexivity |].
    intros a u Hin. cbn in Hin. destruct Hin as [Heq | []]. discriminate.
  - eexists. split; [reflexivity |]. split; [reflexivity |]. split; [reflexivity |].
    intros a u Hin. cbn in Hin. exact Hin.
Qed.

Lemma client_step_keeps_flag (this : client) (op : client_op) :
  useCorsProxy this = true -> useCorsProxy (client_step this op) = true.
Proof.
  intros Hflag. destruct op as [env net | env net | u]; cbn.
  - apply fetchCurrentLevel_keeps_flag, Hflag.
  - unfold testConnection.
    pose proof (fetchCurrentLevel_keeps_flag env net this Hflag) as H.
    destruct (fetchCurrentLevel env net this) as [[[data | e] this'] log]; exact H.
  - unfold enableCorsProxy. destruct u as [u |]; [destruct (is_empty u) |]; reflexivity.
Qed.

Lemma client_run_keeps_flag (ops : list client_op) :
  forall this, useCorsProxy this = true -> useCorsProxy (client_run ops this) = true.
Proof.
  induction ops as [| op ops IH]; intros this Hflag; cbn; [exact Hflag |].
  apply IH, client_step_keeps_flag, Hflag.
Qed.

(** C8. When the first attempt of [fetchCurrentLevel] fails with an error
    shaped like a cross-origin rejection (message containing "CORS" or
    "Network request failed", or a TypeError with "Failed to fetch" in its
    message) while the proxy is not engaged, the client engages
    the proxy: every later attempt of the call requests the proxied URL, and
    so does every attempt of a later call; the flag is set when the call ends
    and stays set through any further fetches, connection tests and proxy
    activations ([disableCorsProxy] alone clears it); and if the second
    attempt fails too while the third, through the proxy, answers a body the
    parser accepts, the call returns that reading. *)
Theorem fetchCurrentLevel_cors_fallback env net (this : client) (e1 : js_error) :
  useCorsProxy this = false ->
  (0 < maxRetries this)%nat ->
  attempt_try env net 1 (apiUrl this) = Throw e1 ->
  cors_shaped e1 ->
  let '(result, this', log) := fetchCurrentLevel env net this in
  useCorsProxy this' = true
  /\ (exists later,
         log = Request 1 (apiUrl this) :: later
         /\ forall a u, In (Request a u) later -> u = proxied_url this)
  /\ (forall ops, useCorsProxy (client_run ops this') = true)
  /\ (forall env' net' a u,
         In (Request a u) (snd (fetchCurrentLevel env' net' this')) ->
         u = proxied_url this)
  /\ useCorsProxy (disableCorsProxy this') = false
  /\ (maxRetries this = 3%nat ->
      forall e2 resp data,
        fetch net 2 (proxied_url this) = Throw e2 ->
        fetch net 3 (proxied_url this) = Return resp ->
        ok resp = true ->
        parseXMLResponse env (clock net 3) (text resp) = Return data ->
        result = Return data).
Proof.
  intros Hflag Hmax Htry Hcors. apply isCorsError_spec in Hcors.
  destruct (fetchCurrentLevel_first_cors env net this e1 Hflag Hmax Htry Hcors)
    as (n & log1 & Hn & Hfetch & Hhd & Hrest).
  assert (Hscenario :
    maxRetries this = 3%nat ->
    forall e2 resp data,
      fetch net 2 (proxied_url this) = Throw e2 ->
      fetch net 3 (proxied_url this) = Return resp ->
      ok resp = true ->
      parseXMLResponse env (clock net 3) (text resp) = Return data ->
      fst (fst (fetchCurrentLevel env net this)) = Return data).
  { intros H3 e2 resp data Hf2 Hf3 Hok Hparse.
    rewrite Hfetch. rewrite H3 in Hn. injection Hn as <-.
    unfold proxied_url in Hf2, Hf3.
    cbn [attempts useCorsProxy set_useCorsProxy corsProxyUrl apiUrl].
    unfold attempt_try at 1. rewrite Hf2. cbn [bind_c negb andb].
    rewrite andb_false_r.
    cbn [attempts useCorsProxy set_useCorsProxy corsProxyUrl apiUrl].
    unfold attempt_try at 1. rewrite Hf3. cbn [bind_c]. rewrite Hok. cbn [negb].
    rewrite Hparse. reflexivity. }
  rewrite Hfetch in *.
  pose proof (attempts_latched env net n 2 (set_useCorsProxy true this)
                (Some e1) log1 eq_refl) as Hlatch.
  pose proof (attempts_same_urls env net n 2 (set_useCorsProxy true this)
                (Some e1) log1) as Hurls.
  destruct (attempts env net n 2 (set_useCorsProxy true this) (Some e1) log1)
    as [[result this'] log].
  cbn [fst snd] in Hurls.
  destruct Hlatch as (Hflag' & events & Hlog & Hevents).
  split; [exact Hflag' |].
  split.
  { destruct log1 as [| ev rest]; [discriminate |].
    injection Hhd as ->. exists (rest ++ events).
    split; [rewrite Hlog; reflexivity |].
    intros a u Hin. apply in_app_or in Hin as [Hin | Hin].
    - exfalso. exact (Hrest a u Hin).
    - exact (Hevents a u Hin). }
  split; [intros ops; apply client_run_keeps_flag, Hflag' |].
  split.
  { intros env' net' a u Hin. unfold fetchCurrentLevel in Hin.
    pose proof (attempts_latched env' net' (maxRetries this') 1 this' None [] Hflag')
      as Hlater.
    destruct (attempts env' net' (maxRetries this') 1 this' None [])
      as [[result' this''] log'].
    destruct Hlater as (_ & events' & -> & Hevents').
    cbn [snd app] in Hin. rewrite (Hevents' a u Hin). exact Hurls. }
  split; [reflexivity |].
  exact Hscenario.
Qed.

Lemma fetchCurrentLevel_cors_fallback_witness :
  useCorsProxy sample_client = false
  /\ attempt_try sample_env flaky_network 1 (apiUrl sample_client) = Throw failed_to_fetch
  /\ cors_shaped failed_to_fetch
  /\ useCorsProxy (snd (fst (fetchCurrentLevel sample_env flaky_network sample_client)))
     = true
  /\ fst (fst (fetchCurrentLevel sample_env flaky_network sample_client))
     = Return {| waterLevel := of_Z 368; date := "27. Oktober 2025"; time := "15:25";
                 timestamp := of_Z 1761575100000; graphic := Some "pegel.png" |}.
Proof.
  assert (H1 : useCorsProxy sample_client = false) by reflexivity.
  assert (H2 : (0 < maxRetries sample_client)%nat) by (cbn; lia).
  assert (H3 : attempt_try sample_env flaky_network 1 (apiUrl sample_client)
               = Throw failed_to_fetch) by reflexivity.
  assert (H4 : cors_shaped failed_to_fetch).
  { right. right. split; [reflexivity |]. exists EmptyString, EmptyString. reflexivity. }
  pose proof (fetchCurrentLevel_cors_fallback sample_env flaky_network sample_client
                failed_to_fetch H1 H2 H3 H4) as H.
  destruct (fetchCurrentLevel sample_env flaky_network sample_client)
    as [[result this'] log].
  destruct H as (Hflag & _ & _ & _ & _ & Hscenario).
  split; [exact H1 |]. split; [exact H3 |]. split; [exact H4 |].
  split; [exact Hflag |].
  cbn [fst snd].
  apply (Hscenario eq_refl failed_to_fetch
           {| ok := true; status := 200; text := "<Hochwasserpegel/>" |}).
  - reflexivity.
  - reflexivity.
  - reflexivity.
  - vm_compute. reflexivity.
Defined.
End FetchClient.

(** ** Numbers *)
Section NumberFacts.
Import JsString Number.

Lemma shr_1_nonneg (mrs : shr_record) : 0 <= shr_m mrs -> 0 <= shr_m (shr_1 mrs).
Proof.
  destruct mrs as [m r s0]. cbn.
  destruct m as [| [p | p |] | [p | p |]]; cbn; lia.
Qed.

Lemma iter_pos_preserves {A} (P : A -> Prop) (f : A -> A) :
  (forall x, P x -> P (f x)) ->
  forall (n : positive) (x : A), P x -> P (SpecFloat.iter_pos f n x).
Proof.
  intros Hf. induction n as [n IH | n IH |]; intros x Hx; cbn.
  - apply IH, IH, Hf, Hx.
  - apply IH, IH, Hx.
  - apply Hf, Hx.
Qed.

Lemma shr_nonneg (mrs : shr_record) (e n : Z) :
  0 <= shr_m mrs -> 0 <= shr_m (fst (shr mrs e n)).
Proof.
  intros H. destruct n as [| p | p]; cbn; try exact H.
  apply (iter_pos_preserves (fun x => 0 <= shr_m x)); [apply shr_1_nonneg | exact H].
Qed.

Lemma shr_record_of_loc_m (m : Z) (l : location) : shr_m (shr_record_of_loc m l) = m.
Proof. destruct l as [| []]; reflexivity. Qed.

Lemma shr_fexp_nonneg (m e : Z) (l : location) :
  0 <= m -> 0 <= shr_m (fst (shr_fexp prec emax m e l)).
Proof.
  intros H. unfold shr_fexp. apply shr_nonneg. rewrite shr_record_of_loc_m. exact H.
Qed.

Lemma round_nearest_even_nonneg (m : Z) (l : location) :
  0 <= m -> 0 <= round_nearest_even m l.
Proof.
  intros H. destruct l as [| []]; cbn; try lia.
  destruct (Z.even m); lia.
Qed.

Lemma binary_round_aux_isNaN (sx : bool) (mx ex : Z) (lx : location) :
  0 <= mx -> isNaN (binary_round_aux prec emax sx mx ex lx) = false.
Proof.
  intros H. unfold binary_round_aux.
  pose proof (shr_fexp_nonneg mx ex lx H) as H1.
  destruct (shr_fexp prec emax mx ex lx) as [mrs' e']. cbn [fst] in H1.
  pose proof (shr_fexp_nonneg
                (round_nearest_even (shr_m mrs') (loc_of_shr_record mrs')) e' loc_Exact
                (round_nearest_even_nonneg _ _ H1)) as H2.
  destruct (shr_fexp prec emax _ e' loc_Exact) as [mrs'' e'']. cbn [fst] in H2.
  destruct (shr_m mrs'') as [| p | p]; [reflexivity | | lia].
  destruct (e'' <=? emax - prec); reflexivity.
Qed.

Lemma of_ratio_isNaN (neg : bool) (p d : positive) : isNaN (of_ratio neg p d) = false.
Proof.
  unfold of_ratio, SFdiv.
  destruct (SFdiv_core_binary prec emax (Z.pos p) 0 (Z.pos d) 0) as [[mz ez] lz] eqn:E.
  apply binary_round_aux_isNaN.
  unfold SFdiv_core_binary in E.
  match type of E with
  | (let '(q0, r0) := Z.div_eucl ?m' _ in _) = _ =>
      assert (Hm : 0 <= m');
      [| pose proof (Z_div_mod m' (Z.pos d) eq_refl) as Hdiv;
         destruct (Z.div_eucl m' (Z.pos d)) as [q0 r0] eqn:Ediv ]
  end.
  - match goal with
    | |- 0 <= match ?s with _ => _ end => destruct s
    end; try lia.
    apply Z.shiftl_nonneg. lia.
  - injection E as <- _ _. nia.
Qed.

Lemma of_decimal_isNaN (neg : bool) (n e10 : Z) : isNaN (of_decimal neg n e10) = false.
Proof.
  unfold of_decimal. destruct n; try reflexivity.
  destruct (0 <=? e10); apply of_ratio_isNaN.
Qed.

Lemma scan_unsigned_starts_number (u : string) :
  scan_unsigned u = None <-> starts_number u = false.
Proof.
  unfold scan_unsigned, starts_number.
  destruct (starts_with "Infinity" u); cbn [orb]; [split; discriminate |].
  destruct u as [| c r]; cbn [span]; [split; reflexivity |].
  destruct (is_digit c) eqn:Hc; cbn [orb].
  - destruct (span is_digit r) as [a b].
    destruct b as [| c2 b']; cbn; [split; discriminate |].
    destruct (Ascii.eqb_spec c2 "."); [subst | ].
    + destruct (span is_digit b'); cbn; split; discriminate.
    + split; [| discriminate].
      destruct c2 as [[] [] [] [] [] [] [] []]; try discriminate; congruence.
  - destruct (Ascii.eqb_spec c "."); [subst |].
    + cbn [andb]. destruct r as [| c2 r']; cbn; [split; reflexivity |].
      destruct (is_digit c2) eqn:Hc2.
      * destruct (span is_digit r'); cbn. split; discriminate.
      * cbn. split; reflexivity.
    + cbn [andb].
      destruct c as [[] [] [] [] [] [] [] []]; try congruence; split; reflexivity.
Qed.

(** [parseFloat] answers [NaN] exactly when the text has no numeric prefix. *)
Lemma parseFloat_isNaN (s : string) :
  isNaN (parseFloat s) = negb (numeric_prefix s).
Proof.
  unfold parseFloat, numeric_prefix.
  destruct (scan_sign (trimStart s)) as [neg u]. cbn [snd].
  pose proof (scan_unsigned_starts_number u) as H.
  destruct (scan_unsigned u) as [[| ip fp e] |].
  - destruct (starts_number u); [reflexivity |].
    destruct H as [_ H]. discriminate (H eq_refl).
  - rewrite of_decimal_isNaN.
    destruct (starts_number u); [reflexivity |].
    destruct H as [_ H]. discriminate (H eq_refl).
  - destruct H as [H _]. rewrite (H eq_refl). reflexivity.
Qed.
End NumberFacts.

(** ** Rounding to binary64 *)
Section Rounding.
Import Number.

Lemma shr_1_represents (a b : Z) (rec : shr_record) :
  represents a b rec -> represents a (2 * b) (shr_1 rec).
Proof.
  unfold represents. destruct rec as [m r s]. cbn [shr_m shr_r shr_s].
  intros (Hb & Hm & H).
  destruct m as [| [p | p |] | p]; [| | | | lia]; cbn [shr_1 shr_m shr_r shr_s];
    (split; [lia |]); (split; [lia |]);
    destruct r, s; cbn [orb]; lia.
Qed.

Lemma iter_shr_1_represents (n : positive) :
  forall (a b : Z) (rec : shr_record),
    represents a b rec ->
    represents a (2 ^ Z.pos n * b) (SpecFloat.iter_pos shr_1 n rec).
Proof.
  induction n as [n IH | n IH |]; intros a b rec H; cbn [SpecFloat.iter_pos].
  - apply shr_1_represents, IH, IH in H.
    replace (2 ^ Z.pos n~1 * b) with (2 ^ Z.pos n * (2 ^ Z.pos n * (2 * b))); [exact H |].
    replace (Z.pos n~1) with (Z.pos n + Z.pos n + 1) by lia.
    rewrite !Z.pow_add_r, Z.pow_1_r by lia. ring.
  - apply IH, IH in H.
    replace (2 ^ Z.pos n~0 * b) with (2 ^ Z.pos n * (2 ^ Z.pos n * b)); [exact H |].
    replace (Z.pos n~0) with (Z.pos n + Z.pos n) by lia.
    rewrite !Z.pow_add_r by lia. ring.
  - apply shr_1_represents in H. exact H.
Qed.

Lemma round_nearest_even_error (a b : Z) (rec : shr_record) :
  represents a b rec ->
  shr_m rec <= round_nearest_even (shr_m rec) (loc_of_shr_record rec) <= shr_m rec + 1
  /\ 2 * Z.abs (round_nearest_even (shr_m rec) (loc_of_shr_record rec) * b - a) <= b.
Proof.
  unfold represents. destruct rec as [m r s]. cbn [shr_m shr_r shr_s].
  intros (Hb & Hm & H).
  destruct r, s; cbn [loc_of_shr_record round_nearest_even];
    try destruct (Z.even m); split; lia.
Qed.

Lemma digits2_pos_bounds (p : positive) :
  2 ^ (Z.pos (digits2_pos p) - 1) <= Z.pos p < 2 ^ Z.pos (digits2_pos p).
Proof.
  induction p as [p IH | p IH |]; cbn [digits2_pos]; rewrite ?Pos2Z.inj_succ.
  - replace (Z.succ (Z.pos (digits2_pos p)) - 1) with (Z.succ (Z.pos (digits2_pos p) - 1)) by lia.
    rewrite !Z.pow_succ_r by lia. lia.
  - replace (Z.succ (Z.pos (digits2_pos p)) - 1) with (Z.succ (Z.pos (digits2_pos p) - 1)) by lia.
    rewrite !Z.pow_succ_r by lia. lia.
  - cbn. lia.
Qed.

Lemma Zdigits2_unique (m k : Z) :
  0 < m -> 2 ^ (k - 1) <= m < 2 ^ k -> Zdigits2 m = k.
Proof.
  intros Hm [Hlo Hhi]. destruct m as [| p | p]; try lia. cbn [Zdigits2].
  pose proof (digits2_pos_bounds p) as [Hlo' Hhi'].
  set (d := Z.pos (digits2_pos p)) in *.
  assert (Hk : 0 < k).
  { destruct (Z.ltb_spec 0 k) as [H | H]; [exact H |].
    destruct (Z.eq_dec k 0) as [-> | Hne]; [cbn in Hhi; lia |].
    rewrite Z.pow_neg_r in Hhi by lia. lia. }
  destruct (Z.lt_trichotomy d k) as [H | [H | H]]; [| exact H |].
  - assert (2 ^ d <= 2 ^ (k - 1)) by (apply Z.pow_le_mono_r; lia). lia.
  - assert (2 ^ k <= 2 ^ (d - 1)) by (apply Z.pow_le_mono_r; lia). lia.
Qed.

Lemma represents_bounds (a b : Z) (rec : shr_record) :
  represents a b rec -> shr_m rec * b <= a < (shr_m rec + 1) * b.
Proof.
  unfold represents. destruct rec as [m r s]. cbn [shr_m shr_r shr_s].
  intros (Hb & Hm & H). destruct r, s; lia.
Qed.

Lemma fexp_normal (e : Z) : -1074 <= e - 53 -> fexp prec emax e = e - 53.
Proof. unfold fexp, emin, prec, emax. lia. Qed.

Lemma shr_represents (a b : Z) (rec : shr_record) (e n : Z) :
  0 <= n ->
  represents a b rec ->
  represents a (2 ^ n * b) (fst (shr rec e n)) /\ snd (shr rec e n) = e + n.
Proof.
  intros Hn H. destruct n as [| p | p]; [| | lia]; cbn [shr fst snd].
  - rewrite Z.pow_0_r, Z.mul_1_l, Z.add_0_r. split; [exact H | reflexivity].
  - split; [apply iter_shr_1_represents, H | reflexivity].
Qed.

(** Rounding a value located at [mx] with at least 53 digits, away from
    underflow and overflow: the result is a normal number within half a unit
    in the last place. *)
Lemma binary_round_aux_correct (mx ex : Z) (lx : location) (a b : Z) :
  0 < mx ->
  represents a b (shr_record_of_loc mx lx) ->
  53 <= Zdigits2 mx ->
  -1074 <= Zdigits2 mx + ex - 53 < 971 ->
  exists (m : positive) (c : Z),
    binary_round_aux prec emax false mx ex lx
    = S754_finite false m (ex + (Zdigits2 mx - 53) + c)
    /\ (c = 0 \/ c = 1)
    /\ 2 ^ 52 <= Z.pos m < 2 ^ 53
    /\ 2 * Z.abs (Z.pos m * 2 ^ c * (2 ^ (Zdigits2 mx - 53) * b) - a)
       <= 2 ^ (Zdigits2 mx - 53) * b.
Proof.
  intros Hmx Hrep Hd Hrange.
  assert (Hdigits : 2 ^ (Zdigits2 mx - 1) <= mx < 2 ^ Zdigits2 mx).
  { destruct mx as [| p | p]; try lia. apply digits2_pos_bounds. }
  set (d := Zdigits2 mx) in *. set (n := d - 53).
  assert (Hn : 0 <= n) by (unfold n; lia).
  assert (Hpow : 2 ^ (d - 1) = 2 ^ 52 * 2 ^ n /\ 2 ^ d = 2 ^ 53 * 2 ^ n).
  { split.
    - replace (d - 1) with (52 + n) by (unfold n; lia). apply Z.pow_add_r; lia.
    - replace d with (53 + n) at 1 by (unfold n; lia). apply Z.pow_add_r; lia. }
  destruct Hpow as [Hpow1 Hpow2]. rewrite Hpow1, Hpow2 in Hdigits.
  assert (HW : 0 < 2 ^ n) by (apply Z.pow_pos_nonneg; lia).
  unfold binary_round_aux, shr_fexp. fold d.
  rewrite (fexp_normal (d + ex)) by lia.
  replace (d + ex - 53 - ex) with n by (unfold n; lia).
  destruct (shr_represents a b (shr_record_of_loc mx lx) ex n Hn Hrep) as [H1 He'].
  destruct (shr (shr_record_of_loc mx lx) ex n) as [mrs' e'].
  cbn [fst snd] in H1, He'. subst e'.
  pose proof (represents_bounds _ _ _ Hrep) as Hb0.
  rewrite shr_record_of_loc_m in Hb0.
  pose proof (represents_bounds _ _ _ H1) as Hb1.
  destruct (round_nearest_even_error _ _ _ H1) as [Hm1 Herr].
  assert (Hb : 0 < b) by (destruct Hrep as [Hb _]; exact Hb).
  set (m' := shr_m mrs') in *.
  set (W := 2 ^ n) in *.
  assert (Hm' : 2 ^ 52 <= m' < 2 ^ 53) by nia.
  set (m1 := round_nearest_even m' (loc_of_shr_record mrs')) in *.
  destruct (Z.eq_dec m1 (2 ^ 53)) as [Hcarry | Hnocarry].
  - assert (Hdig : Zdigits2 m1 = 54).
    { rewrite Hcarry. reflexivity. }
    rewrite Hdig, (fexp_normal (54 + (ex + n))) by lia.
    replace (54 + (ex + n) - 53 - (ex + n)) with 1 by lia.
    rewrite Hcarry. cbn [shr_record_of_loc shr SpecFloat.iter_pos shr_1 shr_m fst snd Z.pow Z.pow_pos Pos.iter Z.mul Pos.mul].
    exists 4503599627370496%positive, 1.
    assert (Hle : (ex + n + 1 <=? emax - prec) = true).
    { apply Z.leb_le. unfold emax, prec. unfold n. lia. }
    rewrite Hle. split; [unfold n; reflexivity |].
    split; [right; reflexivity |]. split; [cbn; lia |].
    change (Z.pos 4503599627370496 * 2 ^ 1) with (2 ^ 53). rewrite <- Hcarry.
    fold n. exact Herr.
  - assert (Hdig : Zdigits2 m1 = 53).
    { apply Zdigits2_unique; lia. }
    rewrite Hdig, (fexp_normal (53 + (ex + n))) by lia.
    replace (53 + (ex + n) - 53 - (ex + n)) with 0 by lia.
    cbn [shr_record_of_loc shr shr_m fst snd].
    destruct m1 as [| m |] eqn:Em1; try lia.
    exists m, 0.
    assert (Hle : (ex + n <=? emax - prec) = true).
    { apply Z.leb_le. unfold emax, prec. unfold n. lia. }
    rewrite Hle. split; [unfold n; rewrite Z.add_0_r; reflexivity |].
    split; [left; reflexivity |]. split; [lia |].
    rewrite Z.pow_0_r, Z.mul_1_r. fold n. exact Herr.
Qed.

(** The quotient of a level in hundredths by 100. *)
Lemma of_ratio_100 (N : positive) :
  Z.pos N < 2 ^ 40 ->
  exists (m : positive) (c nq s : Z),
    of_ratio false N 100 = S754_finite false m (- s + nq + c)
    /\ (c = 0 \/ c = 1) /\ (nq = 0 \/ nq = 1) /\ 20 <= s <= 59
    /\ 2 ^ 52 <= Z.pos m < 2 ^ 53
    /\ 2 * Z.abs (Z.pos m * 2 ^ c * (2 ^ nq * 100) - Z.pos N * 2 ^ s) <= 2 ^ nq * 100.
Proof.
  intros HN.
  pose proof (digits2_pos_bounds N) as Hd1.
  set (d1 := Z.pos (digits2_pos N)) in *.
  assert (Hd1' : 1 <= d1 <= 40).
  { split; [unfold d1; lia |].
    destruct (Z.le_gt_cases d1 40) as [H | H]; [exact H |].
    assert (2 ^ 40 <= 2 ^ (d1 - 1)) by (apply Z.pow_le_mono_r; lia). lia. }
  set (s := 60 - d1).
  assert (Hs : 20 <= s <= 59) by (unfold s; lia).
  assert (Hscale : 2 ^ 59 <= Z.pos N * 2 ^ s < 2 ^ 60).
  { assert (H1 : 2 ^ 59 = 2 ^ (d1 - 1) * 2 ^ s).
    { rewrite <- Z.pow_add_r by lia. f_equal. unfold s. lia. }
    assert (H2 : 2 ^ 60 = 2 ^ d1 * 2 ^ s).
    { rewrite <- Z.pow_add_r by lia. f_equal. unfold s. lia. }
    assert (0 < 2 ^ s) by (apply Z.pow_pos_nonneg; lia).
    rewrite H1, H2. nia. }
  unfold of_ratio, SFdiv, SFdiv_core_binary.
  change (Zdigits2 (Z.pos N)) with d1. change (Zdigits2 100) with 7.
  replace (d1 + 0 - (7 + 0)) with (d1 - 7) by lia.
  rewrite (fexp_normal (d1 - 7)) by lia.
  replace (Z.min (d1 - 7 - 53) (0 - 0)) with (- s) by (unfold s; lia).
  replace (0 - 0 - - s) with s by lia.
  destruct s as [| ps | ps] eqn:Es; try lia. rewrite <- Es in *.
  rewrite Z.shiftl_mul_pow2 by lia.
  pose proof (Z_div_mod (Z.pos N * 2 ^ s) 100 eq_refl) as Hdiv.
  destruct (Z.div_eucl (Z.pos N * 2 ^ s) 100) as [q r].
  destruct Hdiv as [Hqr Hr].
  assert (Hq : 2 ^ 52 <= q < 2 ^ 54) by lia.
  assert (Hrep : represents (Z.pos N * 2 ^ s) 100
                   (shr_record_of_loc q (new_location 100 r))).
  { unfold new_location. change (Z.even 100) with true. cbn iota.
    unfold new_location_even, represents.
    destruct (Z.eqb_spec r 0) as [-> | Hr0].
    - cbn [shr_record_of_loc shr_m shr_r shr_s]. lia.
    - destruct (Z.compare_spec (2 * r) 100);
        cbn [shr_record_of_loc shr_m shr_r shr_s]; lia. }
  assert (Hdq : Zdigits2 q = 53 \/ Zdigits2 q = 54).
  { destruct (Z.lt_ge_cases q (2 ^ 53)) as [H | H].
    - left. apply Zdigits2_unique; lia.
    - right. apply Zdigits2_unique; lia. }
  destruct (binary_round_aux_correct q (- s) (new_location 100 r)
              (Z.pos N * 2 ^ s) 100) as (m & c & Heq & Hc & Hm & Herr);
    [lia | exact Hrep | lia | lia |].
  cbn [xorb]. rewrite Heq.
  exists m, c, (Zdigits2 q - 53), s.
  split; [reflexivity |]. split; [exact Hc |]. split; [lia |].
  split; [exact Hs |]. split; [exact Hm | exact Herr].
Qed.

(** The product of a normal number by 100. *)
Lemma mul_100 (m : positive) (e : Z) :
  2 ^ 52 <= Z.pos m < 2 ^ 53 ->
  -1000 <= e <= 800 ->
  exists (my : positive) (cy nP : Z),
    mul (S754_finite false m e) (of_Z 100)
    = S754_finite false my (e - 46 + nP + cy)
    /\ (cy = 0 \/ cy = 1) /\ (nP = 52 \/ nP = 53)
    /\ 2 ^ 52 <= Z.pos my < 2 ^ 53
    /\ 2 * Z.abs (Z.pos my * 2 ^ cy * 2 ^ nP - Z.pos m * 7036874417766400) <= 2 ^ nP.
Proof.
  intros Hm He.
  assert (H100 : of_Z 100 = S754_finite false 7036874417766400 (-46))
    by (vm_compute; reflexivity).
  rewrite H100. unfold mul, SFmul. cbn [xorb].
  set (P := Z.pos (m * 7036874417766400)).
  assert (HP : P = Z.pos m * 7036874417766400) by (unfold P; lia).
  assert (HPrange : 2 ^ 104 <= P < 2 ^ 106) by lia.
  assert (Hrep : represents P 1 (shr_record_of_loc P loc_Exact)).
  { unfold represents. cbn [shr_record_of_loc shr_m shr_r shr_s]. lia. }
  assert (HdP : Zdigits2 P = 105 \/ Zdigits2 P = 106).
  { destruct (Z.lt_ge_cases P (2 ^ 105)) as [H | H].
    - left. apply Zdigits2_unique; lia.
    - right. apply Zdigits2_unique; lia. }
  destruct (binary_round_aux_correct P (e + -46) loc_Exact P 1)
    as (my & cy & Heq & Hcy & Hmy & Herr); [lia | exact Hrep | lia | lia |].
  rewrite Heq.
  exists my, cy, (Zdigits2 P - 53).
  split; [f_equal; lia |]. split; [exact Hcy |]. split; [lia |].
  split; [exact Hmy |].
  rewrite Z.mul_1_r in Herr. rewrite <- HP. exact Herr.
Qed.

(** Half-up rounding of a number that lies within one half of an integer. *)
Lemma Math_round_near (my : positive) (ey N : Z) :
  ey < 0 -> 0 < N ->
  N * 2 ^ (- ey + 1) <= 2 * Z.pos my + 2 ^ (- ey) < (N + 1) * 2 ^ (- ey + 1) ->
  Math_round (S754_finite false my ey) = of_Z N.
Proof.
  intros Hey HN Hnear. unfold Math_round.
  destruct (Z.leb_spec 0 ey) as [H | _]; [lia |].
  assert (Hdiv : (2 * Z.pos my + 2 ^ (- ey)) / 2 ^ (- ey + 1) = N).
  { symmetry. apply (Z.div_unique _ _ N (2 * Z.pos my + 2 ^ (- ey) - N * 2 ^ (- ey + 1))).
    - left. lia.
    - lia. }
  rewrite Hdiv.
  destruct (Z.eqb_spec N 0) as [H0 | _]; [lia | reflexivity].
Qed.

(** The conversion of a level of [N] hundredths of a metre is exact. *)
Lemma conversion_exact (N : positive) :
  Z.pos N < 2 ^ 40 ->
  Math_round (mul (of_ratio false N 100) (of_Z 100)) = of_Z (Z.pos N).
Proof.
  intros HN.
  destruct (of_ratio_100 N HN) as (m & c & nq & s & Hx & Hc & Hnq & Hs & Hm & Hex).
  rewrite Hx.
  destruct (mul_100 m (- s + nq + c) Hm) as (my & cy & nP & Hy & Hcy & HnP & Hmy & Hey);
    [lia |].
  rewrite Hy.
  set (ey := - s + nq + c - 46 + nP + cy).
  apply Math_round_near; [unfold ey; lia | lia |].
  set (k := nq + c - 46 + nP + cy).
  assert (Hk : 6 <= k <= 10) by (unfold k; lia).
  assert (HG : - ey = s - k) by (unfold ey, k; lia).
  assert (HS : 2 ^ s = 2 ^ (- ey) * 2 ^ k).
  { rewrite <- Z.pow_add_r by lia. f_equal. lia. }
  assert (HT : 2 ^ 10 <= 2 ^ (- ey)) by (apply Z.pow_le_mono_r; lia).
  replace (- ey + 1) with (Z.succ (- ey)) by lia.
  rewrite Z.pow_succ_r by lia.
  set (T := 2 ^ (- ey)) in *.
  rewrite HS in Hex.
  set (NT := Z.pos N * T).
  assert (HNT : Z.pos N * (T * 2 ^ k) = NT * 2 ^ k) by (unfold NT; ring).
  rewrite HNT in Hex.
  replace (Z.pos N * (2 * T)) with (2 * NT) by (unfold NT; ring).
  replace ((Z.pos N + 1) * (2 * T)) with (2 * NT + 2 * T) by (unfold NT; ring).
  clearbody NT T. clear HNT HS HG Hx Hy.
  unfold k in *. clear k ey.
  destruct Hc as [-> | ->], Hnq as [-> | ->], Hcy as [-> | ->], HnP as [-> | ->];
    cbn in Hex, Hey; lia.
Qed.
End Rounding.

(** ** Strings of digits *)
Section DigitStrings.
Import JsString Number.

Lemma is_digit_not_space (c : ascii) : is_digit c = true -> is_white_space c = false.
Proof. destruct c as [[] [] [] [] [] [] [] []]; vm_compute; congruence. Qed.

Lemma append_nil_l (s : string) : EmptyString +:+ s = s.
Proof. reflexivity. Qed.

Lemma append_cons (c : ascii) (a b : string) : String c a +:+ b = String c (a +:+ b).
Proof. reflexivity. Qed.

Lemma all_app (p : ascii -> bool) (a b : string) :
  all p (a +:+ b) = all p a && all p b.
Proof.
  induction a as [| c a IH]; [reflexivity |].
  rewrite append_cons. cbn [all]. rewrite IH. apply andb_assoc.
Qed.

Lemma all_impl (p q : ascii -> bool) (s : string) :
  (forall c, p c = true -> q c = true) -> all p s = true -> all q s = true.
Proof.
  intros Hpq. induction s as [| c s IH]; cbn; [reflexivity |].
  intros H. apply andb_prop in H as [H1 H2].
  rewrite (Hpq c H1), (IH H2). reflexivity.
Qed.

Lemma trimEnd_no_space (s : string) :
  all (fun c => negb (is_white_space c)) s = true -> trimEnd s = s.
Proof.
  induction s as [| c s IH]; cbn; [reflexivity |].
  intros H. apply andb_prop in H as [H1 H2].
  rewrite (IH H2). apply negb_true_iff in H1. rewrite H1, andb_false_r. reflexivity.
Qed.

Lemma span_all (p : ascii -> bool) (a b : string) :
  all p a = true ->
  match b with String c _ => p c = false | EmptyString => True end ->
  span p (a +:+ b) = (a, b).
Proof.
  intros Ha Hb. induction a as [| c a IH].
  - rewrite append_nil_l.
    destruct b as [| c b]; cbn; [reflexivity |]. rewrite Hb. reflexivity.
  - cbn in Ha. apply andb_prop in Ha as [H1 H2].
    rewrite append_cons. cbn [span]. rewrite H1, (IH H2). reflexivity.
Qed.

Lemma append_empty_r (s : string) : s +:+ EmptyString = s.
Proof.
  induction s as [| c s IH]; [reflexivity |].
  rewrite append_cons, IH. reflexivity.
Qed.

Lemma replace_comma (D FF : string) :
  all is_digit D = true ->
  replace "," "." (D +:+ String "," FF) = D +:+ String "." FF.
Proof.
  intros HD. induction D as [| c D IH]; [vm_compute; reflexivity |].
  cbn in HD. apply andb_prop in HD as [H1 H2].
  rewrite append_cons. cbn [replace starts_with].
  destruct (Ascii.eqb_spec "," c) as [<- | Hne]; [discriminate H1 |].
  cbn [andb]. rewrite (IH H2). reflexivity.
Qed.

Lemma digits_value_from_app (a b : string) :
  forall acc, digits_value_from acc (a +:+ b)
              = digits_value_from (digits_value_from acc a) b.
Proof.
  induction a as [| c a IH]; intros acc; [reflexivity |].
  rewrite append_cons. cbn [digits_value_from]. apply IH.
Qed.

Lemma digits_value_two (D FF : string) :
  String.length FF = 2%nat ->
  digits_value (D +:+ FF) = 100 * digits_value D + digits_value FF.
Proof.
  intros Hlen. unfold digits_value. rewrite digits_value_from_app.
  destruct FF as [| a [| b [| c FF]]]; try discriminate.
  cbn [digits_value_from]. lia.
Qed.

Lemma digits_value_from_nonneg (s : string) :
  all is_digit s = true -> forall acc, 0 <= acc -> 0 <= digits_value_from acc s.
Proof.
  induction s as [| c s IH]; cbn; intros H acc Hacc; [exact Hacc |].
  apply andb_prop in H as [H1 H2]. apply (IH H2).
  unfold is_digit in H1. apply andb_prop in H1 as [H1 _].
  apply N.leb_le in H1. lia.
Qed.

(** [parseFloat] on the text [D.FF]. *)
Lemma parseFloat_decimal (D FF : string) :
  german_decimal D FF = true ->
  parseFloat (D +:+ String "." FF)
  = of_decimal false (100 * digits_value D + digits_value FF) (-2).
Proof.
  unfold german_decimal. intros H.
  apply andb_prop in H as [H HFF]. apply andb_prop in H as [H Hlen].
  apply andb_prop in H as [Hne HD]. apply Nat.eqb_eq in Hlen.
  destruct D as [| c D]; [discriminate |].
  pose proof HD as HD'. cbn in HD'. apply andb_prop in HD' as [Hc _].
  unfold parseFloat.
  assert (Htrim : trimStart (String c D +:+ String "." FF) = String c D +:+ String "." FF).
  { rewrite append_cons. cbn [trimStart].
    rewrite (is_digit_not_space c Hc). reflexivity. }
  rewrite Htrim.
  assert (Hsign : scan_sign (String c D +:+ String "." FF)
                  = (false, String c D +:+ String "." FF)).
  { rewrite append_cons.
    destruct c as [[] [] [] [] [] [] [] []]; try discriminate Hc; reflexivity. }
  rewrite Hsign.
  assert (Hscan : scan_unsigned (String c D +:+ String "." FF)
                  = Some (LitDecimal (String c D) FF 0)).
  { unfold scan_unsigned.
    assert (Hinf : starts_with "Infinity" (String c D +:+ String "." FF) = false).
    { rewrite append_cons. cbn [starts_with].
      destruct (Ascii.eqb_spec "I" c) as [<- | _]; [discriminate Hc | reflexivity]. }
    rewrite Hinf.
    rewrite (span_all is_digit (String c D) (String "." FF) HD eq_refl).
    pose proof (span_all is_digit FF EmptyString HFF I) as Hspan.
    rewrite append_empty_r in Hspan. rewrite Hspan.
    reflexivity. }
  rewrite Hscan, (digits_value_two _ _ Hlen), Hlen. reflexivity.
Qed.

End DigitStrings.

(** ** Parser: the numeric conversion *)
Section Conversion.
Import JsString Number RheinPegelAPI.

Lemma trim_german_decimal (D FF : string) :
  german_decimal D FF = true ->
  trim (D +:+ String "," FF) = D +:+ String "," FF.
Proof.
  unfold german_decimal. intros H.
  apply andb_prop in H as [H HFF]. apply andb_prop in H as [H _].
  apply andb_prop in H as [Hne HD].
  unfold trim.
  assert (Hstart : trimStart (D +:+ String "," FF) = D +:+ String "," FF).
  { destruct D as [| c D]; [discriminate |].
    cbn in HD. apply andb_prop in HD as [Hc _].
    rewrite append_cons. cbn [trimStart].
    rewrite (is_digit_not_space c Hc). reflexivity. }
  rewrite Hstart. apply trimEnd_no_space.
  rewrite all_app. cbn [all].
  rewrite (all_impl is_digit _ D), (all_impl is_digit _ FF); try assumption;
    try reflexivity;
    intros c Hc; rewrite (is_digit_not_space c Hc); reflexivity.
Qed.

(** A text of the form [D,FF] is never rejected; the result is the one the
    pipeline of the specification computes. *)
Lemma convertGermanDecimal_pipeline (D FF : string) :
  german_decimal D FF = true ->
  convertGermanDecimal (D +:+ String "," FF)
  = Return (convert_spec (D +:+ String "," FF)).
Proof.
  intros H. unfold convertGermanDecimal, convert_spec.
  rewrite (trim_german_decimal D FF H).
  assert (HD : all is_digit D = true).
  { unfold german_decimal in H. apply andb_prop in H as [H _].
    apply andb_prop in H as [H _]. apply andb_prop in H as [_ H]. exact H. }
  rewrite (replace_comma D FF HD), (parseFloat_decimal D FF H), of_decimal_isNaN.
  reflexivity.
Qed.

Lemma convert_spec_exact (D FF : string) :
  german_decimal D FF = true ->
  100 * digits_value D + digits_value FF < exact_levels ->
  convert_spec (D +:+ String "," FF)
  = of_Z (100 * digits_value D + digits_value FF).
Proof.
  intros H Hbound. unfold convert_spec.
  assert (Hparts : all is_digit D = true /\ all is_digit FF = true).
  { unfold german_decimal in H. apply andb_prop in H as [H HFF].
    apply andb_prop in H as [H _]. apply andb_prop in H as [_ H]. split; assumption. }
  destruct Hparts as [HD HFF].
  rewrite (replace_comma D FF HD), (parseFloat_decimal D FF H).
  pose proof (digits_value_from_nonneg D HD 0 (Z.le_refl 0)) as H1.
  pose proof (digits_value_from_nonneg FF HFF 0 (Z.le_refl 0)) as H2.
  fold (digits_value D) in H1. fold (digits_value FF) in H2.
  destruct (100 * digits_value D + digits_value FF) as [| N | N] eqn:EN; [| | lia].
  - reflexivity.
  - apply (conversion_exact N). exact Hbound.
Qed.

(** C2. For every text [D,FF] (digits, a comma, two digits) the conversion
    raises nothing and returns what the pipeline of the specification gives:
    comma replaced by a point, parsed as a binary64 number, multiplied by 100,
    rounded half-up.  For every level below 2^40 centimetres that value is
    the integer 100 * D + FF; "3,68" gives 368 and "0,00" gives 0; a value
    above 2000 is returned like any other, as is the 2001 of "20,01". *)
Theorem convertGermanDecimal_german (D FF : string) :
  german_decimal D FF = true ->
  convertGermanDecimal (D +:+ String "," FF)
  = Return (convert_spec (D +:+ String "," FF))
  /\ (100 * digits_value D + digits_value FF < exact_levels ->
      convert_spec (D +:+ String "," FF)
      = of_Z (100 * digits_value D + digits_value FF))
  /\ convertGermanDecimal "3,68" = Return (of_Z 368)
  /\ convertGermanDecimal "0,00" = Return (of_Z 0)
  /\ convertGermanDecimal "20,01" = Return (of_Z 2001).
Proof.
  intros H.
  split; [exact (convertGermanDecimal_pipeline D FF H) |].
  split; [exact (convert_spec_exact D FF H) |].
  split; [vm_compute; reflexivity |].
  split; [vm_compute; reflexivity |].
  vm_compute; reflexivity.
Qed.

Lemma convertGermanDecimal_german_witness :
  german_decimal "3" "68" = true
  /\ convertGermanDecimal ("3" +:+ String "," "68") = Return (of_Z 368).
Proof.
  assert (H : german_decimal "3" "68" = true) by reflexivity.
  split; [exact H |].
  destruct (convertGermanDecimal_german "3" "68" H) as (H1 & H2 & _).
  rewrite H1, H2 by (vm_compute; reflexivity). reflexivity.
Defined.
End Conversion.

(** ** Parser: required fields, level and date *)
Section Parser.
Import JsString Number RheinPegelAPI.

Lemma convertGermanDecimal_cases (germanNumber : string) :
  convertGermanDecimal germanNumber
  = if numeric_prefix (replace "," "." (trim germanNumber))
    then Return (convert_spec (trim germanNumber))
    else Throw (Error ("Number conversion failed: Invalid number format: "
                       +:+ germanNumber)).
Proof.
  unfold convertGermanDecimal, convert_spec. rewrite parseFloat_isNaN.
  destruct (numeric_prefix (replace "," "." (trim germanNumber))); reflexivity.
Qed.

Lemma parseXMLResponse_present env now xmlString datum uhrzeit pegel :
  fields_present env xmlString datum uhrzeit pegel ->
  parseXMLResponse env now xmlString
  = if numeric_prefix (replace "," "." (trim pegel))
    then Return {| waterLevel := convert_spec (trim pegel);
                   date := trim datum;
                   time := trim uhrzeit;
                   timestamp := parseGermanDateTime env now datum uhrzeit;
                   graphic := graphic_of (DOMParser_text env xmlString "Grafik") |}
    else Throw (Error ("XML parsing failed: Number conversion failed: "
                       +:+ "Invalid number format: " +:+ pegel)).
Proof.
  intros (Herr & Hd & Hu & Hp & Hd' & Hu' & Hp').
  unfold parseXMLResponse. rewrite Herr, Hd, Hu, Hp. cbn [falsy].
  rewrite Hd', Hu', Hp'. cbn [orb text_of].
  rewrite convertGermanDecimal_cases.
  destruct (numeric_prefix (replace "," "." (trim pegel))); reflexivity.
Qed.

Lemma parseXMLResponse_missing env now xmlString :
  DOMParser_text env xmlString "parsererror" = None ->
  falsy (DOMParser_text env xmlString "Datum")
  || falsy (DOMParser_text env xmlString "Uhrzeit")
  || falsy (DOMParser_text env xmlString "Pegel") = true ->
  parseXMLResponse env now xmlString
  = Throw (Error "XML parsing failed: Missing required fields in XML response").
Proof.
  intros Herr Hmissing. unfold parseXMLResponse. rewrite Herr, Hmissing. reflexivity.
Qed.

(** White space only, in terms of [trim]. *)
Lemma trimStart_all_space (s : string) :
  trimStart s = EmptyString <-> all is_white_space s = true.
Proof.
  induction s as [| c s IH]; cbn; [split; reflexivity |].
  destruct (is_white_space c); cbn; [exact IH | split; discriminate].
Qed.

Lemma trimStart_head (s : string) :
  match trimStart s with
  | String c _ => is_white_space c = false
  | EmptyString => True
  end.
Proof.
  induction s as [| c s IH]; cbn; [exact I |].
  destruct (is_white_space c) eqn:Hc; [exact IH | exact Hc].
Qed.

Lemma blank_all_space (s : string) :
  blank s = true <-> all is_white_space s = true.
Proof.
  unfold blank, trim. rewrite <- trimStart_all_space.
  pose proof (trimStart_head s) as Hhead.
  destruct (trimStart s) as [| c t]; [split; reflexivity |].
  cbn [trimEnd]. rewrite Hhead, andb_false_r. cbn. split; discriminate.
Qed.

Lemma blank_trim (s : string) : blank s = true -> trim s = EmptyString.
Proof. unfold blank. destruct (trim s); [reflexivity | discriminate]. Qed.

(** Neither pattern of the date parser matches inside white space. *)
Lemma exec_date_re_space (s : string) :
  all is_white_space s = true -> Regex.exec Regex.date_re s = None.
Proof.
  induction s as [| c s IH]; [reflexivity |].
  cbn [all]. intros H. apply andb_prop in H as [Hc Hs].
  cbn [Regex.exec]. rewrite (IH Hs).
  assert (Hd : is_digit c = false).
  { destruct (is_digit c) eqn:E; [| reflexivity].
    rewrite (is_digit_not_space c E) in Hc. discriminate. }
  unfold Regex.match_here, Regex.date_re, Regex.d.
  cbn [Regex.run String.length]. rewrite Hd. reflexivity.
Qed.

Lemma exec_time_re_space (s : string) :
  all is_white_space s = true -> Regex.exec Regex.time_re s = None.
Proof.
  induction s as [| c s IH]; [reflexivity |].
  cbn [all]. intros H. apply andb_prop in H as [Hc Hs].
  cbn [Regex.exec]. rewrite (IH Hs).
  assert (Hd : is_digit c = false).
  { destruct (is_digit c) eqn:E; [| reflexivity].
    rewrite (is_digit_not_space c E) in Hc. discriminate. }
  unfold Regex.match_here, Regex.time_re, Regex.d.
  cbn [Regex.run String.length]. rewrite Hd. reflexivity.
Qed.

(** The fallback of [parseGermanDateTime]. *)
Lemma parseGermanDateTime_fallback env now (dateStr timeStr : string) :
  Regex.exec Regex.date_re dateStr = None
  \/ (exists dateMatch,
         Regex.exec Regex.date_re dateStr = Some dateMatch
         /\ monthNames_get (Regex.group 2 dateMatch) = Undefined)
  \/ Regex.exec Regex.time_re timeStr = None ->
  parseGermanDateTime env now dateStr timeStr = of_Z now.
Proof.
  unfold parseGermanDateTime, parseGermanDateTime_try.
  intros [Hd | [(dateMatch & Hd & Hm) | Ht]].
  - rewrite Hd. reflexivity.
  - rewrite Hd, Hm. reflexivity.
  - destruct (Regex.exec Regex.date_re dateStr) as [dateMatch |]; [| reflexivity].
    destruct (monthNames_get (Regex.group 2 dateMatch)); rewrite ?Ht; reflexivity.
Qed.

(** C6, amended. With the three fields present, parse fails with the number
    conversion error (wrapped in the parse error) exactly when the level
    field, trimmed and with its first comma turned into a point, does not
    begin with a number (an optional sign, then a digit, a point followed by
    a digit, or [Infinity]); every other level field is converted and the
    Reading is returned, whether or not it has the form [D,FF]. *)
Theorem parseXMLResponse_level_format env now xmlString datum uhrzeit pegel :
  fields_present env xmlString datum uhrzeit pegel ->
  (numeric_prefix (replace "," "." (trim pegel)) = false ->
   exists e, parseXMLResponse env now xmlString = Throw e
             /\ is_ParseError e = true /\ is_NumberFormatError e = true)
  /\ (numeric_prefix (replace "," "." (trim pegel)) = true ->
      exists r, parseXMLResponse env now xmlString = Return r
                /\ waterLevel r = convert_spec (trim pegel)).
Proof.
  intros Hfields.
  rewrite (parseXMLResponse_present env now xmlString datum uhrzeit pegel Hfields).
  split; intros Hnum; rewrite Hnum.
  - eexists. split; [reflexivity |]. split; vm_compute; reflexivity.
  - eexists. split; reflexivity.
Qed.

Lemma parseXMLResponse_level_format_witness :
  fields_present (sample_browser "27. Oktober 2025" "15:25" "n/a") "" 
    "27. Oktober 2025" "15:25" "n/a"
  /\ numeric_prefix (replace "," "." (trim "n/a")) = false
  /\ exists e, parseXMLResponse (sample_browser "27. Oktober 2025" "15:25" "n/a") 0 ""
               = Throw e
               /\ is_ParseError e = true /\ is_NumberFormatError e = true.
Proof.
  assert (H1 : fields_present (sample_browser "27. Oktober 2025" "15:25" "n/a") ""
                 "27. Oktober 2025" "15:25" "n/a")
    by (repeat split).
  assert (H2 : numeric_prefix (replace "," "." (trim "n/a")) = false) by reflexivity.
  split; [exact H1 |]. split; [exact H2 |].
  exact (proj1 (parseXMLResponse_level_format _ 0 _ _ _ _ H1) H2).
Defined.

(** The level "3" is not of the form [D,FF], yet parse returns a Reading,
    with the level 300. *)
Lemma level_outside_pattern_accepted :
  is_german_decimal "3" = false
  /\ parseXMLResponse (sample_browser "27. Oktober 2025" "15:25" "3") 0 ""
     = Return {| waterLevel := of_Z 300; date := "27. Oktober 2025"; time := "15:25";
                 timestamp := of_Z 1761575100000; graphic := Some "pegel.png" |}.
Proof. split; vm_compute; reflexivity. Qed.

(** C7, amended. Parse fails with the parse error whenever one of the three
    required fields is absent or the empty string, and whenever the level
    field is empty after trimming.  A date or time field made of white space
    only (at least one character) is not rejected: the Reading carries the
    trimmed, empty, text and the current time as its timestamp. *)
Theorem parseXMLResponse_required_fields env now xmlString :
  DOMParser_text env xmlString "parsererror" = None ->
  (falsy (DOMParser_text env xmlString "Datum")
   || falsy (DOMParser_text env xmlString "Uhrzeit")
   || falsy (DOMParser_text env xmlString "Pegel") = true ->
   exists e, parseXMLResponse env now xmlString = Throw e
             /\ is_ParseError e = true
             /\ message e = "XML parsing failed: Missing required fields in XML response")
  /\ (forall datum uhrzeit pegel,
         fields_present env xmlString datum uhrzeit pegel ->
         blank pegel = true ->
         exists e, parseXMLResponse env now xmlString = Throw e
                   /\ is_ParseError e = true)
  /\ (forall datum uhrzeit pegel,
         fields_present env xmlString datum uhrzeit pegel ->
         blank datum = true \/ blank uhrzeit = true ->
         numeric_prefix (replace "," "." (trim pegel)) = true ->
         exists r, parseXMLResponse env now xmlString = Return r
                   /\ date r = trim datum /\ time r = trim uhrzeit
                   /\ timestamp r = of_Z now).
Proof.
  intros Herr. split; [| split].
  - intros Hmissing. rewrite (parseXMLResponse_missing env now xmlString Herr Hmissing).
    eexists. split; [reflexivity |]. split; reflexivity.
  - intros datum uhrzeit pegel Hfields Hblank.
    rewrite (parseXMLResponse_present env now xmlString datum uhrzeit pegel Hfields).
    rewrite (blank_trim pegel Hblank). cbn.
    eexists. split; [reflexivity |]. vm_compute. reflexivity.
  - intros datum uhrzeit pegel Hfields Hblank Hnum.
    rewrite (parseXMLResponse_present env now xmlString datum uhrzeit pegel Hfields), Hnum.
    eexists. split; [reflexivity |]. cbn [date time timestamp].
    split; [reflexivity |]. split; [reflexivity |].
    apply parseGermanDateTime_fallback.
    destruct Hblank as [Hd | Hu].
    + left. apply exec_date_re_space, blank_all_space, Hd.
    + right. right. apply exec_time_re_space, blank_all_space, Hu.
Qed.

Lemma parseXMLResponse_required_fields_witness :
  DOMParser_text (sample_browser "27. Oktober 2025" "" "3,68") "" "parsererror" = None
  /\ falsy (DOMParser_text (sample_browser "27. Oktober 2025" "" "3,68") "" "Datum")
     || falsy (DOMParser_text (sample_browser "27. Oktober 2025" "" "3,68") "" "Uhrzeit")
     || falsy (DOMParser_text (sample_browser "27. Oktober 2025" "" "3,68") "" "Pegel")
     = true
  /\ exists e, parseXMLResponse (sample_browser "27. Oktober 2025" "" "3,68") 0 "" = Throw e
               /\ is_ParseError e = true
               /\ message e = "XML parsing failed: Missing required fields in XML response".
Proof.
  assert (H1 : DOMParser_text (sample_browser "27. Oktober 2025" "" "3,68") ""
                 "parsererror" = None) by reflexivity.
  assert (H2 : falsy (DOMParser_text (sample_browser "27. Oktober 2025" "" "3,68") "" "Datum")
     || falsy (DOMParser_text (sample_browser "27. Oktober 2025" "" "3,68") "" "Uhrzeit")
     || falsy (DOMParser_text (sample_browser "27. Oktober 2025" "" "3,68") "" "Pegel")
     = true) by reflexivity.
  split; [exact H1 |]. split; [exact H2 |].
  exact (proj1 (parseXMLResponse_required_fields _ 0 _ H1) H2).
Defined.

(** A date field holding one space is empty after trimming, yet parse returns
    a Reading: its date is empty and its timestamp is the current time. *)
Lemma blank_date_accepted :
  blank " " = true
  /\ parseXMLResponse (sample_browser " " "15:25" "3,68") 1761575160000 ""
     = Return {| waterLevel := of_Z 368; date := ""; time := "15:25";
                 timestamp := of_Z 1761575160000; graphic := Some "pegel.png" |}.
Proof. split; vm_compute; reflexivity. Qed.

(** C5, amended. When the date field contains no match of
    day-point-space-word-space-four-digits, or the word matched is not a
    property of the month table, or the time field contains no match of
    hour-colon-two-digits, the date parser raises nothing: it answers the
    current time, and parse returns a Reading with that timestamp. *)
Theorem parseGermanDateTime_falls_back env now xmlString datum uhrzeit pegel :
  fields_present env xmlString datum uhrzeit pegel ->
  numeric_prefix (replace "," "." (trim pegel)) = true ->
  Regex.exec Regex.date_re datum = None
  \/ (exists dateMatch,
         Regex.exec Regex.date_re datum = Some dateMatch
         /\ monthNames_get (Regex.group 2 dateMatch) = Undefined)
  \/ Regex.exec Regex.time_re uhrzeit = None ->
  parseGermanDateTime env now datum uhrzeit = of_Z now
  /\ exists r, parseXMLResponse env now xmlString = Return r
               /\ timestamp r = of_Z now.
Proof.
  intros Hfields Hnum Hbad.
  pose proof (parseGermanDateTime_fallback env now datum uhrzeit Hbad) as Hnow.
  split; [exact Hnow |].
  rewrite (parseXMLResponse_present env now xmlString datum uhrzeit pegel Hfields), Hnum.
  eexists. split; [reflexivity | exact Hnow].
Qed.

Lemma parseGermanDateTime_falls_back_witness :
  fields_present (sample_browser "27. Brumaire 2025" "15:25" "3,68") ""
    "27. Brumaire 2025" "15:25" "3,68"
  /\ numeric_prefix (replace "," "." (trim "3,68")) = true
  /\ (exists dateMatch,
         Regex.exec Regex.date_re "27. Brumaire 2025" = Some dateMatch
         /\ monthNames_get (Regex.group 2 dateMatch) = Undefined)
  /\ parseGermanDateTime (sample_browser "27. Brumaire 2025" "15:25" "3,68")
       1761575160000 "27. Brumaire 2025" "15:25" = of_Z 1761575160000.
Proof.
  assert (H1 : fields_present (sample_browser "27. Brumaire 2025" "15:25" "3,68") ""
                 "27. Brumaire 2025" "15:25" "3,68") by (repeat split).
  assert (H2 : numeric_prefix (replace "," "." (trim "3,68")) = true) by reflexivity.
  assert (H3 : exists dateMatch,
             Regex.exec Regex.date_re "27. Brumaire 2025" = Some dateMatch
             /\ monthNames_get (Regex.group 2 dateMatch) = Undefined).
  { eexists. split; reflexivity. }
  split; [exact H1 |]. split; [exact H2 |]. split; [exact H3 |].
  exact (proj1 (parseGermanDateTime_falls_back _ 1761575160000 _ _ _ _ H1 H2
                  (or_intror (or_introl H3)))).
Defined.

(** A date in digits only, an unknown month word and a time without a colon
    each leave parse successful; the timestamp is the current time. *)
Lemma bad_date_accepted :
  Regex.exec Regex.date_re "27.10.2025" = None
  /\ parseXMLResponse (sample_browser "27.10.2025" "15:25" "3,68") 1761575160000 ""
     = Return {| waterLevel := of_Z 368; date := "27.10.2025"; time := "15:25";
                 timestamp := of_Z 1761575160000; graphic := Some "pegel.png" |}
  /\ parseXMLResponse (sample_browser "27. Brumaire 2025" "15:25" "3,68") 1761575160000 ""
     = Return {| waterLevel := of_Z 368; date := "27. Brumaire 2025"; time := "15:25";
                 timestamp := of_Z 1761575160000; graphic := Some "pegel.png" |}
  /\ Regex.exec Regex.time_re "1525" = None
  /\ parseXMLResponse (sample_browser "27. Oktober 2025" "1525" "3,68") 1761575160000 ""
     = Return {| waterLevel := of_Z 368; date := "27. Oktober 2025"; time := "1525";
                 timestamp := of_Z 1761575160000; graphic := Some "pegel.png" |}.
Proof. repeat (split; [vm_compute; reflexivity |]). vm_compute; reflexivity. Qed.

(** A well-formed reading for comparison: the timestamp comes from the date. *)
Example parseXMLResponse_sample :
  parseXMLResponse (sample_browser "27. Oktober 2025" "15:25" "3,68") 1761575160000 ""
  = Return {| waterLevel := of_Z 368; date := "27. Oktober 2025"; time := "15:25";
              timestamp := of_Z 1761575100000; graphic := Some "pegel.png" |}.
Proof. vm_compute. reflexivity. Qed.

(** The month written with a-umlaut is a key of the table, but [\w] does not
    match that letter: the date falls back to the current time. *)
Example parseGermanDateTime_maerz env now :
  parseGermanDateTime env now (String "1" (String "5" (String "." (String " "
    (String "M" (String a_umlaut "rz 2025")))))) "15:25" = of_Z now.
Proof. reflexivity. Qed.

(** A word that names a member of [Object.prototype] is not [undefined]: the
    date is built with a month that is not a number. *)
Example parseGermanDateTime_inherited env now :
  parseGermanDateTime env now "27. constructor 2025" "15:25"
  = Date_local env (parseInt "2025") NaN (parseInt "27") (parseInt "15") (parseInt "25").
Proof. reflexivity. Qed.
End Parser.

(** ** The stable sort *)
Section StableSort.
Import WaterLevelStorage.
Context {A : Type} (key : A -> Z).

(** The comparator [a, b => key a - key b] sorts by ascending key. *)
Local Abbreviation cmp := (key_cmp key) (only parsing).
Local Abbreviation le := (key_le key) (only parsing).

Lemma insert_by_perm (x : A) (l : list A) : Permutation (insert_by cmp x l) (x :: l).
Proof.
  induction l as [| y l IH]; cbn; [reflexivity |].
  destruct (cmp x y <=? 0); [reflexivity |].
  rewrite IH. apply perm_swap.
Qed.

Lemma sort_perm (l : list A) : Permutation (sort cmp l) l.
Proof.
  induction l as [| x l IH]; cbn; [reflexivity |].
  rewrite insert_by_perm, IH. reflexivity.
Qed.

Lemma insert_by_sorted (x : A) (l : list A) :
  StronglySorted le l -> StronglySorted le (insert_by cmp x l).
Proof.
  induction l as [| y l IH]; intros Hl; cbn.
  - repeat constructor.
  - apply StronglySorted_inv in Hl as [Hl Hy].
    destruct (Z.leb_spec (cmp x y) 0) as [Hxy | Hxy]; unfold key_cmp in Hxy.
    + constructor; [constructor; assumption |].
      constructor; [unfold key_le; lia |].
      eapply Forall_impl; [exact Hy |]. unfold key_le. intros z Hz. cbn in Hz. lia.
    + constructor; [apply IH, Hl |].
      rewrite (insert_by_perm x l). constructor; [unfold key_le; lia | exact Hy].
Qed.

Lemma sort_sorted (l : list A) : StronglySorted le (sort cmp l).
Proof.
  induction l as [| x l IH]; cbn; [constructor | apply insert_by_sorted, IH].
Qed.

(** Insertion next to an element that does not come after [x]. *)
Lemma insert_by_app_stop (x y : A) (l1 l2 : list A) :
  key x <= key y ->
  insert_by cmp x (l1 ++ y :: l2) = insert_by cmp x l1 ++ y :: l2.
Proof.
  intros Hxy. induction l1 as [| z l1 IH]; cbn.
  - destruct (Z.leb_spec (cmp x y) 0) as [H | H]; unfold key_cmp in H; [reflexivity | lia].
  - destruct (cmp x z <=? 0); [reflexivity |]. rewrite IH. reflexivity.
Qed.

(** Insertion after a block of elements that all come before [x]. *)
Lemma insert_by_app_pass (x : A) (l1 l2 : list A) :
  Forall (fun y => key y < key x) l1 ->
  insert_by cmp x (l1 ++ l2) = l1 ++ insert_by cmp x l2.
Proof.
  induction 1 as [| z l1 Hz Hl1 IH]; cbn; [reflexivity |].
  destruct (Z.leb_spec (cmp x z) 0) as [H | H]; unfold key_cmp in H; [lia |].
  rewrite IH. reflexivity.
Qed.

(** Where the element appended last lands: behind the elements whose key is
    at most its own, in front of all others. *)
Lemma sort_last_position (e : A) (l : list A) :
  exists l1 l2,
    sort cmp (l ++ [e]) = l1 ++ e :: l2
    /\ length l1 = length (List.filter (fun x => key x <=? key e) l)
    /\ Forall (fun y => key y <= key e) l1
    /\ Forall (fun y => key e < key y) l2.
Proof.
  induction l as [| x l (l1 & l2 & Heq & Hlen & H1 & H2)].
  - exists [], []. repeat split; constructor.
  - change (sort cmp ((x :: l) ++ [e])) with (insert_by cmp x (sort cmp (l ++ [e]))).
    rewrite Heq. cbn [List.filter].
    destruct (Z.leb_spec (key x) (key e)) as [Hx | Hx].
    + exists (insert_by cmp x l1), l2.
      split; [apply insert_by_app_stop, Hx |].
      split; [rewrite (Permutation_length (insert_by_perm x l1)); cbn; congruence |].
      split; [| exact H2].
      rewrite (insert_by_perm x l1). constructor; assumption.
    + exists l1, (insert_by cmp x l2).
      split.
      { change (l1 ++ e :: l2) with (l1 ++ [e] ++ l2).
        rewrite app_assoc, insert_by_app_pass.
        - rewrite <- app_assoc. reflexivity.
        - apply Forall_app. split; [| repeat constructor; exact Hx].
          eapply Forall_impl; [exact H1 |]. cbn. intros y Hy. lia. }
      split; [exact Hlen |]. split; [exact H1 |].
      rewrite (insert_by_perm x l2). constructor; assumption.
Qed.

Lemma sort_ext (cmp' : A -> A -> Z) (l : list A) :
  (forall a b, cmp' a b = cmp a b) -> sort cmp' l = sort cmp l.
Proof.
  intros Hext. induction l as [| x l IH]; cbn; [reflexivity |].
  fold (sort cmp' l). fold (sort cmp l). rewrite IH.
  generalize (sort cmp l). intros l'.
  induction l' as [| y l' IH']; cbn; [reflexivity |].
  rewrite Hext, IH'. reflexivity.
Qed.
End StableSort.

(** ** History store: the effect of each method *)
Section StoreFacts.
Import WaterLevelStorage.

Lemma getStorageData_load (w : world) :
  getStorageData w = (Return (load (slot w)), w).
Proof.
  unfold load. destruct w as [s fs now tk]. cbn [slot].
  unfold getStorageData, try_catch, mbind, M_bind, bind, localStorage_getItem.
  cbn [slot].
  destruct s as [[| | [| o |]] |]; cbn; try reflexivity.
  destruct (version_differs (version o)); reflexivity.
Qed.

Lemma load_version (s : option item) : version (load s) = Some (VStr this_version).
Proof.
  unfold load, getStorageData, try_catch, mbind, M_bind, bind, localStorage_getItem.
  cbn [slot].
  destruct s as [[| | [| o |]] |]; cbn; try reflexivity.
  destruct o as [[[| b | n | v] |] rs lu]; cbn; try reflexivity.
  destruct (String.eqb v this_version) eqn:E; cbn; [| reflexivity].
  apply String.eqb_eq in E. rewrite E. reflexivity.
Qed.

Lemma load_stringify (st : storage) :
  version st = Some (VStr this_version) -> load (Some (JSON_stringify st)) = st.
Proof.
  intros Hv.
  unfold load, getStorageData, try_catch, mbind, M_bind, bind, localStorage_getItem.
  cbn [slot JSON_stringify JSON_parse ret fst]. rewrite Hv. reflexivity.
Qed.

(** A write either stores the text or throws and leaves the slot alone; the
    clock is not read. *)
Lemma setItem_cases (v : item) (w : world) :
  exists res w',
    localStorage_setItem v w = (res, w')
    /\ clock_now w' = clock_now w /\ ticks w' = ticks w
    /\ ((res = Return tt /\ slot w' = Some v)
        \/ (exists e, res = Throw e /\ slot w' = slot w)).
Proof.
  unfold localStorage_setItem.
  destruct (faults w) as [| [e |] fs]; eexists _, _;
    (split; [reflexivity |]); cbn; (split; [reflexivity |]); (split; [reflexivity |]).
  - left. split; reflexivity.
  - right. exists e. split; reflexivity.
  - left. split; reflexivity.
Qed.

Lemma setStorageData_cases (data : storage) (rs : list entry) (w : world) :
  readings data = Some rs ->
  exists res w',
    setStorageData data w = (res, w')
    /\ clock_now w' = clock_now w /\ ticks w' = ticks w
    /\ ((res = Return tt
         /\ exists rs',
             slot w' = Some (JSON_stringify {| version := version data;
                                               readings := Some rs';
                                               lastUpdated := lastUpdated data |})
             /\ (rs' = rs \/ rs' = take (length rs / 2)%nat rs))
        \/ (exists e, res = Throw e /\ slot w' = slot w)).
Proof.
  intros Hrs. unfold setStorageData, try_catch.
  destruct (setItem_cases (JSON_stringify data) w)
    as (res & w1 & Heq & Hc & Ht & [[-> Hs] | (e & -> & Hs)]); rewrite Heq.
  - exists (Return tt), w1. split; [reflexivity |]. split; [exact Hc |].
    split; [exact Ht |]. left. split; [reflexivity |].
    exists rs. split; [| left; reflexivity].
    rewrite Hs. destruct data; cbn in *. subst. reflexivity.
  - destruct (String.eqb (name e) "QuotaExceededError").
    + unfold mbind, M_bind, bind, array_of. rewrite Hrs. cbn [ret].
      match goal with
      | |- context [localStorage_setItem ?v w1] =>
          destruct (setItem_cases v w1)
            as (res & w2 & Heq2 & Hc2 & Ht2 & [[-> Hs2] | (e2 & -> & Hs2)]);
          rewrite Heq2
      end.
      * exists (Return tt), w2. split; [reflexivity |].
        split; [congruence |]. split; [congruence |].
        left. split; [reflexivity |].
        eexists. split; [exact Hs2 | right; reflexivity].
      * exists (Throw e2), w2. split; [reflexivity |].
        split; [congruence |]. split; [congruence |].
        right. exists e2. split; [reflexivity | congruence].
    + exists (Throw e), w1. split; [reflexivity |].
      split; [exact Hc |]. split; [exact Ht |].
      right. exists e. split; [reflexivity | exact Hs].
Qed.

Lemma sublist_filter_b (p : entry -> bool) (l : list entry) :
  filter_b p l `sublist_of` l.
Proof.
  induction l as [| x l IH]; cbn; [constructor |].
  destruct (p x); [apply sublist_skip | apply sublist_cons]; exact IH.
Qed.

Lemma Date_now_run (w : world) :
  exists w', Date_now w = (Return (clock_now w), w')
             /\ slot w' = slot w /\ faults w' = faults w
             /\ clock_now w' = clock_now w + hd 0 (ticks w)
             /\ ticks w' = tl (ticks w).
Proof. eexists. repeat split. Qed.

Lemma cleanOldData_cases (w : world) :
  exists w',
    cleanOldData w = (Return tt, w')
    /\ (slot w' = slot w
        \/ exists rs rs',
            readings (load (slot w)) = Some rs
            /\ rs' `sublist_of` rs
            /\ slot w' = Some (JSON_stringify
                                {| version := version (load (slot w));
                                   readings := Some rs';
                                   lastUpdated := lastUpdated (load (slot w)) |})).
Proof.
  unfold cleanOldData, try_catch, mbind, M_bind, bind.
  rewrite getStorageData_load.
  destruct (Date_now_run w) as (w1 & Hnow & Hs1 & _). rewrite Hnow.
  unfold array_of.
  destruct (readings (load (slot w))) as [rs |] eqn:Hrs; cbn [ret throw].
  - match goal with
    | |- context [setStorageData ?st w1] =>
        destruct (setStorageData_cases st _ w1 eq_refl)
          as (res & w2 & Heq & _ & _ & [[-> (rs' & Hs2 & Hrs')] | (e & -> & Hs2)]);
        rewrite Heq
    end.
    + exists w2. split; [reflexivity |]. right.
      exists rs, rs'. split; [reflexivity |]. split; [| exact Hs2].
      destruct Hrs' as [-> | ->].
      * apply sublist_filter_b.
      * etransitivity; [apply sublist_take | apply sublist_filter_b].
    + exists w2. split; [reflexivity |]. left. congruence.
  - exists w1. split; [reflexivity |]. left. exact Hs1.
Qed.

Lemma saveReading_cases (data : RheinPegelAPI.Reading Z) (w : world) :
  exists b w',
    saveReading data w = (Return b, w')
    /\ ((b = false /\ slot w' = slot w)
        \/ (b = true
            /\ exists rs rs' lu,
                readings (load (slot w)) = Some rs
                /\ rs' `sublist_of` trimmed (sort by_newest (rs ++ [entry_of data]))
                /\ slot w' = Some (JSON_stringify
                                    {| version := Some (VStr this_version);
                                       readings := Some rs';
                                       lastUpdated := lu |}))).
Proof.
  unfold saveReading, try_catch, mbind, M_bind, bind.
  rewrite getStorageData_load.
  unfold array_of.
  destruct (readings (load (slot w))) as [rs |] eqn:Hrs; cbn [ret throw].
  2: { exists false, w. split; [reflexivity |]. left. split; reflexivity. }
  destruct (Date_now_run w) as (w1 & Hnow & Hs1 & _). rewrite Hnow.
  match goal with
  | |- context [setStorageData ?st w1] =>
      destruct (setStorageData_cases st _ w1 eq_refl)
        as (res & w2 & Heq & _ & _ & [[-> (rs' & Hs2 & Hrs')] | (e & -> & Hs2)]);
      rewrite Heq
  end.
  2: { exists false, w2. split; [reflexivity |]. left. split; [reflexivity | congruence]. }
  cbn [version lastUpdated] in Hs2. rewrite load_version in Hs2.
  assert (Hsub : rs' `sublist_of` trimmed (sort by_newest (rs ++ [entry_of data]))).
  { destruct Hrs' as [-> | ->]; [reflexivity | apply sublist_take]. }
  destruct (cleanOldData_cases w2) as (w3 & Hclean & [Hs3 | (rs2 & rs3 & Hrs2 & Hsub3 & Hs3)]);
    rewrite Hclean; exists true, w3; (split; [reflexivity |]); right;
    (split; [reflexivity |]).
  - exists rs, rs', (Some (clock_now w)). split; [reflexivity |].
    split; [exact Hsub |]. congruence.
  - rewrite Hs2, load_stringify in Hrs2, Hs3 by reflexivity.
    cbn in Hrs2, Hs3. injection Hrs2 as <-.
    exists rs, rs3, (Some (clock_now w)). split; [reflexivity |].
    split; [etransitivity; eassumption | exact Hs3].
Qed.

Lemma stored_readings_written (w : world) (rs : list entry) (lu : option Z) :
  slot w = Some (JSON_stringify {| version := Some (VStr this_version);
                                   readings := Some rs;
                                   lastUpdated := lu |}) ->
  stored_readings w = rs.
Proof.
  intros Hs. unfold stored_readings. rewrite Hs, load_stringify by reflexivity.
  reflexivity.
Qed.

Lemma stored_readings_slot (w w' : world) :
  slot w' = slot w -> stored_readings w' = stored_readings w.
Proof. unfold stored_readings. intros ->. reflexivity. Qed.
End StoreFacts.

(** ** History store: order and bound *)
Section StoreOrder.
Import WaterLevelStorage.

Lemma Forall_sublist_of {A} (P : A -> Prop) (l1 l2 : list A) :
  l1 `sublist_of` l2 -> Forall P l2 -> Forall P l1.
Proof.
  intros Hsub H. apply Forall_forall. intros x Hx.
  rewrite Forall_forall in H. apply H. eapply elem_of_sublist; eassumption.
Qed.

Lemma StronglySorted_sublist_of {A} (R : A -> A -> Prop) (l1 l2 : list A) :
  l1 `sublist_of` l2 -> StronglySorted R l2 -> StronglySorted R l1.
Proof.
  induction 1 as [| x l1 l2 Hsub IH | x l1 l2 Hsub IH]; intros Hs.
  - constructor.
  - apply StronglySorted_inv in Hs as [Hs Hx].
    constructor; [apply IH, Hs | eapply Forall_sublist_of; eassumption].
  - apply StronglySorted_inv in Hs as [Hs _]. apply IH, Hs.
Qed.

Lemma StronglySorted_weaken {A} (R R' : A -> A -> Prop) (l : list A) :
  (forall a b, R a b -> R' a b) -> StronglySorted R l -> StronglySorted R' l.
Proof.
  intros HR. induction 1 as [| x l Hs IH Hx]; constructor; [exact IH |].
  eapply Forall_impl; [exact Hx | apply HR].
Qed.

Lemma newer_or_equal_trans : Relations_1.Transitive newer_or_equal.
Proof. intros a b c. unfold newer_or_equal. lia. Qed.

Lemma older_or_equal_trans : Relations_1.Transitive older_or_equal.
Proof. intros a b c. unfold older_or_equal. lia. Qed.

Lemma newest_first_strong (l : list entry) :
  newest_first l <-> StronglySorted newer_or_equal l.
Proof.
  split; [apply Sorted_StronglySorted, newer_or_equal_trans | apply StronglySorted_Sorted].
Qed.

Lemma sort_by_newest_key (l : list entry) :
  sort by_newest l = sort (key_cmp (fun e => - ts e)) l.
Proof.
  apply (sort_ext (fun e => - ts e)). intros a b. unfold by_newest, key_cmp, ts. lia.
Qed.

Lemma sort_by_newest_sorted (l : list entry) :
  StronglySorted newer_or_equal (sort by_newest l).
Proof.
  rewrite sort_by_newest_key.
  eapply StronglySorted_weaken; [| apply (sort_sorted (fun e => - ts e))].
  unfold newer_or_equal, key_le. cbn. intros a b. lia.
Qed.

Lemma sort_by_oldest_sorted (l : list entry) :
  StronglySorted older_or_equal (sort by_oldest l).
Proof.
  eapply StronglySorted_weaken; [| apply (sort_sorted entry_timestamp)].
  unfold older_or_equal, key_le, ts. cbn. intros a b. lia.
Qed.

Lemma sort_by_newest_perm (l : list entry) : Permutation (sort by_newest l) l.
Proof. rewrite sort_by_newest_key. apply (sort_perm (fun e => - ts e)). Qed.

Lemma sort_by_oldest_perm (l : list entry) : Permutation (sort by_oldest l) l.
Proof. apply (sort_perm entry_timestamp). Qed.

Lemma trimmed_sublist (l : list entry) : trimmed l `sublist_of` l.
Proof.
  unfold trimmed. destruct (maxEntries <? length l)%nat; [apply sublist_take | reflexivity].
Qed.

Lemma trimmed_length (l : list entry) : (length (trimmed l) <= maxEntries)%nat.
Proof.
  unfold trimmed. destruct (Nat.ltb_spec maxEntries (length l)) as [H | H]; [| exact H].
  rewrite length_take. lia.
Qed.

(** Whatever a successful save leaves in the slot is bounded and ordered. *)
Lemma saved_bounded_sorted (rs rs' : list entry) (e : entry) :
  rs' `sublist_of` trimmed (sort by_newest (rs ++ [e])) ->
  (length rs' <= maxEntries)%nat /\ newest_first rs'.
Proof.
  intros Hsub. split.
  - apply sublist_length in Hsub.
    pose proof (trimmed_length (sort by_newest (rs ++ [e]))). lia.
  - apply newest_first_strong.
    eapply StronglySorted_sublist_of; [exact Hsub |].
    eapply StronglySorted_sublist_of; [apply trimmed_sublist |].
    apply sort_by_newest_sorted.
Qed.

Lemma saveReading_store_inv (data : RheinPegelAPI.Reading Z) (w : world) :
  store_inv w -> store_inv (snd (saveReading data w)).
Proof.
  intros Hinv.
  destruct (saveReading_cases data w)
    as (b & w' & Heq & [[-> Hs] | (-> & rs & rs' & lu & Hrs & Hsub & Hs)]);
    rewrite Heq; cbn [snd]; unfold store_inv.
  - rewrite (stored_readings_slot w w' Hs). exact Hinv.
  - rewrite (stored_readings_written w' rs' lu Hs).
    exact (saved_bounded_sorted rs rs' _ Hsub).
Qed.

Lemma run_saves_store_inv (datas : list (RheinPegelAPI.Reading Z)) :
  forall w, store_inv w -> store_inv (run_saves datas w).
Proof.
  induction datas as [| data datas IH]; intros w Hinv; cbn; [exact Hinv |].
  apply IH, saveReading_store_inv, Hinv.
Qed.

(** The last element of a list in descending order is an oldest one. *)
Lemma sorted_last_oldest (kept : list entry) (evicted : entry) :
  StronglySorted newer_or_equal (kept ++ [evicted]) ->
  Forall (fun e => ts evicted <= ts e) kept.
Proof.
  intros Hs. apply Forall_forall. intros e He.
  apply (StronglySorted_app_1_elem_of newer_or_equal kept [evicted] e evicted Hs He).
  apply list_elem_of_singleton. reflexivity.
Qed.

(** Inserting into a full store: the 1441 entries in descending order, all
    but the last kept. *)
Lemma full_store_split (rs : list entry) (e : entry) :
  length rs = maxEntries ->
  exists kept evicted,
    sort by_newest (rs ++ [e]) = kept ++ [evicted]
    /\ length kept = maxEntries
    /\ trimmed (sort by_newest (rs ++ [e])) = kept.
Proof.
  intros Hlen.
  assert (Hlen' : length (sort by_newest (rs ++ [e])) = S maxEntries).
  { rewrite (Permutation_length (sort_by_newest_perm _)), length_app, Hlen.
    cbn [length]. lia. }
  destruct (sort by_newest (rs ++ [e])) as [| x l] eqn:Hsort using rev_ind;
    [discriminate |].
  clear IHl. rewrite length_app in Hlen'. cbn [length] in Hlen'.
  exists l, x. split; [reflexivity |].
  assert (Hl : length l = maxEntries) by lia.
  split; [exact Hl |].
  unfold trimmed. rewrite length_app. cbn [length].
  destruct (Nat.ltb_spec maxEntries (length l + 1)) as [_ | H]; [| lia].
  rewrite <- Hl. apply take_app_length.
Qed.
End StoreOrder.

(** ** History store: the readers *)
Section StoreReaders.
Import WaterLevelStorage.

Lemma getHistoricalData_run (hours : Z) (w : world) :
  exists w',
    getHistoricalData hours w
    = (Return (sort by_oldest
                 (filter_b (within (clock_now w - hours * 60 * 60 * 1000))
                           (stored_readings w))), w')
    /\ slot w' = slot w /\ faults w' = faults w
    /\ clock_now w' = clock_now w + hd 0 (ticks w).
Proof.
  unfold getHistoricalData, try_catch, mbind, M_bind, bind, stored_readings.
  rewrite getStorageData_load.
  destruct (Date_now_run w) as (w1 & Hnow & Hs & Hf & Hc & _). rewrite Hnow.
  exists w1. split; [| repeat split; assumption].
  unfold array_of. destruct (readings (load (slot w))); reflexivity.
Qed.

Lemma getLatestReading_run (w : world) :
  getLatestReading w = (Return (head (stored_readings w)), w).
Proof.
  unfold getLatestReading, try_catch, mbind, M_bind, bind, stored_readings.
  rewrite getStorageData_load. unfold array_of.
  destruct (readings (load (slot w))) as [[| e rs] |]; reflexivity.
Qed.

End StoreReaders.

Section History.
Import WaterLevelStorage.

Lemma setStorageData_quiet (data : storage) (w : world) :
  faults w = [] ->
  setStorageData data w
  = (Return tt, {| slot := Some (JSON_stringify data); faults := [];
                   clock_now := clock_now w; ticks := ticks w |}).
Proof.
  intros Hf. unfold setStorageData, try_catch, localStorage_setItem. rewrite Hf.
  reflexivity.
Qed.

(** A save on a store that works: the slot afterwards. *)
Lemma saveReading_quiet (data : RheinPegelAPI.Reading Z) (w : world) (rs : list entry) :
  faults w = [] ->
  readings (load (slot w)) = Some rs ->
  exists w',
    saveReading data w = (Return true, w')
    /\ faults w' = []
    /\ clock_now w' = clock_now w + hd 0 (ticks w) + hd 0 (tl (ticks w))
    /\ ticks w' = tl (tl (ticks w))
    /\ stored_readings w'
       = filter_b (within (clock_now w + hd 0 (ticks w) - maxAge))
                  (trimmed (sort by_newest (rs ++ [entry_of data]))).
Proof.
  intros Hf Hrs.
  unfold saveReading, try_catch, mbind, M_bind, bind.
  rewrite getStorageData_load. unfold array_of. rewrite Hrs. cbn [ret].
  unfold Date_now at 1. cbn [fst snd].
  rewrite setStorageData_quiet by exact Hf.
  unfold cleanOldData, try_catch, mbind, M_bind, bind.
  rewrite getStorageData_load. cbn [slot].
  rewrite load_version, load_stringify by reflexivity.
  unfold Date_now. cbn [readings array_of ret clock_now ticks slot faults version lastUpdated].
  rewrite setStorageData_quiet by reflexivity.
  eexists. split; [reflexivity |].
  cbn [faults clock_now ticks]. split; [reflexivity |]. split; [reflexivity |].
  split; [reflexivity |].
  unfold stored_readings. cbn [slot]. rewrite load_stringify by reflexivity.
  reflexivity.
Qed.

Lemma filter_b_elem_of (p : entry -> bool) (l : list entry) (e : entry) :
  e ∈ filter_b p l <-> e ∈ l /\ p e = true.
Proof.
  unfold filter_b. rewrite !list_elem_of_In. apply filter_In.
Qed.

(** The reading appended last survives the truncation when fewer than 1440
    stored readings are at least as new. *)
Lemma appended_kept (rs : list entry) (e : entry) :
  (length (filter_b (fun x => (ts e <=? ts x)%Z) rs) < maxEntries)%nat ->
  e ∈ trimmed (sort by_newest (rs ++ [e])).
Proof.
  intros Hcount.
  destruct (sort_last_position (fun x => - ts x) e rs)
    as (l1 & l2 & Hsort & Hlen & _ & _).
  rewrite <- sort_by_newest_key in Hsort.
  assert (Hl1 : (length l1 < maxEntries)%nat).
  { rewrite Hlen. unfold filter_b in Hcount.
    erewrite filter_ext; [exact Hcount |].
    intros x. cbn. destruct (Z.leb_spec (ts e) (ts x)), (Z.leb_spec (- ts x) (- ts e));
      try reflexivity; lia. }
  rewrite Hsort. unfold trimmed.
  destruct (maxEntries <? length (l1 ++ e :: l2))%nat.
  - rewrite take_app_ge by lia.
    apply elem_of_app. right.
    destruct (maxEntries - length l1)%nat as [| n] eqn:E; [lia |].
    cbn [take]. left.
  - apply elem_of_app. right. left.
Qed.
End History.

Section HistoryClaims.
Import WaterLevelStorage.

(** What [getHistoricalData] returns, for any store and any number of hours:
    the stored readings not older than the cutoff, oldest first. *)
Lemma getHistoricalData_exact (hours : Z) (w : world) :
  exists out w',
    getHistoricalData hours w = (Return out, w')
    /\ oldest_first out
    /\ Permutation out
         (filter_b (within (clock_now w - hours * 3600000)) (stored_readings w))
    /\ forall e, e ∈ out <->
                 e ∈ stored_readings w /\ clock_now w - hours * 3600000 <= ts e.
Proof.
  destruct (getHistoricalData_run hours w) as (w' & Heq & _).
  replace (hours * 60 * 60 * 1000) with (hours * 3600000) in Heq by lia.
  eexists _, w'. split; [exact Heq |].
  split; [apply StronglySorted_Sorted, sort_by_oldest_sorted |].
  split; [apply sort_by_oldest_perm |].
  intros e. rewrite (sort_by_oldest_perm _), filter_b_elem_of.
  unfold within, ts. rewrite Z.leb_le. reflexivity.
Qed.

(** C4, amended. For every store and every number of hours,
    [getHistoricalData] returns exactly the stored readings whose timestamp
    is at least the current time minus hours * 3600000 ms, oldest first.  A
    reading passed to [saveReading] is among the result of a following
    [getHistoricalData(24)] when its timestamp is within 24 hours of that
    later call, provided that the storage accepts the writes, the clock does
    not go back between the clean-up and the query, and fewer than 1440 stored
    readings are at least as new as the reading. *)
Theorem getHistoricalData_window (hours : Z) (w : world) :
  (exists out w',
      getHistoricalData hours w = (Return out, w')
      /\ oldest_first out
      /\ Permutation out
           (filter_b (within (clock_now w - hours * 3600000)) (stored_readings w))
      /\ forall e, e ∈ out <->
                   e ∈ stored_readings w /\ clock_now w - hours * 3600000 <= ts e)
  /\ forall (data : RheinPegelAPI.Reading Z) (rs : list entry),
      faults w = [] ->
      readings (load (slot w)) = Some rs ->
      0 <= hd 0 (tl (ticks w)) ->
      (length (filter_b (fun x => (ts (entry_of data) <=? ts x)%Z) rs) < maxEntries)%nat ->
      clock_now w + hd 0 (ticks w) + hd 0 (tl (ticks w)) - 24 * 3600000
      <= RheinPegelAPI.timestamp data ->
      exists w1 out w2,
        saveReading data w = (Return true, w1)
        /\ getHistoricalData 24 w1 = (Return out, w2)
        /\ entry_of data ∈ out.
Proof.
  split; [apply getHistoricalData_exact |].
  intros data rs Hf Hrs Htick Hcount Hfresh.
  destruct (saveReading_quiet data w rs Hf Hrs) as (w1 & Hsave & _ & Hclock & _ & Hstored).
  destruct (getHistoricalData_exact 24 w1) as (out & w2 & Hget & _ & _ & Hin).
  exists w1, out, w2. split; [exact Hsave |]. split; [exact Hget |].
  apply Hin. rewrite Hstored, filter_b_elem_of.
  change (ts (entry_of data)) with (RheinPegelAPI.timestamp data) in *.
  repeat split.
  - apply appended_kept, Hcount.
  - unfold within, maxAge. apply Z.leb_le.
    change (entry_timestamp (entry_of data)) with (RheinPegelAPI.timestamp data). lia.
  - lia.
Qed.

Lemma getHistoricalData_window_witness :
  faults (quiet_world None an_instant) = []
  /\ readings (load (slot (quiet_world None an_instant))) = Some []
  /\ exists w1 out w2,
      saveReading (sample_reading an_instant) (quiet_world None an_instant)
      = (Return true, w1)
      /\ getHistoricalData 24 w1 = (Return out, w2)
      /\ entry_of (sample_reading an_instant) ∈ out.
Proof.
  assert (H1 : faults (quiet_world None an_instant) = []) by reflexivity.
  assert (H2 : readings (load (slot (quiet_world None an_instant))) = Some [])
    by reflexivity.
  split; [exact H1 |]. split; [exact H2 |].
  apply (proj2 (getHistoricalData_window 24 (quiet_world None an_instant))
           (sample_reading an_instant) [] H1 H2).
  - cbn. lia.
  - cbn [filter_b List.filter length]. unfold maxEntries. lia.
  - cbn. unfold an_instant. lia.
Defined.

(** A full store of readings taken just now, and a reading taken one
    millisecond earlier: [saveReading] answers [true], yet the reading is not
    in the history of the last 24 hours. *)
Lemma saved_reading_missing :
  clock_now full_world - 24 * 3600000
  <= RheinPegelAPI.timestamp (sample_reading (an_instant - 1))
  /\ fst (saveReading (sample_reading (an_instant - 1)) full_world) = Return true
  /\ exists out,
      fst (getHistoricalData 24
             (snd (saveReading (sample_reading (an_instant - 1)) full_world)))
      = Return out
      /\ entry_of (sample_reading (an_instant - 1)) ∉ out.
Proof.
  split; [vm_compute; discriminate |].
  split; [vm_compute; reflexivity |].
  exists (replicate maxEntries (plain_entry an_instant)).
  split; [vm_compute; reflexivity |].
  intros Hin. apply elem_of_replicate_inv in Hin. discriminate Hin.
Qed.

(** The empty slot satisfies the invariant. *)
Lemma fresh_store_inv (fs : list (option js_error)) (now : Z) (tk : list Z) :
  store_inv {| slot := None; faults := fs; clock_now := now; ticks := tk |}.
Proof. split; [apply Nat.le_0_l | constructor]. Qed.

(** Saving a newer reading into the full store: it comes first and one of the
    1440 older readings is gone. *)
Example full_store_eviction :
  stored_readings (snd (saveReading (sample_reading (an_instant + 60000)) full_world))
  = plain_entry (an_instant + 60000)
    :: replicate (maxEntries - 1) (plain_entry an_instant).
Proof. vm_compute. reflexivity. Qed.

End HistoryClaims.
(** ** The retry loop *)
Section RetryLoop.
Import JsString Number RheinPegelAPI.

Lemma retry_log_ext (delay : Z) (url url' : nat -> string) (n : nat) :
  forall first,
    (forall k, (first <= k)%nat -> url k = url' k) ->
    retry_log delay url first n = retry_log delay url' first n.
Proof.
  induction n as [| n IH]; intros first Hext; [reflexivity |].
  cbn [retry_log]. rewrite (Hext first (Nat.le_refl _)).
  destruct n as [| n]; [reflexivity |].
  rewrite (IH (S first)); [reflexivity |].
  intros k Hk. apply Hext. lia.
Qed.

(** The loop from the second attempt on: the client is left as it is, and
    the attempts run until one succeeds or none is left. *)
Lemma attempts_steady env net (remaining : nat) :
  forall attempt this lastError log,
    (2 <= attempt)%nat ->
    (attempt + remaining = S (maxRetries this))%nat ->
    exists n res,
      attempts env net remaining attempt this lastError log
      = (res, this,
         log ++ retry_log (retryDelay this) (fun _ => request_url this) attempt n)
      /\ (n <= remaining)%nat
      /\ (forall k, (attempt <= k)%nat -> (S k < attempt + n)%nat ->
                    exists e, attempt_try env net k (request_url this) = Throw e)
      /\ match res with
         | Return data =>
             (1 <= n)%nat
             /\ attempt_try env net (attempt + n - 1) (request_url this) = Return data
         | Throw err =>
             n = remaining
             /\ match remaining with
                | O =>
                    err = match lastError with
                          | Some e => exhausted this e
                          | None => TypeError "Cannot read properties of null (reading 'message')"
                          end
                | S _ =>
                    exists e,
                      attempt_try env net (maxRetries this) (request_url this) = Throw e
                      /\ err = exhausted this e
                end
         end.
Proof.
  induction remaining as [| r IH]; intros attempt this lastError log Hge Hsum.
  - exists 0%nat. cbn [attempts]. destruct lastError as [e |];
      eexists; (split; [cbn [retry_log]; rewrite app_nil_r; reflexivity |]);
      (split; [lia |]); (split; [intros k H1 H2; lia |]);
      (split; [reflexivity | reflexivity]).
  - cbn [attempts]. fold (request_url this).
    destruct (attempt_try env net attempt (request_url this)) as [data | error] eqn:Htry.
    + exists 1%nat, (Return data). split; [reflexivity |].
      split; [lia |]. split; [intros k H1 H2; lia |].
      split; [lia |]. replace (attempt + 1 - 1)%nat with attempt by lia. exact Htry.
    + assert (Hne : Nat.eqb attempt 1 = false) by (apply Nat.eqb_neq; lia).
      rewrite Hne, andb_false_r.
      match goal with
      | |- context [attempts env net r (S attempt) this (Some error) ?lg] =>
          destruct (IH (S attempt) this (Some error) lg) as (n & res & Heq & Hn & Hfail & Hres);
            [lia | lia |]; rewrite Heq
      end.
      exists (S n), res.
      assert (Hlog : forall l : list event,
                 (log ++ [Request attempt (request_url this)]) ++ l
                 = log ++ Request attempt (request_url this) :: l).
      { intros l. rewrite <- app_assoc. reflexivity. }
      split.
      { f_equal. cbn [retry_log].
        destruct (Nat.ltb_spec attempt (maxRetries this)) as [Hlt | Hnlt].
        - (* a pause follows: more attempts are left *)
          assert (Hr : (0 < r)%nat) by lia.
          destruct n as [| n'].
          + exfalso. destruct res as [data | err]; [lia |].
            destruct Hres as [Hn0 _]. lia.
          + rewrite <- !app_assoc. reflexivity.
        - assert (Hr : r = 0%nat) by lia. subst r.
          assert (Hn0 : n = 0%nat) by lia. subst n.
          cbn [retry_log]. rewrite app_nil_r. reflexivity. }
      split; [lia |].
      split.
      { intros k H1 H2. destruct (Nat.eq_dec k attempt) as [-> | Hk].
        - exists error. exact Htry.
        - apply Hfail; lia. }
      destruct res as [data | err].
      * destruct Hres as [H1 H2]. split; [lia |].
        replace (attempt + S n - 1)%nat with (S attempt + n - 1)%nat by lia. exact H2.
      * destruct Hres as [-> Hres]. split; [reflexivity |].
        destruct r as [| r'].
        -- exists error. split; [| exact Hres].
           replace (maxRetries this) with attempt by lia. exact Htry.
        -- exact Hres.
Qed.

(** The whole call: its result, the client it leaves and its log. *)
Lemma fetchCurrentLevel_trace env net (this : client) :
  exists n res this',
    fetchCurrentLevel env net this
    = (res, this', retry_log (retryDelay this) (attempt_url this this') 1 n)
    /\ this' = (if engages env net this then set_useCorsProxy true this else this)
    /\ (n <= maxRetries this)%nat
    /\ (forall k, (1 <= k)%nat -> (k < n)%nat ->
                  exists e, attempt_try env net k (attempt_url this this' k) = Throw e)
    /\ match res with
       | Return data =>
           (1 <= n)%nat /\ attempt_try env net n (attempt_url this this' n) = Return data
       | Throw err =>
           n = maxRetries this
           /\ match n with
              | O => err = TypeError "Cannot read properties of null (reading 'message')"
              | S _ =>
                  exists e,
                    attempt_try env net n (attempt_url this this' n) = Throw e
                    /\ err = exhausted this e
              end
       end.
Proof.
  unfold fetchCurrentLevel, engages.
  destruct (maxRetries this) as [| r] eqn:HN.
  - exists 0%nat. cbn [attempts]. eexists _, _. split; [reflexivity |].
    rewrite andb_false_r. cbn [andb]. split; [reflexivity |].
    split; [lia |]. split; [intros k H1 H2; lia |]. split; reflexivity.
  - cbn [attempts]. fold (request_url this).
    change (0 <? S r)%nat with true. rewrite andb_true_r.
    destruct (attempt_try env net 1 (request_url this)) as [data | error] eqn:Htry.
    + exists 1%nat, (Return data), this. split; [reflexivity |].
      split.
      { unfold request_url in Htry. destruct (useCorsProxy this); [reflexivity |].
        cbn [negb andb]. rewrite Htry. reflexivity. }
      split; [lia |]. split; [intros k H1 H2; lia |].
      split; [lia | exact Htry].
    + set (this1 := if isCorsError error && negb (useCorsProxy this) && Nat.eqb 1 1
                    then set_useCorsProxy true this else this).
      assert (Hthis1 : this1 = if negb (useCorsProxy this)
                                  && match attempt_try env net 1 (apiUrl this) with
                                     | Throw e => isCorsError e
                                     | Return _ => false
                                     end
                               then set_useCorsProxy true this else this).
      { unfold this1, request_url in *. destruct (useCorsProxy this).
        - rewrite andb_false_r. reflexivity.
        - rewrite Htry. cbn [negb andb Nat.eqb]. rewrite !andb_true_r. reflexivity. }
      assert (Hsame : maxRetries this1 = S r /\ retryDelay this1 = retryDelay this).
      { unfold this1. destruct (isCorsError error && negb (useCorsProxy this) && Nat.eqb 1 1);
          cbn; split; congruence. }
      destruct Hsame as [HN1 Hdelay].
      match goal with
      | |- context [attempts env net r 2 this1 (Some error) ?lg] =>
          destruct (attempts_steady env net r 2 this1 (Some error) lg)
            as (n & res & Heq & Hn & Hfail & Hres); [lia | lia |]; rewrite Heq
      end.
      exists (S n), res, this1.
      assert (Hurl : forall k, (2 <= k)%nat -> attempt_url this this1 k = request_url this1).
      { intros k Hk. unfold attempt_url.
        destruct (Nat.eqb_spec k 1) as [-> | _]; [lia | reflexivity]. }
      split.
      { f_equal. cbn [retry_log app]. rewrite HN1, Hdelay.
        change (attempt_url this this1 1) with (request_url this).
        destruct (Nat.ltb_spec 1 (S r)) as [Hlt | Hnlt].
        - destruct n as [| n'].
          + exfalso. destruct res as [data | err]; [lia |].
            destruct Hres as [Hn0 _]. lia.
          + cbn [app]. do 2 f_equal.
            apply retry_log_ext. intros k Hk. symmetry. apply Hurl, Hk.
        - assert (Hn0 : n = 0%nat) by lia. subst n. reflexivity. }
      split; [exact Hthis1 |].
      split; [lia |].
      split.
      { intros k H1 H2. destruct (Nat.eq_dec k 1%nat) as [-> | Hk].
        - exists error. exact Htry.
        - rewrite Hurl by lia. apply Hfail; lia. }
      destruct res as [data | err].
      * destruct Hres as [H1 H2]. split; [lia |].
        rewrite Hurl by lia.
        replace (S n) with (2 + n - 1)%nat by lia. exact H2.
      * destruct Hres as [-> Hres]. split; [reflexivity |].
        assert (Hex : exhausted this1 = exhausted this).
        { unfold exhausted. rewrite HN1, HN. reflexivity. }
        destruct r as [| r'].
        -- exists error. split; [exact Htry |]. rewrite <- Hex. exact Hres.
        -- destruct Hres as (e & He & Herr). exists e.
           rewrite Hurl by lia. rewrite HN1 in He. split; [exact He |].
           rewrite <- Hex. exact Herr.
Qed.
End RetryLoop.

(** ** The client: schedule, outcome and transport of a call *)
Section ClientCalls.
Import JsString Number RheinPegelAPI.

Lemma retry_log_requested (delay : Z) (url : nat -> string) (n : nat) :
  forall first,
    requested (retry_log delay url first n)
    = map (fun k => (k, url k)) (seq first n).
Proof.
  induction n as [| n IH]; intros first; [reflexivity |].
  cbn [retry_log seq map]. destruct n as [| n]; [reflexivity |].
  change (requested (?a :: ?b :: ?l)) with ((first, url first) :: requested l).
  rewrite IH. reflexivity.
Qed.

Lemma retry_log_pauses (delay : Z) (url : nat -> string) (n : nat) :
  forall first,
    pauses (retry_log delay url first n)
    = map (fun k => delay * Z.of_nat k) (seq first (n - 1)).
Proof.
  induction n as [| n IH]; intros first; [reflexivity |].
  cbn [retry_log]. destruct n as [| n]; [reflexivity |].
  change (pauses (?a :: Delay ?ms :: ?l)) with (ms :: pauses l).
  rewrite IH. cbn [Nat.sub seq map]. rewrite Nat.sub_0_r. reflexivity.
Qed.

Lemma retry_log_In (delay : Z) (url : nat -> string) (n : nat) (k : nat) (u : string) :
  forall first,
    In (Request k u) (retry_log delay url first n)
    <-> (first <= k)%nat /\ (k < first + n)%nat /\ u = url k.
Proof.
  induction n as [| n IH]; intros first.
  - cbn. split; [intros [] | lia].
  - cbn [retry_log]. destruct n as [| n].
    + cbn [In]. split.
      * intros [Heq | []]. injection Heq as Hk Hu. subst k u.
        split; [lia |]. split; [lia | reflexivity].
      * intros (H1 & H2 & ->). left. assert (k = first) as -> by lia. reflexivity.
    + cbn [In]. rewrite IH. split.
      * intros [Heq | [Heq | (H1 & H2 & ->)]]; [| discriminate |].
        -- injection Heq as Hk Hu. subst k u.
           split; [lia |]. split; [lia | reflexivity].
        -- split; [lia |]. split; [lia | reflexivity].
      * intros (H1 & H2 & ->).
        destruct (Nat.eq_dec k first) as [-> | Hne]; [left; reflexivity |].
        right. right. split; [lia |]. split; [lia | reflexivity].
Qed.

Lemma retry_log_last (delay : Z) (url : nat -> string) (n : nat) :
  forall first,
    last (retry_log delay url first (S n))
    = Some (Request (first + n)%nat (url (first + n)%nat)).
Proof.
  induction n as [| n IH]; intros first.
  - cbn. rewrite Nat.add_0_r. reflexivity.
  - change (retry_log delay url first (S (S n)))
      with (Request first (url first) :: Delay (delay * Z.of_nat first)
            :: retry_log delay url (S first) (S n)).
    rewrite !last_cons, IH.
    replace (S first + n)%nat with (first + S n)%nat by lia. reflexivity.
Qed.

(** X1. The schedule of a call.  The attempts are numbered 1, 2, ... and
    there are at most [maxRetries] of them; attempt [k], when it is not the
    last one of the call, is followed by a pause of [retryDelay * k] ms (the
    pauses grow linearly), and nothing follows the last attempt.  A call that
    throws has made all [maxRetries] attempts. *)
Theorem fetchCurrentLevel_schedule env net (this : client) :
  let '(result, this', log) := fetchCurrentLevel env net this in
  exists n,
    (n <= maxRetries this)%nat
    /\ log = retry_log (retryDelay this) (attempt_url this this') 1 n
    /\ map fst (requested log) = seq 1 n
    /\ pauses log = map (fun k => retryDelay this * Z.of_nat k) (seq 1 (n - 1))
    /\ match result with
       | Return _ => (1 <= n)%nat
       | Throw _ => n = maxRetries this
       end.
Proof.
  destruct (fetchCurrentLevel_trace env net this)
    as (n & res & this' & Heq & _ & Hn & _ & Hres).
  rewrite Heq. exists n. split; [exact Hn |]. split; [reflexivity |].
  split.
  { rewrite retry_log_requested, map_map. cbn [fst]. apply map_id. }
  split; [apply retry_log_pauses |].
  destruct res as [data | err]; apply Hres.
Qed.

(** X2. The outcome of a call.  A call that returns hands out the reading of
    its last request, and every request before that one failed: the first
    attempt that succeeds ends the call.  A call that throws has either made
    no request at all ([maxRetries] is 0, and the error is a TypeError), or
    all its requests failed and the error is
    "Failed to fetch data after N attempts: " followed by the message of the
    error of attempt N. *)
Theorem fetchCurrentLevel_outcome env net (this : client) :
  let '(result, this', log) := fetchCurrentLevel env net this in
  match result with
  | Return data =>
      exists n u,
        last log = Some (Request n u)
        /\ attempt_try env net n u = Return data
        /\ forall k u', In (Request k u') log -> k <> n ->
                        exists e, attempt_try env net k u' = Throw e
  | Throw err =>
      (forall k u, In (Request k u) log -> exists e, attempt_try env net k u = Throw e)
      /\ ((maxRetries this = 0%nat /\ log = [] /\ name err = "TypeError")
          \/ exists u e,
               last log = Some (Request (maxRetries this) u)
               /\ attempt_try env net (maxRetries this) u = Throw e
               /\ err = Error ("Failed to fetch data after " +:+ of_nat (maxRetries this)
                               +:+ " attempts: " +:+ message e))
  end.
Proof.
  destruct (fetchCurrentLevel_trace env net this)
    as (n & res & this' & Heq & _ & Hn & Hfail & Hres).
  rewrite Heq. destruct res as [data | err].
  - destruct Hres as [H1 Htry].
    destruct n as [| m]; [lia |].
    exists (S m), (attempt_url this this' (S m)).
    split; [apply (retry_log_last _ _ m 1) |].
    split; [exact Htry |].
    intros k u' Hin Hk. apply retry_log_In in Hin as (Hk1 & Hk2 & ->).
    apply Hfail; lia.
  - destruct Hres as [-> Hres]. split.
    + intros k u Hin. apply retry_log_In in Hin as (Hk1 & Hk2 & ->).
      destruct (Nat.eq_dec k (maxRetries this)) as [-> | Hne].
      * destruct (maxRetries this) as [| m]; [lia |].
        destruct Hres as (e & He & _). exists e. exact He.
      * apply Hfail; lia.
    + destruct (maxRetries this) as [| m] eqn:HN.
      * left. subst err. repeat split.
      * right. destruct Hres as (e & He & ->).
        exists (attempt_url this this' (S m)), e.
        split; [apply (retry_log_last _ _ m 1) |].
        split; [exact He |].
        unfold exhausted. rewrite HN. reflexivity.
Qed.

Lemma fetchCurrentLevel_outcome_witness :
  exists u data,
    last (snd (fetchCurrentLevel sample_env flaky_network sample_client))
    = Some (Request 3 u)
    /\ attempt_try sample_env flaky_network 3 u = Return data.
Proof.
  pose proof (fetchCurrentLevel_outcome sample_env flaky_network sample_client) as H.
  assert (Hlast : last (snd (fetchCurrentLevel sample_env flaky_network sample_client))
                  = Some (Request 3 (proxied_url sample_client)))
    by (vm_compute; reflexivity).
  destruct (fetchCurrentLevel sample_env flaky_network sample_client)
    as [[[data | err] this'] log].
  - destruct H as (n & u & Hn & Htry & _). cbn [snd] in Hlast.
    rewrite Hlast in Hn. injection Hn as <- <-.
    exists (proxied_url sample_client), data. split; [exact Hlast | exact Htry].
  - exfalso. destruct H as (Hall & _). cbn [snd] in Hlast.
    destruct (Hall 3%nat (proxied_url sample_client)) as (e & He).
    + clear Hall. induction log as [| ev log IH] using rev_ind; [discriminate |].
      rewrite last_snoc in Hlast. injection Hlast as ->.
      apply in_or_app. right. left. reflexivity.
    + vm_compute in He. discriminate He.
Defined.

(** X3. What a call does to the client.  Only the flag [useCorsProxy] can
    change, and only from clear to set; it is set exactly when it was clear,
    there is a first attempt and that attempt fails with an error that
    [isCorsError] accepts.  An error of the second or a later attempt never
    engages the proxy.  When the proxy is not engaged by the call, every
    request of the call goes to the URL the flag selected on entry. *)
Theorem fetchCurrentLevel_engages env net (this : client) :
  let '(result, this', log) := fetchCurrentLevel env net this in
  this' = (if engages env net this then set_useCorsProxy true this else this)
  /\ (engages env net this = false ->
      this' = this /\ forall a u, In (Request a u) log -> u = request_url this).
Proof.
  destruct (fetchCurrentLevel_trace env net this)
    as (n & res & this' & Heq & Hthis & _).
  rewrite Heq. split; [exact Hthis |].
  intros Hno. rewrite Hno in Hthis. subst this'. split; [reflexivity |].
  intros a u Hin. apply retry_log_In in Hin as (_ & _ & ->).
  unfold attempt_url. destruct (Nat.eqb a 1); reflexivity.
Qed.

Lemma fetchCurrentLevel_engages_witness :
  engages sample_env abort_then_cors sample_client = false
  /\ snd (fst (fetchCurrentLevel sample_env abort_then_cors sample_client)) = sample_client
  /\ forall a u,
      In (Request a u) (snd (fetchCurrentLevel sample_env abort_then_cors sample_client)) ->
      u = apiUrl sample_client.
Proof.
  assert (H1 : engages sample_env abort_then_cors sample_client = false) by reflexivity.
  split; [exact H1 |].
  pose proof (fetchCurrentLevel_engages sample_env abort_then_cors sample_client) as H.
  destruct (fetchCurrentLevel sample_env abort_then_cors sample_client)
    as [[result this'] log].
  exact (proj2 H H1).
Defined.
End ClientCalls.

(** ** The client: what engages the proxy and what does not *)
Section ClientTransport.
Import JsString Number RheinPegelAPI.

Lemma string_of_uint_digits (u : Decimal.uint) :
  all is_digit (NilEmpty.string_of_uint u) = true.
Proof. induction u; cbn; auto. Qed.

Lemma of_nat_digits (n : nat) : all is_digit (of_nat n) = true.
Proof. apply string_of_uint_digits. Qed.

(** A pattern that begins with a letter does not occur in a string of
    digits. *)
Lemma includes_digits (c : ascii) (pat ds : string) :
  is_digit c = false -> all is_digit ds = true ->
  includes (String c pat) ds = false.
Proof.
  intros Hc. induction ds as [| d ds IH]; cbn [all includes starts_with]; [reflexivity |].
  intros H. apply andb_prop in H as [Hd Hds].
  rewrite (IH Hds), orb_false_r.
  destruct (Ascii.eqb_spec c d) as [-> | _]; [congruence | reflexivity].
Qed.

(** The error of a response with a bad status is not taken for a
    cross-origin rejection. *)
Lemma http_error_not_cors (n : nat) :
  isCorsError (Error ("HTTP error! status: " +:+ of_nat n)) = false.
Proof.
  unfold isCorsError, Error. cbn [message name].
  pose proof (of_nat_digits n) as Hd.
  generalize dependent (of_nat n). intros ds Hd.
  rewrite !append_cons, append_nil_l.
  cbn [includes starts_with Ascii.eqb Bool.eqb andb orb String.eqb].
  rewrite !(includes_digits _ _ ds) by (reflexivity || exact Hd).
  reflexivity.
Qed.

(** X4. A response with a status outside 200..299 to the first request does
    not engage the proxy: the client is left as it was and every retry goes
    to the same URL. *)
Theorem http_status_keeps_transport env net (this : client) (resp : response) :
  fetch net 1 (request_url this) = Return resp ->
  ok resp = false ->
  let '(result, this', log) := fetchCurrentLevel env net this in
  this' = this /\ forall a u, In (Request a u) log -> u = request_url this.
Proof.
  intros Hfetch Hok.
  assert (Hno : engages env net this = false).
  { unfold engages. unfold request_url in Hfetch.
    destruct (useCorsProxy this); [reflexivity |].
    unfold attempt_try. rewrite Hfetch. cbn [bind_c]. rewrite Hok. cbn [negb andb].
    rewrite http_error_not_cors. apply andb_false_r. }
  destruct (fetchCurrentLevel_trace env net this)
    as (n & res & this' & Heq & Hthis & _).
  rewrite Heq. rewrite Hno in Hthis. subst this'. split; [reflexivity |].
  intros a u Hin. apply retry_log_In in Hin as (_ & _ & ->).
  unfold attempt_url. destruct (Nat.eqb a 1); reflexivity.
Qed.

Lemma http_status_keeps_transport_witness :
  fetch failing_server 1 (request_url sample_client)
  = Return {| ok := false; status := 503; text := "" |}
  /\ snd (fst (fetchCurrentLevel sample_env failing_server sample_client)) = sample_client
  /\ forall a u,
      In (Request a u) (snd (fetchCurrentLevel sample_env failing_server sample_client)) ->
      u = apiUrl sample_client.
Proof.
  assert (H1 : fetch failing_server 1 (request_url sample_client)
               = Return {| ok := false; status := 503; text := "" |}) by reflexivity.
  split; [exact H1 |].
  pose proof (http_status_keeps_transport sample_env failing_server sample_client _
                H1 eq_refl) as H.
  destruct (fetchCurrentLevel sample_env failing_server sample_client)
    as [[result this'] log].
  exact H.
Defined.

(** X5. Switching the transport by hand.  After [enableCorsProxy] every
    request of the next call goes through the proxy, which is the argument
    when that is a non-empty string and the proxy configured before
    otherwise; after [disableCorsProxy] the next call sends its first request
    to [apiUrl] itself. *)
Theorem enableCorsProxy_routes env net (this : client) (proxyUrl : option string) :
  (forall a u,
      In (Request a u) (snd (fetchCurrentLevel env net (enableCorsProxy proxyUrl this))) ->
      u = match proxyUrl with
          | Some p => if is_empty p then corsProxyUrl this else p
          | None => corsProxyUrl this
          end +:+ apiUrl this)
  /\ ((0 < maxRetries this)%nat ->
      hd_error (snd (fetchCurrentLevel env net (disableCorsProxy this)))
      = Some (Request 1 (apiUrl this))).
Proof.
  split.
  - intros a u Hin. unfold fetchCurrentLevel in Hin.
    set (this1 := enableCorsProxy proxyUrl this) in *.
    assert (Hflag : useCorsProxy this1 = true).
    { unfold this1, enableCorsProxy.
      destruct proxyUrl as [p |]; [destruct (is_empty p) |]; reflexivity. }
    pose proof (attempts_latched env net (maxRetries this1) 1 this1 None [] Hflag) as H.
    destruct (attempts env net (maxRetries this1) 1 this1 None []) as [[res this'] log].
    destruct H as (_ & events & -> & Hevents).
    rewrite (Hevents a u Hin).
    unfold this1, enableCorsProxy, proxied_url.
    destruct proxyUrl as [p |]; [destruct (is_empty p) |]; reflexivity.
  - intros Hmax. unfold fetchCurrentLevel.
    change (maxRetries (disableCorsProxy this)) with (maxRetries this).
    destruct (maxRetries this) as [| r] eqn:HN; [lia |].
    cbn [attempts disableCorsProxy set_useCorsProxy useCorsProxy apiUrl app].
    destruct (attempt_try env net 1 (apiUrl this)) as [data | error]; [reflexivity |].
    match goal with
    | |- context [attempts env net r 2 ?t ?le ?lg] =>
        destruct (attempts_steady env net r 2 t le lg) as (n & res & Heq & _);
          [lia | cbn; rewrite ?HN; destruct (_ && _); cbn; lia |]; rewrite Heq
    end.
    cbn [snd]. destruct (_ <? _)%nat; reflexivity.
Qed.

Lemma enableCorsProxy_routes_witness :
  (0 < maxRetries sample_client)%nat
  /\ hd_error (snd (fetchCurrentLevel sample_env flaky_network
                      (disableCorsProxy sample_client)))
     = Some (Request 1 (apiUrl sample_client)).
Proof.
  assert (H : (0 < maxRetries sample_client)%nat) by (cbn; lia).
  split; [exact H |].
  exact (proj2 (enableCorsProxy_routes sample_env flaky_network sample_client None) H).
Defined.

(** X6. [testConnection] is not a mere probe: it answers [false] exactly
    when the call it makes throws, and it leaves the client as that call
    does, so a test whose first attempt is rejected as cross-origin engages
    the proxy, also when the answer is [false]. *)
Theorem testConnection_engages env net (this : client) :
  snd (testConnection env net this)
  = (if engages env net this then set_useCorsProxy true this else this)
  /\ (fst (testConnection env net this) = false
      <-> exists err, fst (fst (fetchCurrentLevel env net this)) = Throw err)
  /\ forall e,
      useCorsProxy this = false -> (0 < maxRetries this)%nat ->
      isCorsError e = true ->
      testConnection env (dead_network e) this
      = (false, set_useCorsProxy true this).
Proof.
  assert (Hsnd : forall env net,
             snd (testConnection env net this)
             = (if engages env net this then set_useCorsProxy true this else this)).
  { intros env' net'. unfold testConnection.
    destruct (fetchCurrentLevel_trace env' net' this)
      as (n & res & this' & Heq & Hthis & _).
    rewrite Heq. destruct res; exact Hthis. }
  assert (Hfst : forall env net,
             fst (testConnection env net this) = false
             <-> exists err, fst (fst (fetchCurrentLevel env net this)) = Throw err).
  { intros env' net'. unfold testConnection.
    destruct (fetchCurrentLevel env' net' this) as [[[data | err] this'] log]; cbn.
    - split; [discriminate | intros [err H]; discriminate H].
    - split; [intros _; exists err; reflexivity | reflexivity]. }
  split; [apply Hsnd |]. split; [apply Hfst |].
  intros e Hflag Hmax Hcors.
  specialize (Hsnd env (dead_network e)).
  assert (Heng : engages env (dead_network e) this = true).
  { unfold engages. rewrite Hflag. cbn [negb andb].
    destruct (Nat.ltb_spec 0 (maxRetries this)) as [_ | H]; [| lia].
    cbn. exact Hcors. }
  rewrite Heng in Hsnd.
  assert (Hfalse : fst (testConnection env (dead_network e) this) = false).
  { apply Hfst.
    pose proof (fetchCurrentLevel_trace env (dead_network e) this)
      as (n & res & this' & Heq & _ & _ & _ & Hres).
    rewrite Heq. cbn [fst]. destruct res as [data | err]; [| exists err; reflexivity].
    destruct Hres as [_ Hres]. discriminate Hres. }
  destruct (testConnection env (dead_network e) this) as [b this'].
  cbn in Hsnd, Hfalse. subst. reflexivity.
Qed.

Lemma testConnection_engages_witness :
  useCorsProxy sample_client = false
  /\ isCorsError failed_to_fetch = true
  /\ testConnection sample_env (dead_network failed_to_fetch) sample_client
     = (false, set_useCorsProxy true sample_client).
Proof.
  assert (H1 : useCorsProxy sample_client = false) by reflexivity.
  assert (H2 : (0 < maxRetries sample_client)%nat) by (cbn; lia).
  assert (H3 : isCorsError failed_to_fetch = true) by reflexivity.
  split; [exact H1 |]. split; [exact H3 |].
  exact (proj2 (proj2 (testConnection_engages sample_env flaky_network sample_client))
           failed_to_fetch H1 H2 H3).
Defined.

(** X7. A client made by the constructor.  Its [apiUrl] is never empty: it
    is the argument when that is a non-empty string, and the default
    otherwise; the default is the endpoint of the local proxy server when the
    page comes from localhost, 127.0.0.1 or no host and has a port, and the
    Cologne endpoint otherwise.  The first request of its first call goes to
    that URL itself, and a call makes at most three requests, pausing 1000 ms
    after the first and 2000 ms after the second. *)
Theorem new_RheinPegelAPI_first_call env net (location : window_location)
    (apiUrl0 : option string) :
  let this := new_RheinPegelAPI location apiUrl0 in
  let '(result, this', log) := fetchCurrentLevel env net this in
  is_empty (apiUrl this) = false
  /\ (forall u, apiUrl0 = Some u -> is_empty u = false -> apiUrl this = u)
  /\ (apiUrl0 = None \/ apiUrl0 = Some EmptyString ->
      apiUrl this = getDefaultApiUrl location)
  /\ hd_error log = Some (Request 1 (apiUrl this))
  /\ (length (requested log) <= 3)%nat
  /\ pauses log `prefix_of` [1000; 2000].
Proof.
  intros this.
  assert (Hdefault : is_empty (getDefaultApiUrl location) = false).
  { unfold getDefaultApiUrl. destruct (_ && _); reflexivity. }
  assert (Hurl : is_empty (apiUrl this) = false).
  { unfold this, new_RheinPegelAPI. cbn [constructor apiUrl].
    destruct apiUrl0 as [u |]; [| exact Hdefault].
    destruct (is_empty u) eqn:Hu; [exact Hdefault | exact Hu]. }
  destruct (fetchCurrentLevel_trace env net this)
    as (n & res & this' & Heq & _ & Hn & _ & Hres).
  rewrite Heq. split; [exact Hurl |].
  split.
  { intros u -> Hu. unfold this, new_RheinPegelAPI. rewrite Hu. reflexivity. }
  split.
  { intros [-> | ->]; reflexivity. }
  change (maxRetries this) with 3%nat in Hn, Hres.
  change (retryDelay this) with 1000.
  split.
  { destruct n as [| n]; [| reflexivity].
    destruct res as [data | err]; [lia |]. destruct Hres as [H _]. discriminate H. }
  split.
  { rewrite retry_log_requested, length_map, length_seq. exact Hn. }
  rewrite retry_log_pauses.
  destruct n as [| [| [| [| n]]]]; try lia; cbn.
  - exists [1000; 2000]. reflexivity.
  - exists [1000; 2000]. reflexivity.
  - exists [2000]. reflexivity.
  - exists []. reflexivity.
Qed.

Lemma new_RheinPegelAPI_first_call_witness :
  apiUrl (new_RheinPegelAPI {| hostname := "127.0.0.1"; port := "3000" |} None)
  = "http://localhost:3000/api/pegel".
Proof.
  pose proof (new_RheinPegelAPI_first_call sample_env flaky_network
                {| hostname := "127.0.0.1"; port := "3000" |} None) as H.
  cbv zeta in H.
  destruct (fetchCurrentLevel sample_env flaky_network
              (new_RheinPegelAPI {| hostname := "127.0.0.1"; port := "3000" |} None))
    as [[result this'] log].
  destruct H as (_ & _ & Hdefault & _).
  rewrite (Hdefault (or_introl eq_refl)). reflexivity.
Defined.
End ClientTransport.

(** ** The level: tolerated input, and what is never returned *)
Section LevelFormats.
Import JsString Number RheinPegelAPI.

Lemma append_assoc (a b c : string) : (a +:+ b) +:+ c = a +:+ (b +:+ c).
Proof.
  induction a as [| x a IH]; [reflexivity |].
  rewrite !append_cons, IH. reflexivity.
Qed.

Lemma trimStart_app_space (ws s : string) :
  all is_white_space ws = true -> trimStart (ws +:+ s) = trimStart s.
Proof.
  induction ws as [| c ws IH]; [reflexivity |].
  cbn [all]. intros H. apply andb_prop in H as [Hc Hws].
  rewrite append_cons. cbn [trimStart]. rewrite Hc. apply IH, Hws.
Qed.

Lemma trimEnd_app_no_space (s rest : string) :
  all (fun c => negb (is_white_space c)) s = true ->
  trimEnd (s +:+ rest) = s +:+ trimEnd rest.
Proof.
  induction s as [| c s IH]; [reflexivity |].
  cbn [all]. intros H. apply andb_prop in H as [Hc Hs].
  rewrite !append_cons. cbn [trimEnd]. rewrite (IH Hs).
  apply negb_true_iff in Hc. rewrite Hc, andb_false_r. reflexivity.
Qed.

(** What [trimEnd] leaves begins as the text did. *)
Lemma trimEnd_head (r : string) :
  match trimEnd r with
  | String c _ => exists r', r = String c r'
  | EmptyString => True
  end.
Proof.
  destruct r as [| c r]; cbn [trimEnd]; [exact I |].
  destruct (is_empty (trimEnd r) && is_white_space c); [exact I |].
  exists r. reflexivity.
Qed.

Lemma ends_number_trimEnd (rest : string) :
  ends_number rest = true -> ends_number (trimEnd rest) = true.
Proof.
  intros H. pose proof (trimEnd_head rest) as Hhead.
  destruct (trimEnd rest) as [| c t]; [reflexivity |].
  destruct Hhead as [r' ->]. exact H.
Qed.

(** [parseFloat] on the text [D.FF] followed by something that is not part
    of the number. *)
Lemma parseFloat_decimal_rest (D FF rest : string) :
  german_decimal D FF = true ->
  ends_number rest = true ->
  parseFloat (D +:+ String "." (FF +:+ rest))
  = of_decimal false (100 * digits_value D + digits_value FF) (-2).
Proof.
  unfold german_decimal. intros H Hrest.
  apply andb_prop in H as [H HFF]. apply andb_prop in H as [H Hlen].
  apply andb_prop in H as [Hne HD]. apply Nat.eqb_eq in Hlen.
  destruct D as [| c D]; [discriminate |].
  pose proof HD as HD'. cbn in HD'. apply andb_prop in HD' as [Hc _].
  set (tail := String "." (FF +:+ rest)).
  unfold parseFloat.
  assert (Htrim : trimStart (String c D +:+ tail) = String c D +:+ tail).
  { rewrite append_cons. cbn [trimStart].
    rewrite (is_digit_not_space c Hc). reflexivity. }
  rewrite Htrim.
  assert (Hsign : scan_sign (String c D +:+ tail) = (false, String c D +:+ tail)).
  { rewrite append_cons.
    destruct c as [[] [] [] [] [] [] [] []]; try discriminate Hc; reflexivity. }
  rewrite Hsign.
  assert (Hscan : scan_unsigned (String c D +:+ tail)
                  = Some (LitDecimal (String c D) FF 0)).
  { unfold scan_unsigned.
    assert (Hinf : starts_with "Infinity" (String c D +:+ tail) = false).
    { rewrite append_cons. cbn [starts_with].
      destruct (Ascii.eqb_spec "I" c) as [<- | _]; [discriminate Hc | reflexivity]. }
    rewrite Hinf. unfold tail.
    rewrite (span_all is_digit (String c D) (String "." (FF +:+ rest)) HD eq_refl).
    assert (Hspan : span is_digit (FF +:+ rest) = (FF, rest)).
    { apply span_all; [exact HFF |].
      destruct rest as [| x rest]; [exact I |].
      cbn in Hrest. apply negb_true_iff in Hrest.
      apply orb_false_elim in Hrest as [Hrest _].
      apply orb_false_elim in Hrest as [Hrest _]. exact Hrest. }
    rewrite Hspan.
    assert (Hexp : scan_exponent rest = 0).
    { destruct rest as [| x rest]; [reflexivity |].
      cbn in Hrest. apply negb_true_iff in Hrest.
      apply orb_false_elim in Hrest as [Hrest HE].
      apply orb_false_elim in Hrest as [_ He].
      cbn [scan_exponent]. rewrite He, HE. reflexivity. }
    rewrite Hexp. reflexivity. }
  rewrite Hscan, (digits_value_two _ _ Hlen), Hlen. reflexivity.
Qed.

(** Hundredths of a metre, read as a decimal and turned into centimetres. *)
Lemma round_decimal_exact (N : Z) :
  0 <= N < exact_levels ->
  Math_round (mul (of_decimal false N (-2)) (of_Z 100)) = of_Z N.
Proof.
  intros [H0 Hlt]. destruct N as [| N | N]; [reflexivity | | lia].
  apply (conversion_exact N). exact Hlt.
Qed.

(** X8. White space before the level and any text behind it that starts with
    neither a digit nor an exponent mark are ignored: for digits [D], two
    digits [FF] and a level below 2^40 cm, the text [D,FF] with such
    surroundings converts to exactly 100 * D + FF.  So "3,68 m" and a level
    followed by a line break give the same number as the bare level. *)
Theorem convertGermanDecimal_tolerant (ws D FF rest : string) :
  all is_white_space ws = true ->
  german_decimal D FF = true ->
  ends_number rest = true ->
  100 * digits_value D + digits_value FF < exact_levels ->
  convertGermanDecimal (ws +:+ D +:+ String "," (FF +:+ rest))
  = Return (of_Z (100 * digits_value D + digits_value FF)).
Proof.
  intros Hws H Hrest Hbound.
  assert (Hparts : negb (is_empty D) = true /\ all is_digit D = true
                   /\ all is_digit FF = true).
  { unfold german_decimal in H. apply andb_prop in H as [H HFF].
    apply andb_prop in H as [H _]. apply andb_prop in H as [Hne HD]. auto. }
  destruct Hparts as (Hne & HD & HFF).
  assert (Htrim : trim (ws +:+ D +:+ String "," (FF +:+ rest))
                  = D +:+ String "," (FF +:+ trimEnd rest)).
  { unfold trim. rewrite (trimStart_app_space ws _ Hws).
    assert (Hstart : trimStart (D +:+ String "," (FF +:+ rest))
                     = D +:+ String "," (FF +:+ rest)).
    { destruct D as [| c D]; [discriminate |].
      cbn in HD. apply andb_prop in HD as [Hc _].
      rewrite append_cons. cbn [trimStart].
      rewrite (is_digit_not_space c Hc). reflexivity. }
    rewrite Hstart.
    replace (D +:+ String "," (FF +:+ rest)) with ((D +:+ String "," FF) +:+ rest)
      by (rewrite append_assoc, append_cons; reflexivity).
    rewrite trimEnd_app_no_space.
    - rewrite append_assoc, append_cons. reflexivity.
    - rewrite all_app. cbn [all].
      rewrite (all_impl is_digit _ D), (all_impl is_digit _ FF); try assumption;
        try reflexivity;
        intros c Hc; rewrite (is_digit_not_space c Hc); reflexivity. }
  unfold convertGermanDecimal. rewrite Htrim.
  rewrite (replace_comma D (FF +:+ trimEnd rest) HD).
  rewrite (parseFloat_decimal_rest D FF (trimEnd rest) H (ends_number_trimEnd rest Hrest)).
  rewrite of_decimal_isNaN. cbn [catch_c]. f_equal.
  apply round_decimal_exact. split; [| exact Hbound].
  pose proof (digits_value_from_nonneg D HD 0 (Z.le_refl 0)) as H1.
  pose proof (digits_value_from_nonneg FF HFF 0 (Z.le_refl 0)) as H2.
  fold (digits_value D) in H1. fold (digits_value FF) in H2. lia.
Qed.

Lemma convertGermanDecimal_tolerant_witness :
  all is_white_space " " = true
  /\ german_decimal "3" "68" = true
  /\ ends_number " m" = true
  /\ convertGermanDecimal (" " +:+ "3" +:+ String "," ("68" +:+ " m")) = Return (of_Z 368).
Proof.
  split; [reflexivity |]. split; [reflexivity |]. split; [reflexivity |].
  apply (convertGermanDecimal_tolerant " " "3" "68" " m"); reflexivity.
Defined.

Lemma of_Z_isNaN (z : Z) : isNaN (of_Z z) = false.
Proof.
  unfold of_Z, binary_normalize.
  destruct z as [| p | p]; [reflexivity | |];
    unfold binary_round;
    match goal with |- context [shl_align ?a ?b ?c] => destruct (shl_align a b c) as [mz ez] end;
    apply binary_round_aux_isNaN; lia.
Qed.

Lemma Math_round_isNaN (x : number) : isNaN x = false -> isNaN (Math_round x) = false.
Proof.
  destruct x as [s | s | | s m e]; cbn [Math_round]; try (intros H; exact H).
  intros _. destruct (0 <=? e); [reflexivity |].
  match goal with |- context [if ?c then _ else _] => destruct c end;
    [reflexivity | apply of_Z_isNaN].
Qed.

Lemma mul_100_isNaN (x : number) : isNaN x = false -> isNaN (mul x (of_Z 100)) = false.
Proof.
  assert (H100 : exists m e, of_Z 100 = S754_finite false m e)
    by (eexists _, _; vm_compute; reflexivity).
  destruct H100 as (m & e & ->).
  destruct x as [s | s | | s mx ex]; cbn [mul SFmul]; try reflexivity; try discriminate.
  intros _. unfold mul, SFmul. apply binary_round_aux_isNaN. lia.
Qed.

(** X9. The conversion never hands out NaN: it either returns a number, or
    throws the error "Number conversion failed: Invalid number format: "
    followed by the text as it was given.  Infinity is a number in this
    sense: the text "Infinity" is converted to it. *)
Theorem convertGermanDecimal_never_NaN (germanNumber : string) :
  match convertGermanDecimal germanNumber with
  | Return centimeters => isNaN centimeters = false
  | Throw e =>
      e = Error ("Number conversion failed: Invalid number format: " +:+ germanNumber)
  end
  /\ convertGermanDecimal "Infinity" = Return (Infinity false)
  /\ convertGermanDecimal "-Infinity" = Return (Infinity true).
Proof.
  split; [| split; vm_compute; reflexivity].
  unfold convertGermanDecimal.
  destruct (isNaN (parseFloat (replace "," "." (trim germanNumber)))) eqn:HNaN;
    cbn [catch_c]; [reflexivity |].
  apply Math_round_isNaN, mul_100_isNaN, HNaN.
Qed.
End LevelFormats.

(** ** The parser: every way out of [parseXMLResponse] *)
Section ParserOutcomes.
Import JsString Number RheinPegelAPI.

(** A Reading is returned only for a document with the three fields and a
    level that begins with a number. *)
Lemma parseXMLResponse_returned env now (xmlString : string) (r : Reading number) :
  parseXMLResponse env now xmlString = Return r ->
  exists datum uhrzeit pegel,
    fields_present env xmlString datum uhrzeit pegel
    /\ numeric_prefix (replace "," "." (trim pegel)) = true
    /\ r = {| waterLevel := convert_spec (trim pegel);
              date := trim datum;
              time := trim uhrzeit;
              timestamp := parseGermanDateTime env now datum uhrzeit;
              graphic := graphic_of (DOMParser_text env xmlString "Grafik") |}.
Proof.
  intros Hparse.
  destruct (DOMParser_text env xmlString "parsererror") as [textContent |] eqn:Herr.
  { unfold parseXMLResponse in Hparse. rewrite Herr in Hparse. discriminate Hparse. }
  destruct (falsy (DOMParser_text env xmlString "Datum")
            || falsy (DOMParser_text env xmlString "Uhrzeit")
            || falsy (DOMParser_text env xmlString "Pegel")) eqn:Hmissing.
  { rewrite (parseXMLResponse_missing env now xmlString Herr Hmissing) in Hparse.
    discriminate Hparse. }
  apply orb_false_elim in Hmissing as [Hmissing Hp].
  apply orb_false_elim in Hmissing as [Hd Hu].
  destruct (DOMParser_text env xmlString "Datum") as [datum |] eqn:Ed; [| discriminate].
  destruct (DOMParser_text env xmlString "Uhrzeit") as [uhrzeit |] eqn:Eu; [| discriminate].
  destruct (DOMParser_text env xmlString "Pegel") as [pegel |] eqn:Ep; [| discriminate].
  cbn [falsy] in Hd, Hu, Hp.
  assert (Hfields : fields_present env xmlString datum uhrzeit pegel).
  { repeat split; assumption. }
  rewrite (parseXMLResponse_present env now xmlString datum uhrzeit pegel Hfields) in Hparse.
  destruct (numeric_prefix (replace "," "." (trim pegel))) eqn:Hnum; [| discriminate].
  injection Hparse as <-.
  exists datum, uhrzeit, pegel. split; [exact Hfields |]. split; [exact Hnum | reflexivity].
Qed.

(** X10. The ways out of [parseXMLResponse].  It throws in three cases and
    no other: the document carries a parser error (whatever else it holds),
    or one of the fields Datum, Uhrzeit and Pegel is missing or empty, or the
    level does not begin with a number; the error is an [Error] whose message
    starts with "XML parsing failed: " and goes on with the parser's text,
    with "Missing required fields in XML response", or with the message of
    the number conversion.  In every other case it returns the Reading: no
    date and no time makes it throw. *)
Theorem parseXMLResponse_outcomes env now (xmlString : string) :
  match parseXMLResponse env now xmlString with
  | Throw e =>
      name e = "Error"
      /\ is_ParseError e = true
      /\ ((exists textContent,
              DOMParser_text env xmlString "parsererror" = Some textContent
              /\ message e = "XML parsing failed: XML parsing error: " +:+ textContent)
          \/ (DOMParser_text env xmlString "parsererror" = None
              /\ falsy (DOMParser_text env xmlString "Datum")
                 || falsy (DOMParser_text env xmlString "Uhrzeit")
                 || falsy (DOMParser_text env xmlString "Pegel") = true
              /\ message e = "XML parsing failed: Missing required fields in XML response")
          \/ (exists datum uhrzeit pegel,
                fields_present env xmlString datum uhrzeit pegel
                /\ numeric_prefix (replace "," "." (trim pegel)) = false
                /\ message e = "XML parsing failed: Number conversion failed: "
                               +:+ "Invalid number format: " +:+ pegel))
  | Return r =>
      exists datum uhrzeit pegel,
        fields_present env xmlString datum uhrzeit pegel
        /\ numeric_prefix (replace "," "." (trim pegel)) = true
        /\ r = {| waterLevel := convert_spec (trim pegel);
                  date := trim datum;
                  time := trim uhrzeit;
                  timestamp := parseGermanDateTime env now datum uhrzeit;
                  graphic := graphic_of (DOMParser_text env xmlString "Grafik") |}
  end.
Proof.
  destruct (DOMParser_text env xmlString "parsererror") as [textContent |] eqn:Herr.
  { unfold parseXMLResponse. rewrite Herr. cbn [catch_c message].
    split; [reflexivity |]. split; [reflexivity |].
    left. exists textContent. split; reflexivity. }
  destruct (falsy (DOMParser_text env xmlString "Datum")
            || falsy (DOMParser_text env xmlString "Uhrzeit")
            || falsy (DOMParser_text env xmlString "Pegel")) eqn:Hmissing.
  { rewrite (parseXMLResponse_missing env now xmlString Herr Hmissing).
    split; [reflexivity |]. split; [reflexivity |].
    right. left. repeat split. }
  apply orb_false_elim in Hmissing as [Hmissing Hp].
  apply orb_false_elim in Hmissing as [Hd Hu].
  destruct (DOMParser_text env xmlString "Datum") as [datum |] eqn:Ed; [| discriminate].
  destruct (DOMParser_text env xmlString "Uhrzeit") as [uhrzeit |] eqn:Eu; [| discriminate].
  destruct (DOMParser_text env xmlString "Pegel") as [pegel |] eqn:Ep; [| discriminate].
  cbn [falsy] in Hd, Hu, Hp.
  assert (Hfields : fields_present env xmlString datum uhrzeit pegel).
  { repeat split; assumption. }
  rewrite (parseXMLResponse_present env now xmlString datum uhrzeit pegel Hfields).
  destruct (numeric_prefix (replace "," "." (trim pegel))) eqn:Hnum.
  - exists datum, uhrzeit, pegel. split; [exact Hfields |].
    split; [exact Hnum | reflexivity].
  - split; [reflexivity |]. split; [reflexivity |].
    right. right. exists datum, uhrzeit, pegel.
    split; [exact Hfields |]. split; [exact Hnum | reflexivity].
Qed.

Lemma trimEnd_idempotent (s : string) : trimEnd (trimEnd s) = trimEnd s.
Proof.
  induction s as [| c s IH]; [reflexivity |].
  cbn [trimEnd].
  destruct (is_empty (trimEnd s) && is_white_space c) eqn:E; [reflexivity |].
  cbn [trimEnd]. rewrite IH, E. reflexivity.
Qed.

(** Trimming a trimmed text changes nothing. *)
Lemma trim_idempotent (s : string) : trim (trim s) = trim s.
Proof.
  unfold trim. pose proof (trimStart_head s) as Hhead.
  destruct (trimStart s) as [| c t]; [reflexivity |].
  assert (Hstart : trimStart (trimEnd (String c t)) = trimEnd (String c t)).
  { cbn [trimEnd]. rewrite Hhead, andb_false_r. cbn [trimStart]. rewrite Hhead.
    reflexivity. }
  rewrite Hstart. apply trimEnd_idempotent.
Qed.

(** X11. The Reading that [parseXMLResponse] returns is in normal form: the
    level is not NaN, date and time carry no white space at either end, and
    the picture is either [null] or a non-empty text without white space at
    either end (a Grafik element that is missing, empty or blank gives
    [null]). *)
Theorem parseXMLResponse_normal_form env now (xmlString : string) (r : Reading number) :
  parseXMLResponse env now xmlString = Return r ->
  isNaN (waterLevel r) = false
  /\ trim (date r) = date r
  /\ trim (time r) = time r
  /\ match graphic r with
     | Some g => is_empty g = false /\ trim g = g
     | None => falsy (option_map trim (DOMParser_text env xmlString "Grafik")) = true
     end.
Proof.
  intros Hparse.
  destruct (parseXMLResponse_returned env now xmlString r Hparse)
    as (datum & uhrzeit & pegel & Hfields & Hnum & ->).
  cbn [waterLevel date time graphic].
  split.
  { unfold convert_spec. apply Math_round_isNaN, mul_100_isNaN.
    rewrite parseFloat_isNaN, Hnum. reflexivity. }
  split; [apply trim_idempotent |]. split; [apply trim_idempotent |].
  unfold graphic_of.
  destruct (DOMParser_text env xmlString "Grafik") as [g |]; [| reflexivity].
  destruct (is_empty (trim g)) eqn:Hg.
  - cbn. exact Hg.
  - split; [exact Hg | apply trim_idempotent].
Qed.

Lemma parseXMLResponse_normal_form_witness :
  parseXMLResponse (sample_browser " 27. Oktober 2025 " "15:25 " "3,68") 1761575160000 ""
  = Return {| waterLevel := of_Z 368; date := "27. Oktober 2025"; time := "15:25";
              timestamp := of_Z 1761575100000; graphic := Some "pegel.png" |}
  /\ trim "27. Oktober 2025" = "27. Oktober 2025".
Proof.
  assert (H : parseXMLResponse (sample_browser " 27. Oktober 2025 " "15:25 " "3,68")
                1761575160000 ""
              = Return {| waterLevel := of_Z 368; date := "27. Oktober 2025";
                          time := "15:25"; timestamp := of_Z 1761575100000;
                          graphic := Some "pegel.png" |})
    by (vm_compute; reflexivity).
  split; [exact H |].
  exact (proj1 (proj2 (parseXMLResponse_normal_form _ _ _ _ H))).
Defined.
End ParserOutcomes.

(** ** The two patterns of the date parser *)
Section Patterns.
Import JsString Number Regex RheinPegelAPI.

Lemma run_Plus (r : re) (s : string) (caps : captures)
    (k : string -> captures -> option captures) :
  run (Plus r) s caps k = plus_loop r k (String.length s) s caps.
Proof. reflexivity. Qed.

Lemma plus_loop_eq (r : re) (k : string -> captures -> option captures)
    (fuel : nat) (s : string) (caps : captures) :
  plus_loop r k fuel s caps
  = run r s caps
      (fun s1 c1 =>
         match fuel with
         | O => k s1 c1
         | S fuel' =>
             if (String.length s1 <? String.length s)%nat
             then or_else (plus_loop r k fuel' s1 c1) (k s1 c1)
             else k s1 c1
         end).
Proof. destruct fuel; reflexivity. Qed.

(** Whatever [run] answers, the pattern matches that way. *)
Lemma run_sound (r : re) :
  forall s caps k res,
    run r s caps k = Some res ->
    exists s1 c1, matches r s caps s1 c1 /\ k s1 c1 = Some res.
Proof.
  induction r as [p | c0 | r1 IH1 r2 IH2 | r IH | r IH | i r IH]; intros s caps k res H.
  - destruct s as [| c s]; cbn in H; [discriminate |].
    destruct (p c) eqn:Hp; [| discriminate].
    exists s, caps. split; [constructor; exact Hp | exact H].
  - destruct s as [| c s]; cbn in H; [discriminate |].
    destruct (Ascii.eqb_spec c c0) as [-> | _]; [| discriminate].
    exists s, caps. split; [constructor | exact H].
  - cbn [run] in H. apply IH1 in H as (s1 & c1 & Hm1 & H).
    apply IH2 in H as (s2 & c2 & Hm2 & H).
    exists s2, c2. split; [econstructor; eassumption | exact H].
  - rewrite run_Plus in H.
    remember (String.length s) as fuel eqn:Hfuel. clear Hfuel. revert s caps H.
    induction fuel as [| fuel IHf]; intros s' caps H;
      rewrite plus_loop_eq in H; apply IH in H as (s1 & c1 & Hm & H).
    + exists s1, c1. split; [apply matches_Plus_one, Hm | exact H].
    + destruct (String.length s1 <? String.length s')%nat.
      * destruct (plus_loop r k fuel s1 c1) as [res' |] eqn:Hmore; cbn [or_else] in H.
        -- injection H as ->. apply IHf in Hmore as (s2 & c2 & Hm2 & Hk).
           exists s2, c2. split; [eapply matches_Plus_more; eassumption | exact Hk].
        -- exists s1, c1. split; [apply matches_Plus_one, Hm | exact H].
      * exists s1, c1. split; [apply matches_Plus_one, Hm | exact H].
  - cbn [run] in H. destruct (run r s caps k) as [res' |] eqn:Hrun; cbn [or_else] in H.
    + injection H as ->. apply IH in Hrun as (s1 & c1 & Hm & Hk).
      exists s1, c1. split; [apply matches_Opt_some, Hm | exact Hk].
    + exists s, caps. split; [apply matches_Opt_none | exact H].
  - cbn [run] in H. apply IH in H as (s1 & c1 & Hm & H).
    eexists s1, _. split; [apply matches_Group, Hm | exact H].
Qed.

Lemma exec_sound (r : re) (s : string) (caps : captures) :
  exec r s = Some caps -> exists s' s1, matches r s' [] s1 caps.
Proof.
  induction s as [| c s IH]; cbn [exec]; intros H.
  - destruct (match_here r EmptyString) as [caps' |] eqn:Hm; [| discriminate].
    injection H as ->. apply run_sound in Hm as (s1 & c1 & Hm & Hk).
    injection Hk as ->. exists EmptyString, s1. exact Hm.
  - destruct (match_here r (String c s)) as [caps' |] eqn:Hm; [| exact (IH H)].
    injection H as ->. apply run_sound in Hm as (s1 & c1 & Hm & Hk).
    injection Hk as ->. exists (String c s), s1. exact Hm.
Qed.

Lemma substring_prefix (a b : string) : substring 0 (String.length a) (a +:+ b) = a.
Proof.
  induction a as [| c a IH]; [destruct b; reflexivity |].
  rewrite append_cons. cbn [String.length substring]. rewrite IH. reflexivity.
Qed.

Lemma length_append (a b : string) :
  String.length (a +:+ b) = (String.length a + String.length b)%nat.
Proof.
  induction a as [| c a IH]; [reflexivity |].
  rewrite append_cons. cbn [String.length]. rewrite IH. reflexivity.
Qed.

Lemma consumed_app (a b : string) : consumed (a +:+ b) b = a.
Proof.
  unfold consumed. rewrite length_append.
  replace (String.length a + String.length b - String.length b)%nat
    with (String.length a) by lia.
  apply substring_prefix.
Qed.

Lemma matches_Cls_inv (p : ascii -> bool) (s s1 : string) (caps c1 : captures) :
  matches (Cls p) s caps s1 c1 -> exists c, s = String c s1 /\ p c = true /\ c1 = caps.
Proof. intros H. inversion H; subst. eexists. repeat split. assumption. Qed.

Lemma matches_Cat_inv (r1 r2 : re) (s s2 : string) (caps c2 : captures) :
  matches (Cat r1 r2) s caps s2 c2 ->
  exists s1 c1, matches r1 s caps s1 c1 /\ matches r2 s1 c1 s2 c2.
Proof. intros H. inversion H; subst. eexists _, _. split; eassumption. Qed.

Lemma matches_Group_inv (i : nat) (r : re) (s s1 : string) (caps c : captures) :
  matches (Group i r) s caps s1 c ->
  exists c1, matches r s caps s1 c1 /\ c = set_group i (consumed s s1) c1.
Proof. intros H. inversion H; subst. eexists. split; [eassumption | reflexivity]. Qed.

(** A run of one class consumes characters of the class and leaves the
    captures alone. *)
Lemma matches_Plus_Cls (p : ascii -> bool) (s s1 : string) (caps c1 : captures) :
  matches (Plus (Cls p)) s caps s1 c1 ->
  c1 = caps /\ exists x, s = x +:+ s1 /\ all p x = true.
Proof.
  intros H. remember (Plus (Cls p)) as r eqn:Hr.
  induction H as [| | | | | r s caps s1 c1 H | r s caps s1 c1 s2 c2 H _ Hmore IH |];
    try discriminate Hr; injection Hr as ->.
  - apply matches_Cls_inv in H as (c & -> & Hc & ->). split; [reflexivity |].
    exists (String c EmptyString). split; [reflexivity |].
    cbn. rewrite Hc. reflexivity.
  - apply matches_Cls_inv in H as (c & -> & Hc & ->).
    destruct (IH eq_refl) as (-> & x & -> & Hx).
    split; [reflexivity |]. exists (String c x). split; [reflexivity |].
    cbn. rewrite Hc, Hx. reflexivity.
Qed.

(** The month a date match captures consists of word characters. *)
Lemma date_re_month (s s1 : string) (c1 : captures) :
  matches date_re s [] s1 c1 -> all is_word (group 2 c1) = true.
Proof.
  unfold date_re, d, w, sp. intros H.
  apply matches_Cat_inv in H as (sA & cA & _ & H).
  apply matches_Cat_inv in H as (sB & cB & _ & H).
  apply matches_Cat_inv in H as (sC & cC & _ & H).
  apply matches_Cat_inv in H as (sD & cD & HD & H).
  apply matches_Cat_inv in H as (sE & cE & HE & H).
  apply matches_Group_inv in HD as (cD' & HD & ->).
  apply matches_Plus_Cls in HD as (-> & x & -> & Hx).
  apply matches_Plus_Cls in HE as (-> & _).
  apply matches_Group_inv in H as (c3 & H & ->).
  apply matches_Cat_inv in H as (s6 & c6 & Ha & H).
  apply matches_Cat_inv in H as (s7 & c7 & Hb & H).
  apply matches_Cat_inv in H as (s8 & c8 & Hc & Hd).
  apply matches_Cls_inv in Ha as (? & _ & _ & ->).
  apply matches_Cls_inv in Hb as (? & _ & _ & ->).
  apply matches_Cls_inv in Hc as (? & _ & _ & ->).
  apply matches_Cls_inv in Hd as (? & _ & _ & ->).
  cbn [group set_group Nat.eqb]. rewrite consumed_app. exact Hx.
Qed.
End Patterns.

(** ** The date parser: dates it reads and the month it never finds *)
Section Dates.
Import JsString Number Regex RheinPegelAPI.

Lemma assoc_monthNames (monthName : string) (v : Z) :
  assoc monthName monthNames = Some v ->
  0 <= v <= 11
  /\ (v = 2 -> monthName = String "M" (String a_umlaut "rz")).
Proof.
  unfold monthNames. cbn [assoc]. intros H.
  repeat match type of H with
         | (if String.eqb ?a ?b then _ else _) = _ =>
             destruct (String.eqb_spec a b) as [Heq | _];
             [injection H as <-; split; [lia | intros; first [exact Heq | lia]] |]
         end.
  discriminate H.
Qed.

Lemma of_Z_month (v : Z) : 0 <= v <= 11 -> of_Z v = of_Z 2 -> v = 2.
Proof.
  intros Hv Heq.
  assert (Hcases : v = 0 \/ v = 1 \/ v = 2 \/ v = 3 \/ v = 4 \/ v = 5 \/ v = 6
                   \/ v = 7 \/ v = 8 \/ v = 9 \/ v = 10 \/ v = 11) by lia.
  repeat destruct Hcases as [-> | Hcases]; try subst v;
    try reflexivity; vm_compute in Heq; discriminate Heq.
Qed.

Lemma exec_month_word (dateStr : string) (dateMatch : captures) :
  exec date_re dateStr = Some dateMatch -> all is_word (group 2 dateMatch) = true.
Proof.
  intros H. apply exec_sound in H as (s' & s1 & H). exact (date_re_month s' s1 _ H).
Qed.

Lemma month_never_March (dateStr : string) (dateMatch : captures) :
  exec date_re dateStr = Some dateMatch ->
  monthNames_get (group 2 dateMatch) <> Own 2
  /\ month_number (monthNames_get (group 2 dateMatch)) <> of_Z 2.
Proof.
  intros H. apply exec_month_word in H.
  unfold monthNames_get.
  destruct (assoc (group 2 dateMatch) monthNames) as [v |] eqn:Hassoc.
  - apply assoc_monthNames in Hassoc as [Hv HMarch].
    assert (Hne : v <> 2).
    { intros ->. rewrite (HMarch eq_refl) in H. vm_compute in H. discriminate H. }
    split; [congruence |].
    cbn [month_number]. intros Heq. apply Hne, of_Z_month; assumption.
  - destruct (existsb _ _); split; cbn; try discriminate; vm_compute; discriminate.
Qed.

(** X12. March is never read.  The month that the date pattern captures is
    made of the characters of [\w], which the a-umlaut is not, so the look-up
    never finds the entry with index 2, although the table has it: whatever
    the texts, when the parser builds a date at all, the month it passes to
    the [Date] constructor (the index of the captured name, or NaN for a name
    inherited from [Object.prototype]) is not 2. *)
Theorem parseGermanDateTime_never_March env (dateStr timeStr : string) :
  monthNames_get (String "M" (String a_umlaut "rz")) = Own 2
  /\ (forall dateMatch,
         exec date_re dateStr = Some dateMatch ->
         monthNames_get (group 2 dateMatch) <> Own 2)
  /\ forall t,
      parseGermanDateTime_try env dateStr timeStr = Return t ->
      exists dateMatch timeMatch,
        exec date_re dateStr = Some dateMatch
        /\ exec time_re timeStr = Some timeMatch
        /\ month_number (monthNames_get (group 2 dateMatch)) <> of_Z 2
        /\ t = Date_local env (parseInt (group 3 dateMatch))
                 (month_number (monthNames_get (group 2 dateMatch)))
                 (parseInt (group 1 dateMatch))
                 (parseInt (group 1 timeMatch))
                 (parseInt (group 2 timeMatch)).
Proof.
  split; [reflexivity |].
  split; [intros dateMatch H; apply (month_never_March dateStr dateMatch H) |].
  intros t. unfold parseGermanDateTime_try.
  destruct (exec date_re dateStr) as [dateMatch |] eqn:Hd; [| discriminate].
  pose proof (month_never_March dateStr dateMatch Hd) as [_ Hmonth].
  destruct (monthNames_get (group 2 dateMatch)) as [v | |] eqn:Hget; try discriminate;
    (destruct (exec time_re timeStr) as [timeMatch |] eqn:Ht; [| discriminate]);
    intros H; injection H as <-; exists dateMatch, timeMatch;
    (split; [reflexivity |]); (split; [reflexivity |]); rewrite Hget;
    (split; [exact Hmonth |]); reflexivity.
Qed.

Lemma parseGermanDateTime_never_March_witness :
  parseGermanDateTime_try sample_env "27. Oktober 2025" "15:25" = Return (of_Z 1761575100000)
  /\ exists dateMatch,
      exec date_re "27. Oktober 2025" = Some dateMatch
      /\ month_number (monthNames_get (group 2 dateMatch)) <> of_Z 2.
Proof.
  assert (H : parseGermanDateTime_try sample_env "27. Oktober 2025" "15:25"
              = Return (of_Z 1761575100000)) by reflexivity.
  split; [exact H |].
  destruct (proj2 (proj2 (parseGermanDateTime_never_March sample_env
                            "27. Oktober 2025" "15:25")) _ H)
    as (dateMatch & timeMatch & Hd & _ & Hm & _).
  exists dateMatch. split; [exact Hd | exact Hm].
Defined.
End Dates.

(** ** The date parser: the dates it reads *)
Section WellFormedDates.
Import JsString Number Regex RheinPegelAPI.

Lemma run_Cat (r1 r2 : re) (s : string) (caps : captures)
    (k : string -> captures -> option captures) :
  run (Cat r1 r2) s caps k = run r1 s caps (fun s1 c1 => run r2 s1 c1 k).
Proof. reflexivity. Qed.

Lemma run_Group (i : nat) (r : re) (s : string) (caps : captures)
    (k : string -> captures -> option captures) :
  run (Group i r) s caps k
  = run r s caps (fun s1 c1 => k s1 (set_group i (consumed s s1) c1)).
Proof. reflexivity. Qed.

Lemma run_Chr (c : ascii) (s : string) (caps : captures)
    (k : string -> captures -> option captures) :
  run (Chr c) (String c s) caps k = k s caps.
Proof. cbn [run]. rewrite Ascii.eqb_refl. reflexivity. Qed.

Lemma run_Cls (p : ascii -> bool) (c : ascii) (s : string) (caps : captures)
    (k : string -> captures -> option captures) :
  p c = true -> run (Cls p) (String c s) caps k = k s caps.
Proof. intros H. cbn [run]. rewrite H. reflexivity. Qed.

(** The text does not begin with a character of the class. *)
Lemma run_Cls_stop (p : ascii -> bool) (s : string) (caps : captures)
    (k : string -> captures -> option captures) :
  match s with String c _ => p c = false | EmptyString => True end ->
  run (Cls p) s caps k = None.
Proof. destruct s as [| c s]; cbn [run]; [reflexivity |]. intros ->. reflexivity. Qed.

(** The greedy first try of [Plus]: all the characters of the class. *)
Lemma plus_loop_greedy (p : ascii -> bool) (k : string -> captures -> option captures)
    (rest : string) (caps res : captures) :
  match rest with String c _ => p c = false | EmptyString => True end ->
  k rest caps = Some res ->
  forall x c0 fuel,
    p c0 = true -> all p x = true -> (String.length x <= fuel)%nat ->
    plus_loop (Cls p) k fuel (String c0 (x +:+ rest)) caps = Some res.
Proof.
  intros Hrest Hk. induction x as [| c1 x IH]; intros c0 fuel Hc0 Hx Hfuel.
  - rewrite append_nil_l, plus_loop_eq, (run_Cls p c0 _ _ _ Hc0).
    destruct fuel as [| fuel]; [exact Hk |].
    cbn [String.length]. rewrite (proj2 (Nat.ltb_lt _ _) (Nat.lt_succ_diag_r _)).
    rewrite plus_loop_eq, (run_Cls_stop p rest _ _ Hrest). exact Hk.
  - cbn [all] in Hx. apply andb_prop in Hx as [Hc1 Hx].
    cbn [String.length] in Hfuel. destruct fuel as [| fuel]; [lia |].
    rewrite append_cons, plus_loop_eq, (run_Cls p c0 _ _ _ Hc0).
    cbn [String.length]. rewrite (proj2 (Nat.ltb_lt _ _) (Nat.lt_succ_diag_r _)).
    rewrite (IH c1 fuel Hc1 Hx) by lia. reflexivity.
Qed.

Lemma run_Plus_greedy (p : ascii -> bool) (k : string -> captures -> option captures)
    (x rest : string) (caps res : captures) :
  is_empty x = false -> all p x = true ->
  match rest with String c _ => p c = false | EmptyString => True end ->
  k rest caps = Some res ->
  run (Plus (Cls p)) (x +:+ rest) caps k = Some res.
Proof.
  intros Hne Hx Hrest Hk. destruct x as [| c0 x]; [discriminate |].
  cbn [all] in Hx. apply andb_prop in Hx as [Hc0 Hx].
  rewrite run_Plus, append_cons.
  apply plus_loop_greedy; try assumption.
  cbn [String.length]. rewrite length_append. lia.
Qed.

Lemma is_word_not_space (c : ascii) : is_word c = true -> is_white_space c = false.
Proof. destruct c as [[] [] [] [] [] [] [] []]; vm_compute; congruence. Qed.

Lemma is_space_not_word (c : ascii) : is_white_space c = true -> is_word c = false.
Proof. destruct c as [[] [] [] [] [] [] [] []]; vm_compute; congruence. Qed.

Lemma is_space_not_digit (c : ascii) : is_white_space c = true -> is_digit c = false.
Proof. destruct c as [[] [] [] [] [] [] [] []]; vm_compute; congruence. Qed.

(** The head of a non-empty text all of one class. *)
Lemma head_class (p q : ascii -> bool) (x rest : string) :
  (forall c, p c = true -> q c = false) ->
  is_empty x = false -> all p x = true ->
  match x +:+ rest with String c _ => q c = false | EmptyString => True end.
Proof.
  intros Hpq Hne Hx. destruct x as [| c x]; [discriminate |].
  cbn [all] in Hx. apply andb_prop in Hx as [Hc _].
  rewrite append_cons. apply Hpq, Hc.
Qed.

Lemma exec_here (r : re) (s : string) (caps : captures) :
  match_here r s = Some caps -> exec r s = Some caps.
Proof. intros H. destruct s; cbn [exec]; rewrite H; reflexivity. Qed.

(** Leading white space is skipped by a pattern that begins with a digit. *)
Lemma exec_skip_space (r : re) (ws s : string) :
  (forall c t, is_digit c = false -> match_here r (String c t) = None) ->
  all is_white_space ws = true ->
  exec r (ws +:+ s) = exec r s.
Proof.
  intros Hr. induction ws as [| c ws IH]; [reflexivity |].
  cbn [all]. intros H. apply andb_prop in H as [Hc Hws].
  rewrite append_cons. cbn [exec].
  rewrite (Hr c _ (is_space_not_digit c Hc)). apply IH, Hws.
Qed.

Lemma date_re_needs_digit (c : ascii) (t : string) :
  is_digit c = false -> match_here date_re (String c t) = None.
Proof.
  intros Hc. unfold match_here, date_re, d.
  rewrite run_Cat, run_Group, run_Plus, plus_loop_eq.
  apply run_Cls_stop. exact Hc.
Qed.

Lemma time_re_needs_digit (c : ascii) (t : string) :
  is_digit c = false -> match_here time_re (String c t) = None.
Proof.
  intros Hc. unfold match_here, time_re, d.
  rewrite run_Cat, run_Group, run_Cat.
  apply run_Cls_stop. exact Hc.
Qed.

(** The date pattern on a date: the three captures. *)
Lemma exec_date_text (ws day sp1 month sp2 year rest : string) :
  date_shaped ws day sp1 month sp2 year = true ->
  is_empty month = false ->
  exec date_re (date_text ws day sp1 month sp2 year rest)
  = Some [(3%nat, year); (2%nat, month); (1%nat, day)].
Proof.
  unfold date_shaped, digits, spaces. intros H Hmonth.
  repeat (apply andb_prop in H as [H ?]).
  repeat match goal with
         | Hx : _ && _ = true |- _ => apply andb_prop in Hx as [? ?]
         end.
  repeat match goal with
         | Hx : negb _ = true |- _ => apply negb_true_iff in Hx
         | Hx : Nat.eqb _ _ = true |- _ => apply Nat.eqb_eq in Hx
         end.
  rename H into Hws.
  unfold date_text. rewrite (exec_skip_space _ ws _ date_re_needs_digit Hws).
  apply exec_here. unfold match_here, date_re, d, w, sp.
  rewrite run_Cat, run_Group.
  apply run_Plus_greedy; try assumption; [reflexivity |].
  rewrite consumed_app, run_Cat, run_Chr, run_Cat.
  apply run_Plus_greedy; try assumption.
  { apply (head_class is_word); [apply is_word_not_space | assumption | assumption]. }
  rewrite run_Cat, run_Group.
  apply run_Plus_greedy; try assumption.
  { apply (head_class is_white_space); [apply is_space_not_word | assumption | assumption]. }
  rewrite consumed_app, run_Cat.
  destruct year as [| y1 [| y2 [| y3 [| y4 [| y5 year]]]]]; try discriminate.
  match goal with
  | Hy : all is_digit _ = true |- _ =>
      cbn [all] in Hy;
      apply andb_prop in Hy as [Hy1 Hy]; apply andb_prop in Hy as [Hy2 Hy];
      apply andb_prop in Hy as [Hy3 Hy]; apply andb_prop in Hy as [Hy4 _]
  end.
  apply run_Plus_greedy; try assumption.
  { rewrite append_cons. apply is_digit_not_space, Hy1. }
  rewrite run_Group, !append_cons, append_nil_l.
  repeat first [rewrite run_Cat | rewrite run_Cls by assumption].
  change (String y1 (String y2 (String y3 (String y4 rest))))
    with (String y1 (String y2 (String y3 (String y4 EmptyString))) +:+ rest).
  rewrite consumed_app. reflexivity.
Qed.

Lemma run_Opt (r : re) (s : string) (caps : captures)
    (k : string -> captures -> option captures) :
  run (Opt r) s caps k = or_else (run r s caps k) (k s caps).
Proof. reflexivity. Qed.

Lemma consumed_1 (a : ascii) (s : string) : consumed (String a s) s = String a EmptyString.
Proof. exact (consumed_app (String a EmptyString) s). Qed.

Lemma consumed_2 (a b : ascii) (s : string) :
  consumed (String a (String b s)) s = String a (String b EmptyString).
Proof. exact (consumed_app (String a (String b EmptyString)) s). Qed.

(** The time pattern on a time of day: the two captures. *)
Lemma exec_time_text (ws hh mm rest : string) :
  time_shaped ws hh mm = true ->
  exec time_re (time_text ws hh mm rest) = Some [(2%nat, mm); (1%nat, hh)].
Proof.
  unfold time_shaped. intros H.
  repeat (apply andb_prop in H as [H ?]).
  rename H into Hws.
  unfold time_text. rewrite (exec_skip_space _ ws _ time_re_needs_digit Hws).
  apply exec_here. unfold match_here, time_re, d.
  destruct mm as [| m1 [| m2 [| m3 mm]]]; try discriminate.
  match goal with
  | Hm : all is_digit (String m1 _) = true |- _ =>
      cbn [all] in Hm;
      apply andb_prop in Hm as [Hm1 Hm]; apply andb_prop in Hm as [Hm2 _]
  end.
  destruct hh as [| h1 [| h2 [| h3 hh]]]; try discriminate.
  - match goal with
    | Hh : all is_digit (String h1 _) = true |- _ =>
        cbn [all] in Hh; apply andb_prop in Hh as [Hh1 _]
    end.
    rewrite !append_cons, !append_nil_l.
    rewrite run_Cat, run_Group, run_Cat, (run_Cls _ _ _ _ _ Hh1), run_Opt.
    rewrite (run_Cls_stop is_digit (String ":" _)) by reflexivity.
    cbn [or_else]. rewrite consumed_1, run_Cat, run_Chr, run_Group, run_Cat.
    rewrite !run_Cls by assumption. rewrite consumed_2. reflexivity.
  - match goal with
    | Hh : all is_digit (String h1 _) = true |- _ =>
        cbn [all] in Hh;
        apply andb_prop in Hh as [Hh1 Hh]; apply andb_prop in Hh as [Hh2 _]
    end.
    rewrite !append_cons, !append_nil_l.
    rewrite run_Cat, run_Group, run_Cat, (run_Cls _ _ _ _ _ Hh1), run_Opt.
    rewrite (run_Cls _ _ _ _ _ Hh2).
    rewrite consumed_2, run_Cat, run_Chr, run_Group, run_Cat.
    rewrite !run_Cls by assumption. rewrite consumed_2. reflexivity.
Qed.

(** [parseInt] on a non-empty string of digits. *)
Lemma parseInt_digits (s : string) :
  digits s = true -> parseInt s = of_Z (digits_value s).
Proof.
  unfold digits. intros H. apply andb_prop in H as [Hne Hs].
  destruct s as [| c s]; [discriminate |].
  pose proof Hs as Hs'. cbn [all] in Hs'. apply andb_prop in Hs' as [Hc _].
  unfold parseInt.
  assert (Htrim : trim (String c s) = String c s).
  { unfold trim. cbn [trimStart]. rewrite (is_digit_not_space c Hc).
    apply trimEnd_no_space.
    apply (all_impl is_digit); [| exact Hs].
    intros x Hx. rewrite (is_digit_not_space x Hx). reflexivity. }
  rewrite Htrim.
  assert (Hsign : scan_sign (String c s) = (false, String c s)).
  { destruct c as [[] [] [] [] [] [] [] []]; try discriminate Hc; reflexivity. }
  rewrite Hsign.
  pose proof (span_all is_digit (String c s) EmptyString Hs I) as Hspan.
  rewrite append_empty_r in Hspan. rewrite Hspan. cbn [is_empty].
  destruct (digits_value (String c s)); reflexivity.
Qed.

(** X13. The dates the parser reads.  For a date text made of a day in
    digits, a full stop, white space, the name of a month of the table
    written in the characters of [\w] (every month but March), white space
    and a year of four digits, and a time text made of one or two digits, a
    colon and two digits, each with any white space before it and any text
    behind it, the timestamp is the local date that the [Date] constructor
    builds from the year, the index of the month, the day, the hours and the
    minutes; the current time is not used.  Day, hours and minutes are not
    checked against a calendar or a clock. *)
Theorem parseGermanDateTime_reads env (now : Z)
    (ws day sp1 month sp2 year rest ws' hh mm rest' : string) (index : Z) :
  date_shaped ws day sp1 month sp2 year = true ->
  assoc month monthNames = Some index ->
  time_shaped ws' hh mm = true ->
  parseGermanDateTime env now (date_text ws day sp1 month sp2 year rest)
                      (time_text ws' hh mm rest')
  = Date_local env (of_Z (digits_value year)) (of_Z index) (of_Z (digits_value day))
               (of_Z (digits_value hh)) (of_Z (digits_value mm)).
Proof.
  intros Hdate Hmonth Htime.
  assert (Hne : is_empty month = false).
  { destruct month; [discriminate Hmonth | reflexivity]. }
  unfold parseGermanDateTime, parseGermanDateTime_try.
  rewrite (exec_date_text ws day sp1 month sp2 year rest Hdate Hne).
  rewrite (exec_time_text ws' hh mm rest' Htime).
  cbn [group Nat.eqb]. unfold monthNames_get. rewrite Hmonth.
  unfold date_shaped in Hdate. unfold time_shaped in Htime.
  repeat (apply andb_prop in Hdate as [Hdate ?]).
  repeat (apply andb_prop in Htime as [Htime ?]).
  assert (Hyear : digits year = true).
  { unfold digits. destruct year; [discriminate | assumption]. }
  assert (Hhh : digits hh = true).
  { unfold digits. destruct hh; [discriminate | assumption]. }
  assert (Hmm : digits mm = true).
  { unfold digits. destruct mm; [discriminate | assumption]. }
  rewrite !parseInt_digits by assumption. reflexivity.
Qed.

Lemma parseGermanDateTime_reads_witness :
  date_shaped " " "27" " " "Oktober" " " "2025" = true
  /\ assoc "Oktober" monthNames = Some 9
  /\ time_shaped "" "15" "25" = true
  /\ forall env now,
      parseGermanDateTime env now " 27. Oktober 2025" "15:25 Uhr"
      = Date_local env (of_Z 2025) (of_Z 9) (of_Z 27) (of_Z 15) (of_Z 25).
Proof.
  assert (H1 : date_shaped " " "27" " " "Oktober" " " "2025" = true) by reflexivity.
  assert (H2 : assoc "Oktober" monthNames = Some 9) by reflexivity.
  assert (H3 : time_shaped "" "15" "25" = true) by reflexivity.
  split; [exact H1 |]. split; [exact H2 |]. split; [exact H3 |].
  intros env now.
  exact (parseGermanDateTime_reads env now " " "27" " " "Oktober" " " "2025" ""
           "" "15" "25" " Uhr" 9 H1 H2 H3).
Defined.
End WellFormedDates.

(** ** History store: saving *)
Section Saving.
Import WaterLevelStorage.

Lemma cleanOldData_returns (w : world) : exists w', cleanOldData w = (Return tt, w').
Proof. destruct (cleanOldData_cases w) as (w' & H & _). exists w'. exact H. Qed.

(** A save on a store that works: the text in the slot afterwards. *)
Lemma saveReading_quiet_slot (data : RheinPegelAPI.Reading Z) (w : world) (rs : list entry) :
  faults w = [] ->
  readings (load (slot w)) = Some rs ->
  saveReading data w
  = (Return true,
     {| slot := Some (store_text
                        (filter_b (within (clock_now w + hd 0 (ticks w) - maxAge))
                                  (trimmed (sort by_newest (rs ++ [entry_of data]))))
                        (Some (clock_now w)));
        faults := [];
        clock_now := clock_now w + hd 0 (ticks w) + hd 0 (tl (ticks w));
        ticks := tl (tl (ticks w)) |}).
Proof.
  intros Hf Hrs.
  unfold saveReading, try_catch, mbind, M_bind, bind.
  rewrite getStorageData_load. unfold array_of. rewrite Hrs. cbn [ret].
  unfold Date_now at 1. cbn [fst snd].
  rewrite setStorageData_quiet by exact Hf.
  unfold cleanOldData, try_catch, mbind, M_bind, bind.
  rewrite getStorageData_load. cbn [slot].
  rewrite load_version, load_stringify by reflexivity.
  unfold Date_now. cbn [readings array_of ret clock_now ticks slot faults version lastUpdated].
  rewrite setStorageData_quiet by reflexivity.
  reflexivity.
Qed.

Lemma stored_readings_store_text (rs : list entry) (lu : option Z)
    (fs : list (option js_error)) (now : Z) (tk : list Z) :
  stored_readings {| slot := Some (store_text rs lu); faults := fs;
                     clock_now := now; ticks := tk |} = rs.
Proof. apply (stored_readings_written _ rs lu). reflexivity. Qed.

Lemma readings_store_text (rs : list entry) (lu : option Z) :
  readings (load (Some (store_text rs lu))) = Some rs.
Proof. unfold store_text. rewrite load_stringify by reflexivity. reflexivity. Qed.

Lemma trimmed_short (l : list entry) : (length l <= maxEntries)%nat -> trimmed l = l.
Proof.
  intros H. unfold trimmed.
  destruct (Nat.ltb_spec maxEntries (length l)) as [Hlt | _]; [lia | reflexivity].
Qed.

Lemma filter_b_Permutation (p : entry -> bool) (l l' : list entry) :
  Permutation l l' -> Permutation (filter_b p l) (filter_b p l').
Proof.
  unfold filter_b. induction 1 as [| x l l' _ IH | x y l | l l' l'' _ IH1 _ IH2]; cbn.
  - constructor.
  - destruct (p x); [constructor |]; exact IH.
  - destruct (p x), (p y); try reflexivity. apply perm_swap.
  - etransitivity; eassumption.
Qed.

Lemma filter_b_idempotent (p : entry -> bool) (l : list entry) :
  filter_b p (filter_b p l) = filter_b p l.
Proof.
  unfold filter_b. induction l as [| x l IH]; cbn; [reflexivity |].
  destruct (p x) eqn:E; cbn; rewrite ?E, IH; reflexivity.
Qed.

(** X14. When [saveReading] fails.  The call never throws.  It answers
    [false] exactly when the stored object has no [readings] array, or the
    write is rejected (by an error other than the quota error, or by the
    quota error followed by the rejection of the second write); and then the
    slot holds what it held before. *)
Theorem saveReading_failure (data : RheinPegelAPI.Reading Z) (w : world) :
  (exists b, fst (saveReading data w) = Return b)
  /\ (fst (saveReading data w) = Return false
      <-> readings (load (slot w)) = None \/ write_fails (faults w) = true)
  /\ (fst (saveReading data w) = Return false ->
      slot (snd (saveReading data w)) = slot w).
Proof.
  split.
  { destruct (saveReading_cases data w) as (b & w' & Heq & _).
    exists b. rewrite Heq. reflexivity. }
  split.
  2: { destruct (saveReading_cases data w)
         as (b & w' & Heq & [[-> Hs] | (-> & _)]); rewrite Heq; cbn [fst snd];
         [intros _; exact Hs | discriminate]. }
  unfold saveReading, try_catch, mbind, M_bind, bind.
  rewrite getStorageData_load. unfold array_of.
  destruct (readings (load (slot w))) as [rs |] eqn:Hrs; cbn [ret throw fst].
  2: { split; [intros _; left; reflexivity | reflexivity]. }
  unfold Date_now at 1. cbn [fst snd].
  unfold setStorageData, try_catch, localStorage_setItem at 1.
  cbn [faults slot clock_now ticks].
  destruct (faults w) as [| [e |] fs] eqn:Hf; cbn [write_fails].
  - match goal with
    | |- context [cleanOldData ?w0] =>
        destruct (cleanOldData_returns w0) as (w1 & ->)
    end.
    cbn. split; [discriminate | intros [H | H]; discriminate H].
  - destruct (String.eqb (name e) "QuotaExceededError") eqn:Hq; cbn [negb orb].
    + unfold mbind, M_bind, bind, array_of. cbn [readings ret].
      unfold localStorage_setItem. cbn [faults slot clock_now ticks].
      destruct fs as [| [e2 |] fs'].
      * match goal with
        | |- context [cleanOldData ?w0] =>
            destruct (cleanOldData_returns w0) as (w1 & ->)
        end.
        cbn. split; [discriminate | intros [H | H]; discriminate H].
      * cbn. split; [intros _; right; reflexivity | reflexivity].
      * match goal with
        | |- context [cleanOldData ?w0] =>
            destruct (cleanOldData_returns w0) as (w1 & ->)
        end.
        cbn. split; [discriminate | intros [H | H]; discriminate H].
    + cbn. split; [intros _; right; reflexivity | reflexivity].
  - match goal with
    | |- context [cleanOldData ?w0] =>
        destruct (cleanOldData_returns w0) as (w1 & ->)
    end.
    cbn. split; [discriminate | intros [H | H]; discriminate H].
Qed.

Lemma saveReading_failure_witness :
  write_fails [Some access_denied] = true
  /\ fst (saveReading (sample_reading an_instant)
            {| slot := None; faults := [Some access_denied];
               clock_now := an_instant; ticks := [] |}) = Return false
  /\ slot (snd (saveReading (sample_reading an_instant)
                  {| slot := None; faults := [Some access_denied];
                     clock_now := an_instant; ticks := [] |})) = None.
Proof.
  assert (H1 : write_fails [Some access_denied] = true) by reflexivity.
  split; [exact H1 |].
  pose proof (saveReading_failure (sample_reading an_instant)
                {| slot := None; faults := [Some access_denied];
                   clock_now := an_instant; ticks := [] |}) as (_ & Hiff & Hslot).
  assert (H2 : fst (saveReading (sample_reading an_instant)
                      {| slot := None; faults := [Some access_denied];
                         clock_now := an_instant; ticks := [] |}) = Return false).
  { apply Hiff. right. exact H1. }
  split; [exact H2 | exact (Hslot H2)].
Defined.
End Saving.

(** ** History store: what a save keeps *)
Section Keeping.
Import WaterLevelStorage.

(** A save on a store whose first write runs into the quota. *)
Lemma saveReading_quota_slot (data : RheinPegelAPI.Reading Z) (w : world)
    (rs : list entry) (e : js_error) :
  faults w = [Some e] ->
  name e = "QuotaExceededError" ->
  readings (load (slot w)) = Some rs ->
  saveReading data w
  = (Return true,
     {| slot := Some (store_text
                        (filter_b (within (clock_now w + hd 0 (ticks w) - maxAge))
                           (take (length (trimmed (sort by_newest (rs ++ [entry_of data]))) / 2)
                                 (trimmed (sort by_newest (rs ++ [entry_of data])))))
                        (Some (clock_now w)));
        faults := [];
        clock_now := clock_now w + hd 0 (ticks w) + hd 0 (tl (ticks w));
        ticks := tl (tl (ticks w)) |}).
Proof.
  intros Hf Hq Hrs.
  unfold saveReading, try_catch, mbind, M_bind, bind.
  rewrite getStorageData_load. unfold array_of. rewrite Hrs. cbn [ret].
  unfold Date_now at 1. cbn [fst snd].
  unfold setStorageData, try_catch, localStorage_setItem at 1.
  cbn [faults slot clock_now ticks]. rewrite Hf, Hq.
  change (String.eqb "QuotaExceededError" "QuotaExceededError") with true. cbn iota.
  unfold mbind, M_bind, bind, array_of. cbn [readings ret].
  unfold localStorage_setItem. cbn [faults slot clock_now ticks version lastUpdated].
  unfold cleanOldData, try_catch, mbind, M_bind, bind.
  rewrite getStorageData_load. cbn [slot].
  rewrite load_version, load_stringify by reflexivity.
  unfold Date_now. cbn [readings array_of ret clock_now ticks slot faults version lastUpdated].
  rewrite setStorageData_quiet by reflexivity.
  reflexivity.
Qed.

(** X15. A full storage.  When the first write of a save runs into the
    quota, the newer half of the readings (the list that would have been
    written, cut to half its length, rounded down) is written instead and
    the call answers [true].  The reading just passed in is kept only if it
    falls into that half: a save into an empty store leaves the store empty
    and still answers [true]. *)
Theorem saveReading_quota_halves (data : RheinPegelAPI.Reading Z) (w : world)
    (rs : list entry) (e : js_error) :
  faults w = [Some e] ->
  name e = "QuotaExceededError" ->
  readings (load (slot w)) = Some rs ->
  exists w',
    saveReading data w = (Return true, w')
    /\ stored_readings w'
       = filter_b (within (clock_now w + hd 0 (ticks w) - maxAge))
           (take (length (trimmed (sort by_newest (rs ++ [entry_of data]))) / 2)
                 (trimmed (sort by_newest (rs ++ [entry_of data]))))
    /\ (length (stored_readings w') <= (length rs + 1) / 2)%nat
    /\ (rs = [] -> stored_readings w' = []).
Proof.
  intros Hf Hq Hrs. eexists. split; [apply (saveReading_quota_slot data w rs e Hf Hq Hrs) |].
  rewrite stored_readings_store_text. split; [reflexivity |].
  split.
  - etransitivity; [apply sublist_length, sublist_filter_b |].
    rewrite length_take.
    assert (Hlen : (length (trimmed (sort by_newest (rs ++ [entry_of data])))
                    <= length rs + 1)%nat).
    { etransitivity; [apply sublist_length, trimmed_sublist |].
      rewrite (Permutation_length (sort_by_newest_perm _)), length_app. cbn. lia. }
    etransitivity; [apply Nat.le_min_l |].
    apply Nat.Div0.div_le_mono. exact Hlen.
  - intros ->. reflexivity.
Qed.

Lemma saveReading_quota_halves_witness :
  name quota_exceeded = "QuotaExceededError"
  /\ exists w',
      saveReading (sample_reading an_instant)
        {| slot := None; faults := [Some quota_exceeded];
           clock_now := an_instant; ticks := [] |} = (Return true, w')
      /\ stored_readings w' = [].
Proof.
  assert (H1 : name quota_exceeded = "QuotaExceededError") by reflexivity.
  split; [exact H1 |].
  destruct (saveReading_quota_halves (sample_reading an_instant)
              {| slot := None; faults := [Some quota_exceeded];
                 clock_now := an_instant; ticks := [] |} [] quota_exceeded
              eq_refl H1 eq_refl) as (w' & Hsave & _ & _ & Hempty).
  exists w'. split; [exact Hsave | exact (Hempty eq_refl)].
Defined.

(** X16. Expiry at saving.  On a storage that accepts the writes, a save
    answers [true] and leaves no reading older than 24 hours, counted from
    the clock that the clean-up reads; a reading that is itself older than
    that is not kept, although the answer is [true]. *)
Theorem saveReading_expires (data : RheinPegelAPI.Reading Z) (w : world) (rs : list entry) :
  faults w = [] ->
  readings (load (slot w)) = Some rs ->
  exists w',
    saveReading data w = (Return true, w')
    /\ Forall (fun e => clock_now w + hd 0 (ticks w) - 24 * 3600000 <= ts e)
              (stored_readings w')
    /\ (RheinPegelAPI.timestamp data < clock_now w + hd 0 (ticks w) - 24 * 3600000 ->
        entry_of data ∉ stored_readings w').
Proof.
  intros Hf Hrs. eexists. split; [apply (saveReading_quiet_slot data w rs Hf Hrs) |].
  rewrite stored_readings_store_text.
  change (24 * 3600000) with maxAge.
  split.
  - apply Forall_forall. intros e He. apply filter_b_elem_of in He as [_ He].
    unfold within in He. apply Z.leb_le in He. exact He.
  - intros Hold Hin. apply filter_b_elem_of in Hin as [_ Hin].
    unfold within in Hin. apply Z.leb_le in Hin. cbn in Hin. lia.
Qed.

Lemma saveReading_expires_witness :
  RheinPegelAPI.timestamp (sample_reading 0) < an_instant - 24 * 3600000
  /\ exists w',
      saveReading (sample_reading 0) (quiet_world None an_instant) = (Return true, w')
      /\ entry_of (sample_reading 0) ∉ stored_readings w'.
Proof.
  assert (H1 : RheinPegelAPI.timestamp (sample_reading 0) < an_instant - 24 * 3600000)
    by reflexivity.
  split; [exact H1 |].
  destruct (saveReading_expires (sample_reading 0) (quiet_world None an_instant) []
              eq_refl eq_refl) as (w' & Hsave & _ & Hout).
  exists w'. split; [exact Hsave |]. apply Hout. exact H1.
Defined.

(** X17. No merging of equal readings.  On a storage that accepts the writes
    and holds fewer than 1440 readings, the store after a save holds the
    readings it held and the new one, without those that have expired, each
    as often as before; so saving the same recent reading twice while the
    clock stands leaves it in the store twice. *)
Theorem saveReading_keeps_duplicates (data : RheinPegelAPI.Reading Z) (w : world)
    (rs : list entry) :
  faults w = [] ->
  readings (load (slot w)) = Some rs ->
  (length rs < maxEntries)%nat ->
  (exists w',
      saveReading data w = (Return true, w')
      /\ Permutation (stored_readings w')
           (filter_b (within (clock_now w + hd 0 (ticks w) - maxAge)) (entry_of data :: rs)))
  /\ (ticks w = [] ->
      (length rs + 1 < maxEntries)%nat ->
      clock_now w - maxAge <= RheinPegelAPI.timestamp data ->
      Permutation (stored_readings (run_saves [data; data] w))
        (entry_of data :: entry_of data :: filter_b (within (clock_now w - maxAge)) rs)).
Proof.
  intros Hf Hrs Hlen.
  assert (Hone : forall (w0 : world) (l : list entry),
             faults w0 = [] -> readings (load (slot w0)) = Some l ->
             (length l < maxEntries)%nat ->
             Permutation (stored_readings (snd (saveReading data w0)))
               (filter_b (within (clock_now w0 + hd 0 (ticks w0) - maxAge))
                         (entry_of data :: l))).
  { intros w0 l Hf0 Hl Hlen0.
    rewrite (saveReading_quiet_slot data w0 l Hf0 Hl). cbn [snd].
    rewrite stored_readings_store_text.
    apply filter_b_Permutation.
    rewrite trimmed_short.
    - rewrite (sort_by_newest_perm _). symmetry. apply Permutation_cons_append.
    - rewrite (Permutation_length (sort_by_newest_perm _)), length_app. cbn. lia. }
  split.
  - eexists. split; [apply (saveReading_quiet_slot data w rs Hf Hrs) |].
    specialize (Hone w rs Hf Hrs Hlen).
    rewrite (saveReading_quiet_slot data w rs Hf Hrs) in Hone. exact Hone.
  - intros Htk Hlen2 Hfresh.
    assert (Hin : within (clock_now w - maxAge) (entry_of data) = true).
    { unfold within. apply Z.leb_le. exact Hfresh. }
    cbn [run_saves fold_left].
    pose proof (Hone w rs Hf Hrs Hlen) as H1.
    rewrite (saveReading_quiet_slot data w rs Hf Hrs) in H1 |- *. cbn [snd] in H1 |- *.
    rewrite Htk in H1 |- *. cbn [hd tl] in H1 |- *. rewrite !Z.add_0_r in H1 |- *.
    rewrite stored_readings_store_text in H1.
    cbn [filter_b List.filter] in H1. fold (filter_b (within (clock_now w - maxAge)) rs) in H1.
    rewrite Hin in H1.
    match goal with
    | |- context [saveReading data ?w1] =>
        pose proof (Hone w1 _ eq_refl (readings_store_text _ _)) as H2
    end.
    cbn [clock_now ticks hd] in H2. rewrite Z.add_0_r in H2.
    rewrite H2.
    2: { rewrite (Permutation_length H1). cbn [length].
         pose proof (sublist_length _ _ (sublist_filter_b (within (clock_now w - maxAge)) rs)).
         lia. }
    cbn [filter_b List.filter]. rewrite Hin. constructor.
    fold (filter_b (within (clock_now w - maxAge))
            (filter_b (within (clock_now w - maxAge))
               (trimmed (sort by_newest (rs ++ [entry_of data]))))).
    rewrite (filter_b_Permutation _ _ _ H1).
    cbn [filter_b List.filter]. rewrite Hin. constructor.
    fold (filter_b (within (clock_now w - maxAge))
            (filter_b (within (clock_now w - maxAge)) rs)).
    rewrite filter_b_idempotent. reflexivity.
Qed.

Lemma saveReading_keeps_duplicates_witness :
  (length ([] : list entry) + 1 < maxEntries)%nat
  /\ clock_now (quiet_world None an_instant) - maxAge
     <= RheinPegelAPI.timestamp (sample_reading an_instant)
  /\ Permutation
       (stored_readings (run_saves [sample_reading an_instant; sample_reading an_instant]
                                   (quiet_world None an_instant)))
       [entry_of (sample_reading an_instant); entry_of (sample_reading an_instant)].
Proof.
  assert (H1 : (length ([] : list entry) + 1 < maxEntries)%nat)
    by (cbn [length]; unfold maxEntries; lia).
  assert (H2 : clock_now (quiet_world None an_instant) - maxAge
               <= RheinPegelAPI.timestamp (sample_reading an_instant))
    by (vm_compute; discriminate).
  split; [exact H1 |]. split; [exact H2 |].
  apply (proj2 (saveReading_keeps_duplicates (sample_reading an_instant)
                  (quiet_world None an_instant) [] eq_refl eq_refl
                  ltac:(cbn [length]; unfold maxEntries; lia))
           eq_refl H1 H2).
Defined.
End Keeping.

(** ** History store: reading, clearing and exporting *)
Section Reading.
Import WaterLevelStorage.

(** X18. The newest reading.  In a store that is ordered (as every store
    that [saveReading] alone has written is), [getLatestReading] answers
    [null] exactly when the store is empty, and otherwise a stored reading
    whose timestamp no stored reading exceeds. *)
Theorem getLatestReading_newest (datas : list (RheinPegelAPI.Reading Z)) (w : world) :
  store_inv w ->
  exists latest,
    getLatestReading (run_saves datas w) = (Return latest, run_saves datas w)
    /\ match latest with
       | Some e =>
           e ∈ stored_readings (run_saves datas w)
           /\ Forall (fun x => ts x <= ts e) (stored_readings (run_saves datas w))
       | None => stored_readings (run_saves datas w) = []
       end.
Proof.
  intros Hinv. apply (run_saves_store_inv datas) in Hinv.
  generalize dependent (run_saves datas w). clear w. intros w [_ Hsorted].
  rewrite getLatestReading_run. eexists. split; [reflexivity |].
  apply newest_first_strong in Hsorted.
  destruct (stored_readings w) as [| e l]; [reflexivity |].
  cbn [head]. split; [left |].
  apply StronglySorted_inv in Hsorted as [_ Hall].
  constructor; [lia | exact Hall].
Qed.

Lemma getLatestReading_newest_witness :
  store_inv (quiet_world None an_instant)
  /\ exists latest,
      getLatestReading (run_saves [sample_reading an_instant; sample_reading (an_instant - 60000)]
                                  (quiet_world None an_instant))
      = (Return latest,
         run_saves [sample_reading an_instant; sample_reading (an_instant - 60000)]
                   (quiet_world None an_instant))
      /\ latest = Some (entry_of (sample_reading an_instant)).
Proof.
  assert (H : store_inv (quiet_world None an_instant)) by apply fresh_store_inv.
  split; [exact H |].
  destruct (getLatestReading_newest
              [sample_reading an_instant; sample_reading (an_instant - 60000)]
              (quiet_world None an_instant) H) as (latest & Heq & _).
  exists latest. split; [exact Heq |].
  assert (Hc : getLatestReading
                 (run_saves [sample_reading an_instant; sample_reading (an_instant - 60000)]
                            (quiet_world None an_instant))
               = (Return (Some (entry_of (sample_reading an_instant))),
                  run_saves [sample_reading an_instant; sample_reading (an_instant - 60000)]
                            (quiet_world None an_instant)))
    by (vm_compute; reflexivity).
  rewrite Hc in Heq. injection Heq as <-. reflexivity.
Defined.

(** Appending a reading newer than all the others: it sorts first. *)
Lemma sort_by_newest_front (rs : list entry) (e : entry) :
  Forall (fun x => ts x < ts e) rs ->
  exists l, sort by_newest (rs ++ [e]) = e :: l.
Proof.
  intros Hnew.
  destruct (sort_last_position (fun x => - ts x) e rs) as (l1 & l2 & Hsort & Hlen & _ & _).
  rewrite <- sort_by_newest_key in Hsort.
  assert (Hnone : List.filter (fun x => (- ts x <=? - ts e)) rs = []).
  { clear Hlen Hsort. induction Hnew as [| x l Hx _ IH]; cbn; [reflexivity |].
    destruct (Z.leb_spec (- ts x) (- ts e)); [lia | exact IH]. }
  rewrite Hnone in Hlen. destruct l1; [| discriminate].
  exists l2. exact Hsort.
Qed.

(** X19. Saving, then asking for the newest.  On a storage that accepts the
    writes, after saving a reading that is newer than every stored one and
    not older than 24 hours, [getLatestReading] answers that reading, with
    the four properties of the stored entry. *)
Theorem saveReading_then_latest (data : RheinPegelAPI.Reading Z) (w : world)
    (rs : list entry) :
  faults w = [] ->
  readings (load (slot w)) = Some rs ->
  Forall (fun x => ts x < RheinPegelAPI.timestamp data) rs ->
  clock_now w + hd 0 (ticks w) - maxAge <= RheinPegelAPI.timestamp data ->
  exists w',
    saveReading data w = (Return true, w')
    /\ getLatestReading w' = (Return (Some (entry_of data)), w').
Proof.
  intros Hf Hrs Hnew Hfresh.
  eexists. split; [apply (saveReading_quiet_slot data w rs Hf Hrs) |].
  rewrite getLatestReading_run, stored_readings_store_text.
  destruct (sort_by_newest_front rs (entry_of data) Hnew) as (l & Hsort).
  rewrite Hsort. unfold trimmed.
  assert (Hhead : forall l' : list entry,
             head (filter_b (within (clock_now w + hd 0 (ticks w) - maxAge))
                            (entry_of data :: l')) = Some (entry_of data)).
  { intros l'. cbn [filter_b List.filter]. unfold within at 1.
    cbn [entry_timestamp entry_of].
    destruct (Z.leb_spec (clock_now w + hd 0 (ticks w) - maxAge)
                         (RheinPegelAPI.timestamp data)); [reflexivity | lia]. }
  destruct (maxEntries <? length (entry_of data :: l))%nat.
  - change (take maxEntries (entry_of data :: l))
      with (entry_of data :: take (maxEntries - 1) l).
    rewrite Hhead. reflexivity.
  - rewrite Hhead. reflexivity.
Qed.

Lemma saveReading_then_latest_witness :
  clock_now (quiet_world None an_instant) + hd 0 (ticks (quiet_world None an_instant)) - maxAge
  <= RheinPegelAPI.timestamp (sample_reading an_instant)
  /\ exists w',
      saveReading (sample_reading an_instant) (quiet_world None an_instant) = (Return true, w')
      /\ getLatestReading w' = (Return (Some (entry_of (sample_reading an_instant))), w').
Proof.
  assert (H : clock_now (quiet_world None an_instant)
              + hd 0 (ticks (quiet_world None an_instant)) - maxAge
              <= RheinPegelAPI.timestamp (sample_reading an_instant))
    by (vm_compute; discriminate).
  split; [exact H |].
  exact (saveReading_then_latest (sample_reading an_instant) (quiet_world None an_instant)
           [] eq_refl eq_refl ltac:(constructor) H).
Defined.

(** X20. A longer period never loses a reading.  Asked at the same moment,
    the history of [h1] hours consists of the readings of the history of
    [h2 >= h1] hours that are not older than [h1] hours; it is not longer. *)
Theorem getHistoricalData_monotone (h1 h2 : Z) (w : world) :
  h1 <= h2 ->
  exists out1 out2,
    fst (getHistoricalData h1 w) = Return out1
    /\ fst (getHistoricalData h2 w) = Return out2
    /\ (forall e, e ∈ out1 <-> e ∈ out2 /\ clock_now w - h1 * 3600000 <= ts e)
    /\ (length out1 <= length out2)%nat.
Proof.
  intros Hle.
  destruct (getHistoricalData_exact h1 w) as (out1 & w1 & Heq1 & _ & Hperm1 & Hin1).
  destruct (getHistoricalData_exact h2 w) as (out2 & w2 & Heq2 & _ & Hperm2 & Hin2).
  exists out1, out2. rewrite Heq1, Heq2. split; [reflexivity |]. split; [reflexivity |].
  split.
  - intros e. rewrite Hin1, Hin2. split.
    + intros [H1 H2]. split; [split; [exact H1 | lia] | exact H2].
    + intros [[H1 _] H2]. split; assumption.
  - rewrite (Permutation_length Hperm1), (Permutation_length Hperm2).
    generalize (stored_readings w). intros l. unfold filter_b, within.
    induction l as [| x l IH]; cbn; [lia |].
    destruct (Z.leb_spec (clock_now w - h1 * 3600000) (entry_timestamp x)),
             (Z.leb_spec (clock_now w - h2 * 3600000) (entry_timestamp x));
      cbn; lia.
Qed.

Lemma getHistoricalData_monotone_witness :
  1 <= 24
  /\ exists out1 out2,
      fst (getHistoricalData 1 full_world) = Return out1
      /\ fst (getHistoricalData 24 full_world) = Return out2
      /\ (length out1 <= length out2)%nat.
Proof.
  assert (H : 1 <= 24) by lia.
  split; [exact H |].
  destruct (getHistoricalData_monotone 1 24 full_world H)
    as (out1 & out2 & H1 & H2 & _ & Hlen).
  exists out1, out2. split; [exact H1 |]. split; [exact H2 | exact Hlen].
Defined.

(** X21. Clearing.  [clearAll] never throws.  It answers [false] exactly
    when the storage rejects the removal, and then the slot holds what it
    held before.  Otherwise it answers [true] and the slot is gone: the
    newest reading is [null], every history is empty, and on a storage that
    accepts the writes a following save of a reading not older than 24 hours
    leaves that reading alone in the store.  The clock is not read. *)
Theorem clearAll_resets (w : world) :
  exists b w',
    clearAll w = (Return b, w')
    /\ faults w' = tl (faults w) /\ clock_now w' = clock_now w /\ ticks w' = ticks w
    /\ (b = false <-> exists e, head (faults w) = Some (Some e))
    /\ (b = false -> slot w' = slot w)
    /\ (b = true ->
        slot w' = None
        /\ getLatestReading w' = (Return None, w')
        /\ (forall hours, fst (getHistoricalData hours w') = Return [])
        /\ forall data : RheinPegelAPI.Reading Z,
            faults w' = [] ->
            clock_now w + hd 0 (ticks w) - 86400000 <= RheinPegelAPI.timestamp data ->
            saveReading data w'
            = (Return true,
               {| slot := Some (store_text
                                  [ {| entry_waterLevel := RheinPegelAPI.waterLevel data;
                                       entry_date := RheinPegelAPI.date data;
                                       entry_time := RheinPegelAPI.time data;
                                       entry_timestamp := RheinPegelAPI.timestamp data;
                                       entry_extra := ∅ |} ]
                                  (Some (clock_now w)));
                  faults := [];
                  clock_now := clock_now w + hd 0 (ticks w) + hd 0 (tl (ticks w));
                  ticks := tl (tl (ticks w)) |})).
Proof.
  unfold clearAll, try_catch, mbind, M_bind, bind, localStorage_removeItem.
  destruct (faults w) as [| [e |] fs] eqn:Hf; cbn [ret head tl].
  2: { exists false. eexists. split; [reflexivity |]. cbn [faults clock_now ticks slot].
       repeat (split; [reflexivity |]).
       split; [split; [intros _; exists e; reflexivity | reflexivity] |].
       split; [reflexivity | discriminate]. }
  all: exists true; eexists; (split; [reflexivity |]); cbn [faults clock_now ticks slot];
    repeat (split; [reflexivity |]);
    (split; [split; [discriminate | intros (e & He); discriminate He] |]);
    (split; [discriminate |]); intros _;
    (split; [reflexivity |]); (split; [reflexivity |]).
  all: split;
    [ intros hours;
      match goal with
      | |- context [getHistoricalData hours ?w0] =>
          destruct (getHistoricalData_run hours w0) as (w1 & -> & _)
      end; reflexivity
    | intros data Hq Hfresh;
      match goal with
      | |- saveReading data ?w0 = _ =>
          rewrite (saveReading_quiet_slot data w0 [] Hq eq_refl)
      end;
      cbn [clock_now ticks app sort foldr insert_by];
      unfold trimmed; cbn [length]; change (maxEntries <? 1)%nat with false;
      cbn [filter_b List.filter]; unfold within; cbn [entry_timestamp entry_of];
      destruct (Z.leb_spec (clock_now w + hd 0 (ticks w) - maxAge)
                           (RheinPegelAPI.timestamp data));
      [reflexivity | unfold maxAge in *; lia] ].
Qed.

Lemma clearAll_resets_witness :
  (exists w',
      clearAll full_world = (Return true, w')
      /\ getLatestReading w' = (Return None, w')
      /\ stored_readings (snd (saveReading (sample_reading an_instant) w'))
         = [plain_entry an_instant])
  /\ (exists w',
         clearAll locked_world = (Return false, w')
         /\ stored_readings w' = replicate 1440 (plain_entry an_instant)).
Proof.
  split.
  - destruct (clearAll_resets full_world)
      as ([|] & w' & Hclear & Hf & _ & _ & Hfalse & _ & Htrue).
    + exists w'. split; [exact Hclear |].
      destruct (Htrue eq_refl) as (_ & Hlatest & _ & Hsave).
      split; [exact Hlatest |].
      rewrite (Hsave (sample_reading an_instant) Hf ltac:(vm_compute; discriminate)).
      cbn [snd]. apply stored_readings_store_text.
    + destruct (proj1 Hfalse eq_refl) as (e & He). discriminate He.
  - destruct (clearAll_resets locked_world)
      as ([|] & w' & Hclear & _ & _ & _ & Hfalse & Hslot & _).
    + assert (Hb : true = false) by (apply Hfalse; exists access_denied; reflexivity).
      discriminate Hb.
    + exists w'. split; [exact Hclear |].
      rewrite (stored_readings_slot locked_world w' (Hslot eq_refl)).
      apply (stored_readings_store_text _ (Some an_instant)).
Defined.

Lemma exportData_run (w : world) :
  exportData w = (Return (Some (JSON_stringify (load (slot w)))), w).
Proof.
  unfold exportData, try_catch, mbind, M_bind, bind.
  rewrite getStorageData_load. reflexivity.
Qed.

(** X22. Exporting.  [exportData] never answers [null].  The text it gives
    is a store object of the current version: put back into the slot it is
    read as the same store, and the store it describes holds the readings
    that the other methods see.  From a slot that is empty, unreadable or of
    another version the export is the empty store. *)
Theorem exportData_round_trip (w : world) :
  exists text,
    exportData w = (Return (Some text), w)
    /\ blob_version text = Some (VStr this_version)
    /\ load (Some text) = load (slot w)
    /\ (forall fs now tk,
           stored_readings {| slot := Some text; faults := fs; clock_now := now; ticks := tk |}
           = stored_readings w)
    /\ (forall t, slot w = Some t -> blob_version t <> Some (VStr this_version) ->
                  text = store_text [] None)
    /\ (slot w = None -> text = store_text [] None).
Proof.
  exists (JSON_stringify (load (slot w))).
  split; [apply exportData_run |].
  split; [cbn; apply load_version |].
  assert (Hload : load (Some (JSON_stringify (load (slot w)))) = load (slot w))
    by (apply load_stringify, load_version).
  split; [exact Hload |].
  split; [intros fs now tk; unfold stored_readings; cbn [slot]; rewrite Hload; reflexivity |].
  split.
  - intros t Hs Hv. rewrite Hs. unfold store_text. f_equal.
    unfold load, getStorageData, try_catch, mbind, M_bind, bind, localStorage_getItem.
    cbn [slot].
    destruct t as [| | [| o |]]; cbn; try reflexivity.
    destruct o as [[[| b | n | v] |] rs lu]; cbn; try reflexivity.
    destruct (String.eqb_spec v this_version) as [-> | _]; cbn; [| reflexivity].
    exfalso. apply Hv. reflexivity.
  - intros ->. reflexivity.
Qed.

Lemma exportData_round_trip_witness :
  slot (quiet_world (Some old_version_blob) an_instant) = Some old_version_blob
  /\ blob_version old_version_blob <> Some (VStr this_version)
  /\ exportData (quiet_world (Some old_version_blob) an_instant)
     = (Return (Some (store_text [] None)), quiet_world (Some old_version_blob) an_instant).
Proof.
  assert (H1 : slot (quiet_world (Some old_version_blob) an_instant) = Some old_version_blob)
    by reflexivity.
  assert (H2 : blob_version old_version_blob <> Some (VStr this_version))
    by discriminate.
  split; [exact H1 |]. split; [exact H2 |].
  destruct (exportData_round_trip (quiet_world (Some old_version_blob) an_instant))
    as (text & Heq & _ & _ & _ & Hold & _).
  rewrite Heq, (Hold old_version_blob H1 H2). reflexivity.
Defined.

(** X23. Reading does not write.  [getLatestReading] and [exportData] leave
    the store, the clock and everything else as they were;
    [getHistoricalData] reads the clock once and changes nothing else: the
    slot keeps its text, whatever that text is, so the stored readings and
    their order are the same after the call. *)
Theorem readers_do_not_write (hours : Z) (w : world) :
  snd (getLatestReading w) = w
  /\ snd (exportData w) = w
  /\ slot (snd (getHistoricalData hours w)) = slot w
  /\ faults (snd (getHistoricalData hours w)) = faults w
  /\ clock_now (snd (getHistoricalData hours w)) = clock_now w + hd 0 (ticks w)
  /\ stored_readings (snd (getHistoricalData hours w)) = stored_readings w.
Proof.
  rewrite getLatestReading_run, exportData_run.
  destruct (getHistoricalData_run hours w) as (w' & -> & Hs & Hf & Hc).
  cbn [snd]. repeat split; try assumption.
  apply stored_readings_slot, Hs.
Qed.

(** X24. The clean-up.  [cleanOldData] never throws.  On a storage that
    accepts the write it keeps exactly the readings that are not older than
    24 hours, in their order, and the time of the last update; run again
    while the clock stands it changes nothing more.  When the write is
    rejected, the slot holds what it held before. *)
Theorem cleanOldData_keeps_recent (w : world) :
  (exists w', cleanOldData w = (Return tt, w'))
  /\ (forall rs,
         faults w = [] ->
         readings (load (slot w)) = Some rs ->
         exists w',
           cleanOldData w = (Return tt, w')
           /\ stored_readings w' = filter_b (within (clock_now w - 24 * 3600000)) rs
           /\ lastUpdated (load (slot w')) = lastUpdated (load (slot w))
           /\ (ticks w = [] -> snd (cleanOldData w') = w'))
  /\ (write_fails (faults w) = true -> slot (snd (cleanOldData w)) = slot w).
Proof.
  split; [apply cleanOldData_returns |].
  split.
  - intros rs Hf Hrs.
    assert (Hrun : forall (w0 : world) (l : list entry),
               faults w0 = [] -> readings (load (slot w0)) = Some l ->
               cleanOldData w0
               = (Return tt,
                  {| slot := Some (JSON_stringify
                                     {| version := Some (VStr this_version);
                                        readings := Some (filter_b (within (clock_now w0 - maxAge)) l);
                                        lastUpdated := lastUpdated (load (slot w0)) |});
                     faults := [];
                     clock_now := clock_now w0 + hd 0 (ticks w0);
                     ticks := tl (ticks w0) |})).
    { intros w0 l Hf0 Hl.
      unfold cleanOldData, try_catch, mbind, M_bind, bind.
      rewrite getStorageData_load. unfold Date_now, array_of. rewrite Hl.
      cbn [ret]. rewrite setStorageData_quiet by exact Hf0.
      rewrite load_version. reflexivity. }
    eexists. split; [apply (Hrun w rs Hf Hrs) |].
    split; [apply (stored_readings_written _ _ (lastUpdated (load (slot w)))); reflexivity |].
    split; [cbn [slot]; rewrite load_stringify by reflexivity; reflexivity |].
    intros Htk.
    erewrite Hrun; [| reflexivity | cbn [slot]; rewrite load_stringify by reflexivity; reflexivity].
    cbn [snd slot clock_now ticks]. rewrite Htk. cbn [hd tl].
    rewrite load_stringify by reflexivity. cbn [lastUpdated]. rewrite !Z.add_0_r.
    rewrite filter_b_idempotent. reflexivity.
  - intros Hfail.
    unfold cleanOldData, try_catch, mbind, M_bind, bind.
    rewrite getStorageData_load. unfold Date_now, array_of.
    destruct (readings (load (slot w))) as [rs |]; cbn [ret throw snd slot]; [| reflexivity].
    unfold setStorageData, try_catch, localStorage_setItem at 1.
    cbn [faults slot clock_now ticks].
    destruct (faults w) as [| [e |] fs]; try discriminate Hfail.
    cbn [write_fails] in Hfail.
    destruct (String.eqb (name e) "QuotaExceededError"); cbn [negb orb] in Hfail.
    + unfold mbind, M_bind, bind, array_of. cbn [readings ret].
      unfold localStorage_setItem. cbn [faults slot clock_now ticks].
      destruct fs as [| [e2 |] fs']; try discriminate Hfail. reflexivity.
    + reflexivity.
Qed.

Lemma cleanOldData_keeps_recent_witness :
  faults full_world = []
  /\ exists w',
      cleanOldData full_world = (Return tt, w')
      /\ stored_readings w' = replicate maxEntries (plain_entry an_instant).
Proof.
  assert (H : faults full_world = []) by reflexivity.
  split; [exact H |].
  destruct (proj1 (proj2 (cleanOldData_keeps_recent full_world))
              (replicate maxEntries (plain_entry an_instant)) H eq_refl)
    as (w' & Hclean & Hkept & _).
  exists w'. split; [exact Hclean |]. rewrite Hkept.
  vm_compute. reflexivity.
Defined.
End Reading.

(** ** History store: what a save leaves *)
Section SavedStore.
Import WaterLevelStorage.

Lemma trimmed_take (l : list entry) : trimmed l = take 1440 l.
Proof.
  unfold trimmed. change maxEntries with 1440%nat.
  destruct (Nat.ltb_spec 1440 (length l)) as [_ | H]; [reflexivity |].
  symmetry. apply take_ge. exact H.
Qed.

Lemma newest_first_replicate (n : nat) (e : entry) : newest_first (replicate n e).
Proof.
  apply newest_first_strong.
  induction n as [| n IH]; cbn [replicate]; constructor; [exact IH |].
  apply Forall_forall. intros x Hx. apply elem_of_replicate_inv in Hx as ->.
  unfold newer_or_equal. lia.
Qed.

Lemma full_world_store_inv : store_inv full_world.
Proof.
  unfold store_inv, full_world, quiet_world. rewrite stored_readings_store_text.
  split; [rewrite length_replicate; apply Nat.le_refl | apply newest_first_replicate].
Qed.

(** C3. From a store that is bounded and ordered (the empty or unreadable
    slot is), every sequence of [saveReading] calls, whatever the clock and
    the storage faults do, leaves at most 1440 readings in descending order
    of timestamp.  On a storage that accepts the writes the next
    [saveReading] answers [true] and leaves exactly this: the stored readings
    and the new one in descending order of timestamp, cut to the first 1440,
    without those older than 24 hours.  Below 1440 stored readings nothing
    but the readings older than 24 hours is dropped; at 1440 the last of the
    1441, whose timestamp no kept reading undercuts, is the one left out. *)
Theorem saveReading_bounded_sorted (datas : list (RheinPegelAPI.Reading Z)) (w : world) :
  store_inv w ->
  ((length (stored_readings (run_saves datas w)) <= 1440)%nat
   /\ newest_first (stored_readings (run_saves datas w)))
  /\ forall (data : RheinPegelAPI.Reading Z) (rs : list entry),
      faults (run_saves datas w) = [] ->
      readings (load (slot (run_saves datas w))) = Some rs ->
      exists w' sorted,
        saveReading data (run_saves datas w) = (Return true, w')
        /\ sorted = sort by_newest (rs ++ [entry_of data])
        /\ Permutation sorted (entry_of data :: rs)
        /\ newest_first sorted
        /\ stored_readings w'
           = filter_b (within (clock_now (run_saves datas w)
                               + hd 0 (ticks (run_saves datas w)) - 86400000))
                      (take 1440 sorted)
        /\ ((length rs < 1440)%nat ->
            Permutation (stored_readings w')
              (filter_b (within (clock_now (run_saves datas w)
                                 + hd 0 (ticks (run_saves datas w)) - 86400000))
                        (entry_of data :: rs)))
        /\ (length rs = 1440%nat ->
            exists kept evicted,
              sorted = kept ++ [evicted]
              /\ length kept = 1440%nat
              /\ Forall (fun e => ts evicted <= ts e) kept
              /\ stored_readings w'
                 = filter_b (within (clock_now (run_saves datas w)
                                     + hd 0 (ticks (run_saves datas w)) - 86400000))
                            kept).
Proof.
  intros Hinv. apply (run_saves_store_inv datas) in Hinv.
  generalize dependent (run_saves datas w). clear w. intros w [Hlen Hsorted].
  split; [split; assumption |].
  intros data rs Hf Hrs.
  destruct (saveReading_quiet data w rs Hf Hrs) as (w' & Hsave & _ & _ & _ & Hstored).
  change maxAge with 86400000 in Hstored.
  exists w', (sort by_newest (rs ++ [entry_of data])).
  split; [exact Hsave |]. split; [reflexivity |].
  split.
  { rewrite (sort_by_newest_perm _). symmetry. apply Permutation_cons_append. }
  split; [apply StronglySorted_Sorted, sort_by_newest_sorted |].
  split; [rewrite Hstored, trimmed_take; reflexivity |].
  split.
  - intros Hshort. rewrite Hstored, trimmed_short.
    + apply filter_b_Permutation. rewrite (sort_by_newest_perm _).
      symmetry. apply Permutation_cons_append.
    + rewrite (Permutation_length (sort_by_newest_perm _)), length_app.
      cbn [length]. change maxEntries with 1440%nat. lia.
  - intros Hfull.
    destruct (full_store_split rs (entry_of data) Hfull)
      as (kept & evicted & Hsort & Hk & Htrim).
    exists kept, evicted. split; [exact Hsort |]. split; [exact Hk |].
    split.
    + apply sorted_last_oldest. rewrite <- Hsort. apply sort_by_newest_sorted.
    + rewrite Hstored, Htrim. reflexivity.
Qed.

Lemma saveReading_bounded_sorted_witness :
  store_inv full_world
  /\ length (stored_readings
               (run_saves [sample_reading (an_instant + 60000)] full_world)) = 1440%nat
  /\ exists w',
      saveReading (sample_reading (an_instant + 120000))
                  (run_saves [sample_reading (an_instant + 60000)] full_world)
      = (Return true, w')
      /\ stored_readings w'
         = plain_entry (an_instant + 120000)
           :: plain_entry (an_instant + 60000)
           :: replicate 1438 (plain_entry an_instant).
Proof.
  split; [exact full_world_store_inv |].
  assert (Hrun : run_saves [sample_reading (an_instant + 60000)] full_world
                 = quiet_world
                     (Some (store_text
                              (plain_entry (an_instant + 60000)
                               :: replicate 1439 (plain_entry an_instant))
                              (Some an_instant)))
                     an_instant)
    by (vm_compute; reflexivity).
  split; [rewrite Hrun; vm_compute; reflexivity |].
  destruct (proj2 (saveReading_bounded_sorted [sample_reading (an_instant + 60000)]
                     full_world full_world_store_inv)
              (sample_reading (an_instant + 120000))
              (plain_entry (an_instant + 60000) :: replicate 1439 (plain_entry an_instant)))
    as (w' & sorted & Hsave & Hsorted & _ & _ & Hstored & _).
  - rewrite Hrun. reflexivity.
  - rewrite Hrun. reflexivity.
  - exists w'. split; [exact Hsave |].
    rewrite Hstored, Hsorted, Hrun. vm_compute. reflexivity.
Defined.

Lemma plain_keys (e : entry) :
  entry_extra e = ∅ ->
  keys e = {[ "waterLevel"; "date"; "time"; "timestamp" ]} /\ "graphic" ∉ keys e.
Proof.
  intros He. unfold keys. rewrite He, dom_empty_L.
  split; [set_solver |].
  rewrite union_empty_r_L. intros Hin.
  repeat (apply elem_of_union in Hin as [Hin | Hin]);
    apply elem_of_singleton in Hin; discriminate.
Qed.

Lemma run_saves_plain (datas : list (RheinPegelAPI.Reading Z)) :
  forall w,
    Forall (fun e => entry_extra e = ∅) (stored_readings w) ->
    Forall (fun e => entry_extra e = ∅) (stored_readings (run_saves datas w)).
Proof.
  induction datas as [| data datas IH]; intros w Hclean; [exact Hclean |].
  cbn [run_saves fold_left]. apply IH.
  destruct (saveReading_cases data w)
    as (b & w' & Heq & [[-> Hs] | (-> & rs & rs' & lu & Hrs & Hsub & Hs)]);
    rewrite Heq; cbn [snd].
  - rewrite (stored_readings_slot w w' Hs). exact Hclean.
  - rewrite (stored_readings_written w' rs' lu Hs).
    eapply Forall_sublist_of; [exact Hsub |].
    eapply Forall_sublist_of; [apply trimmed_sublist |].
    rewrite (sort_by_newest_perm (rs ++ [entry_of data])).
    apply Forall_app. split; [| repeat constructor].
    unfold stored_readings in Hclean. rewrite Hrs in Hclean. exact Hclean.
Qed.

(** The newest of the readings comes first in what a save stores. *)
Lemma saved_head (rs : list entry) (e : entry) (cutoffTime : Z) :
  Forall (fun x => ts x < ts e) rs ->
  cutoffTime <= ts e ->
  head (filter_b (within cutoffTime) (trimmed (sort by_newest (rs ++ [e])))) = Some e.
Proof.
  intros Hnew Hfresh.
  destruct (sort_by_newest_front rs e Hnew) as (l & Hsort).
  rewrite Hsort. unfold trimmed.
  assert (Hhead : forall l' : list entry,
             head (filter_b (within cutoffTime) (e :: l')) = Some e).
  { intros l'. cbn [filter_b List.filter]. unfold within at 1.
    destruct (Z.leb_spec cutoffTime (entry_timestamp e)); [reflexivity |].
    unfold ts in Hfresh. lia. }
  destruct (maxEntries <? length (e :: l))%nat.
  - change (take maxEntries (e :: l)) with (e :: take (maxEntries - 1) l).
    apply Hhead.
  - apply Hhead.
Qed.

(** C10. The entry [saveReading] builds carries the level, date, time and
    timestamp of the Reading under the four properties waterLevel, date, time
    and timestamp, and no other: the picture of the Reading is not among
    them.  In a store whose entries carry no further property (the empty
    store is one), after any sequence of [saveReading] calls every entry that
    [getHistoricalData] or [getLatestReading] returns has exactly those four
    properties.  And the entry is persisted: on a storage that accepts the
    writes, a Reading not older than 24 hours, with fewer than 1440 stored
    readings at least as new, is saved with the answer [true]; its entry is
    in the store, beside entries that were there before; [getHistoricalData]
    returns it for every period that reaches back to it, among entries of
    four properties; and [getLatestReading] returns it when it is newer than
    all the others. *)
Theorem saveReading_drops_graphic (datas : list (RheinPegelAPI.Reading Z)) (w : world) :
  Forall (fun e => entry_extra e = ∅) (stored_readings w) ->
  (forall data : RheinPegelAPI.Reading Z,
      entry_of data
      = {| entry_waterLevel := RheinPegelAPI.waterLevel data;
           entry_date := RheinPegelAPI.date data;
           entry_time := RheinPegelAPI.time data;
           entry_timestamp := RheinPegelAPI.timestamp data;
           entry_extra := ∅ |}
      /\ keys (entry_of data) = {[ "waterLevel"; "date"; "time"; "timestamp" ]}
      /\ "graphic" ∉ keys (entry_of data))
  /\ (forall hours, exists out w',
         getHistoricalData hours (run_saves datas w) = (Return out, w')
         /\ Forall (fun e => keys e = {[ "waterLevel"; "date"; "time"; "timestamp" ]}
                             /\ "graphic" ∉ keys e) out)
  /\ (forall e, fst (getLatestReading (run_saves datas w)) = Return (Some e) ->
                keys e = {[ "waterLevel"; "date"; "time"; "timestamp" ]}
                /\ "graphic" ∉ keys e)
  /\ forall (data : RheinPegelAPI.Reading Z) (rs : list entry),
      faults (run_saves datas w) = [] ->
      readings (load (slot (run_saves datas w))) = Some rs ->
      (length (filter_b (fun x => (RheinPegelAPI.timestamp data <=? entry_timestamp x)%Z) rs)
       < 1440)%nat ->
      clock_now (run_saves datas w) + hd 0 (ticks (run_saves datas w)) - 86400000
      <= RheinPegelAPI.timestamp data ->
      exists w',
        saveReading data (run_saves datas w) = (Return true, w')
        /\ entry_of data ∈ stored_readings w'
        /\ (forall e, e ∈ stored_readings w' -> e ∈ rs \/ e = entry_of data)
        /\ (forall hours,
               clock_now w' - hours * 3600000 <= RheinPegelAPI.timestamp data ->
               exists out w'',
                 getHistoricalData hours w' = (Return out, w'')
                 /\ entry_of data ∈ out
                 /\ Forall (fun e => keys e = {[ "waterLevel"; "date"; "time"; "timestamp" ]}
                                     /\ "graphic" ∉ keys e) out)
        /\ (Forall (fun x => entry_timestamp x < RheinPegelAPI.timestamp data) rs ->
            getLatestReading w' = (Return (Some (entry_of data)), w')).
Proof.
  intros Hclean.
  apply (run_saves_plain datas) in Hclean.
  split; [intros data; split; [reflexivity | apply plain_keys; reflexivity] |].
  generalize dependent (run_saves datas w). clear w. intros w Hclean.
  split.
  { intros hours.
    destruct (getHistoricalData_run hours w) as (w' & Heq & _).
    eexists _, w'. split; [exact Heq |].
    rewrite (sort_by_oldest_perm _).
    eapply Forall_sublist_of; [apply sublist_filter_b |].
    eapply Forall_impl; [exact Hclean | exact plain_keys]. }
  split.
  { intros e. rewrite getLatestReading_run. cbn [fst]. intros He.
    injection He as He. apply plain_keys.
    rewrite Forall_forall in Hclean. apply Hclean.
    destruct (stored_readings w) as [| x l]; [discriminate |].
    injection He as ->. left. }
  intros data rs Hf Hrs Hcount Hfresh.
  destruct (saveReading_quiet data w rs Hf Hrs) as (w' & Hsave & _ & _ & _ & Hstored).
  change maxAge with 86400000 in Hstored.
  assert (Hin : entry_of data ∈ stored_readings w').
  { rewrite Hstored, filter_b_elem_of. split.
    - apply appended_kept. exact Hcount.
    - unfold within. apply Z.leb_le. exact Hfresh. }
  assert (Hfrom : forall e, e ∈ stored_readings w' -> e ∈ rs \/ e = entry_of data).
  { intros e. rewrite Hstored, filter_b_elem_of. intros [He _].
    pose proof (elem_of_sublist _ _ _ He (trimmed_sublist _)) as He'.
    rewrite (sort_by_newest_perm _) in He'.
    apply elem_of_app in He' as [He' | He']; [left; exact He' |].
    right. apply list_elem_of_singleton in He'. exact He'. }
  exists w'. split; [exact Hsave |]. split; [exact Hin |]. split; [exact Hfrom |].
  split.
  - intros hours Hhours.
    destruct (getHistoricalData_exact hours w') as (out & w'' & Hget & _ & _ & Hout).
    exists out, w''. split; [exact Hget |].
    split; [apply Hout; split; [exact Hin | exact Hhours] |].
    apply Forall_forall. intros e He. apply plain_keys.
    apply Hout in He as [He _]. apply Hfrom in He as [He | ->]; [| reflexivity].
    unfold stored_readings in Hclean. rewrite Hrs in Hclean.
    rewrite Forall_forall in Hclean. apply Hclean, He.
  - intros Hnew. rewrite getLatestReading_run, Hstored.
    rewrite saved_head; [reflexivity | exact Hnew | exact Hfresh].
Qed.

Lemma saveReading_drops_graphic_witness :
  Forall (fun e => entry_extra e = ∅) (stored_readings (quiet_world None an_instant))
  /\ RheinPegelAPI.graphic (sample_reading an_instant) = Some "pegel.png"
  /\ exists w',
      saveReading (sample_reading an_instant)
                  (run_saves [sample_reading (an_instant - 60000)]
                             (quiet_world None an_instant))
      = (Return true, w')
      /\ stored_readings w' = [plain_entry an_instant; plain_entry (an_instant - 60000)]
      /\ getLatestReading w' = (Return (Some (plain_entry an_instant)), w')
      /\ keys (plain_entry an_instant) = {[ "waterLevel"; "date"; "time"; "timestamp" ]}
      /\ exists out w'',
          getHistoricalData 24 w' = (Return out, w'')
          /\ plain_entry an_instant ∈ out.
Proof.
  assert (H : Forall (fun e => entry_extra e = ∅)
                (stored_readings (quiet_world None an_instant))) by constructor.
  split; [exact H |]. split; [reflexivity |].
  assert (Hrun : run_saves [sample_reading (an_instant - 60000)]
                           (quiet_world None an_instant)
                 = quiet_world (Some (store_text [plain_entry (an_instant - 60000)]
                                                 (Some an_instant)))
                               an_instant)
    by (vm_compute; reflexivity).
  destruct (saveReading_drops_graphic [sample_reading (an_instant - 60000)]
              (quiet_world None an_instant) H)
    as (Hentry & _ & _ & Hsave).
  destruct (Hentry (sample_reading an_instant)) as (_ & Hkeys & _).
  destruct (Hsave (sample_reading an_instant) [plain_entry (an_instant - 60000)])
    as (w' & Hsaved & Hin & Hfrom & Hhist & Hlatest).
  - rewrite Hrun. reflexivity.
  - rewrite Hrun. reflexivity.
  - vm_compute. lia.
  - rewrite Hrun. vm_compute. discriminate.
  - assert (Hw' : w' = quiet_world
                         (Some (store_text [plain_entry an_instant;
                                            plain_entry (an_instant - 60000)]
                                           (Some an_instant)))
                         an_instant).
    { assert (Hc : saveReading (sample_reading an_instant)
                     (run_saves [sample_reading (an_instant - 60000)]
                                (quiet_world None an_instant))
                   = (Return true,
                      quiet_world
                        (Some (store_text [plain_entry an_instant;
                                           plain_entry (an_instant - 60000)]
                                          (Some an_instant)))
                        an_instant))
        by (vm_compute; reflexivity).
      rewrite Hc in Hsaved. injection Hsaved as <-. reflexivity. }
    exists w'. split; [exact Hsaved |].
    split; [rewrite Hw'; reflexivity |].
    split; [apply Hlatest; repeat constructor; vm_compute; reflexivity |].
    split; [exact Hkeys |].
    destruct (Hhist 24) as (out & w'' & Hget & Hout & _).
    + rewrite Hw'. vm_compute. discriminate.
    + exists out, w''. split; [exact Hget | exact Hout].
Defined.
End SavedStore.

(** ** History store: statistics *)
Section StoreStatistics.
Import JsDate WaterLevelStorage.



End StoreStatistics.

(** ** The chart *)
Section ChartSeries.
Import JsDate WaterLevelStorage WaterLevelChart.

(** Sorting a list that is in order already changes nothing. *)
Lemma sort_sorted_id (l : list entry) :
  StronglySorted older_or_equal l -> sort by_oldest l = l.
Proof.
  induction 1 as [| x l Hs IH Hx]; [reflexivity |].
  cbn [sort foldr]. fold (sort by_oldest l). rewrite IH.
  destruct l as [| y l]; [reflexivity |].
  cbn [insert_by]. apply Forall_inv in Hx. unfold older_or_equal, ts in Hx.
  unfold by_oldest. destruct (Z.leb_spec (entry_timestamp x - entry_timestamp y) 0);
    [reflexivity | lia].
Qed.


(** X26. The series of the chart.  [prepareChartData] gives four series of
    the length of the history: the dates and the levels of the readings in
    ascending order of timestamp, every level once, and two constant lines
    at 400 and 800.  A history that is in ascending order already, as the one
    [getHistoricalData] returns, is plotted in the order given. *)
Theorem prepareChartData_series (historicalData : list entry) :
  length (labels (prepareChartData historicalData)) = length historicalData
  /\ length (values (prepareChartData historicalData)) = length historicalData
  /\ warningLine (prepareChartData historicalData) = replicate (length historicalData) 400
  /\ dangerLine (prepareChartData historicalData) = replicate (length historicalData) 800
  /\ Permutation (values (prepareChartData historicalData))
                 (map entry_waterLevel historicalData)
  /\ (exists sorted,
         Permutation sorted historicalData /\ oldest_first sorted
         /\ labels (prepareChartData historicalData)
            = map (fun e => new_Date (ts e)) sorted
         /\ values (prepareChartData historicalData) = map entry_waterLevel sorted)
  /\ (forall hours w,
         exists out,
           fst (getHistoricalData hours w) = Return out
           /\ labels (prepareChartData out) = map (fun e => new_Date (ts e)) out
           /\ values (prepareChartData out) = map entry_waterLevel out).
Proof.
  unfold prepareChartData. cbn [labels values warningLine dangerLine].
  fold by_oldest.
  assert (Hlen : length (sort by_oldest historicalData) = length historicalData)
    by apply Permutation_length, sort_by_oldest_perm.
  rewrite !length_map, Hlen.
  split; [reflexivity |]. split; [reflexivity |].
  split; [reflexivity |]. split; [reflexivity |].
  split; [apply Permutation_map, sort_by_oldest_perm |].
  split.
  - exists (sort by_oldest historicalData).
    split; [apply sort_by_oldest_perm |].
    split; [apply StronglySorted_Sorted, sort_by_oldest_sorted |].
    split; reflexivity.
  - intros hours w.
    destruct (getHistoricalData_run hours w) as (w' & Heq & _).
    eexists. rewrite Heq. split; [reflexivity |].
    rewrite sort_sorted_id by apply sort_by_oldest_sorted.
    split; reflexivity.
Qed.



End ChartSeries.

Section ChartColours.
Import WaterLevelChart RheinPegelApp.

(** X28. The colour of the line.  [highlightAlertZone] changes the two
    colours of the level line and nothing else, and not even those without a
    chart.  Its thresholds are those of [getAlertLevel]: from 400 cm on the
    line takes the colour and the background colour of the tier the
    classifier returns (WARNING up to 799, DANGER from 800); below 400 it is
    drawn in blue, which is not the colour of the tier NORMAL. *)
Theorem highlightAlertZone_tiers (currentLevel : Z) (this : object) :
  (chart this = None -> highlightAlertZone currentLevel this = this)
  /\ forall c,
      chart this = Some c ->
      exists c',
        highlightAlertZone currentLevel this = set_chart (Some c') this
        /\ data c' = data c
        /\ (400 <= currentLevel ->
            borderColor c' = color (getAlertLevel currentLevel)
            /\ backgroundColor c' = bgColor (getAlertLevel currentLevel))
        /\ (currentLevel < 400 ->
            getAlertLevel currentLevel = ALERT_LEVELS.NORMAL
            /\ borderColor c' = "#2196F3"
            /\ backgroundColor c' = "rgba(33, 150, 243, 0.1)"
            /\ borderColor c' <> color (getAlertLevel currentLevel)).
Proof.
  split; [intros Hnone; unfold highlightAlertZone; rewrite Hnone; reflexivity |].
  intros c Hc. unfold highlightAlertZone. rewrite Hc.
  unfold getAlertLevel, below. cbn [max ALERT_LEVELS.NORMAL ALERT_LEVELS.WARNING].
  destruct (Z.leb_spec 800 currentLevel) as [H800 | H800].
  - eexists. split; [reflexivity |]. split; [reflexivity |].
    destruct (Z.ltb_spec currentLevel 400); [lia |].
    destruct (Z.ltb_spec currentLevel 800); [lia |].
    split; [intros _; split; reflexivity | lia].
  - destruct (Z.leb_spec 400 currentLevel) as [H400 | H400].
    + eexists. split; [reflexivity |]. split; [reflexivity |].
      destruct (Z.ltb_spec currentLevel 400); [lia |].
      destruct (Z.ltb_spec currentLevel 800); [| lia].
      split; [intros _; split; reflexivity | lia].
    + eexists. split; [reflexivity |]. split; [reflexivity |].
      destruct (Z.ltb_spec currentLevel 400); [| lia].
      split; [lia |]. intros _.
      split; [reflexivity |]. split; [reflexivity |]. split; [reflexivity |].
      discriminate.
Qed.

Lemma highlightAlertZone_tiers_witness :
  400 <= 400
  /\ exists c',
      highlightAlertZone 400 (initialize [] (constructor true))
      = set_chart (Some c') (initialize [] (constructor true))
      /\ borderColor c' = color ALERT_LEVELS.WARNING.
Proof.
  assert (H : 400 <= 400) by lia.
  split; [exact H |].
  destruct (proj2 (highlightAlertZone_tiers 400 (initialize [] (constructor true)))
              _ eq_refl) as (c' & Heq & _ & Hhigh & _).
  exists c'. split; [exact Heq |]. exact (proj1 (Hhigh H)).
Defined.
End ChartColours.

(** ** The refresh timer *)
Section RefreshTimer.
Import RheinPegelApp.

Lemma refresh_step_inv (fresh : intervals -> positive) (foreign : intervals)
    (x : app_state * intervals) (op : refresh_op) :
  hands_out_free fresh ->
  refreshInterval (fst x) = 60000
  /\ match refreshTimer (fst x) with
     | Some id => foreign !! id = None /\ snd x = <[id := 60000]> foreign
     | None => snd x = foreign
     end ->
  refreshInterval (fst (refresh_step fresh x op)) = 60000
  /\ match refreshTimer (fst (refresh_step fresh x op)) with
     | Some id =>
         foreign !! id = None /\ snd (refresh_step fresh x op) = <[id := 60000]> foreign
     | None => snd (refresh_step fresh x op) = foreign
     end.
Proof.
  intros Hfresh [Hperiod Htimer]. destruct x as [state timers]. cbn [fst snd] in *.
  assert (Hstop : refreshInterval (fst (stopAutoRefresh state timers)) = 60000
                  /\ refreshTimer (fst (stopAutoRefresh state timers)) = None
                  /\ snd (stopAutoRefresh state timers) = foreign).
  { unfold stopAutoRefresh. destruct (refreshTimer state) as [id |] eqn:Hid.
    - destruct Htimer as [Hfree ->]. cbn. split; [exact Hperiod |]. split; [reflexivity |].
      unfold clearInterval. apply delete_insert_id, Hfree.
    - cbn. rewrite Hid. auto. }
  destruct op; cbn [refresh_step fst snd].
  - unfold startAutoRefresh.
    destruct (stopAutoRefresh state timers) as [state1 timers1].
    cbn [fst snd] in Hstop. destruct Hstop as (Hp & _ & ->).
    cbn. rewrite Hp. split; [reflexivity |]. split; [apply Hfresh | reflexivity].
  - destruct Hstop as (Hp & Hnone & Hforeign).
    split; [exact Hp |]. rewrite Hnone. exact Hforeign.
Qed.

(** X29. One refresh timer.  Whatever intervals other code holds, and
    whichever free id the browser hands out, after any sequence of
    [startAutoRefresh] and [stopAutoRefresh] calls the intervals in use are
    the foreign ones and at most one more, the one whose id is recorded in
    [AppState.refreshTimer], running with the period of 60000 ms: starting
    again never leaves the earlier timer behind.  After [stopAutoRefresh]
    the record is [null] and only the foreign intervals are left. *)
Theorem refresh_timer_single (fresh : intervals -> positive) (foreign : intervals)
    (ops : list refresh_op) :
  hands_out_free fresh ->
  match refreshTimer (fst (refresh_run fresh ops (AppState, foreign))) with
  | Some id =>
      foreign !! id = None
      /\ snd (refresh_run fresh ops (AppState, foreign)) = <[id := 60000]> foreign
  | None => snd (refresh_run fresh ops (AppState, foreign)) = foreign
  end
  /\ refresh_run fresh (ops ++ [Stop]) (AppState, foreign)
     = (set_refreshTimer None (fst (refresh_run fresh ops (AppState, foreign))), foreign)
  /\ exists id,
      refreshTimer (fst (refresh_run fresh (ops ++ [Start]) (AppState, foreign))) = Some id
      /\ foreign !! id = None
      /\ snd (refresh_run fresh (ops ++ [Start]) (AppState, foreign))
         = <[id := 60000]> foreign.
Proof.
  intros Hfresh.
  assert (Hinv : forall l,
             refreshInterval (fst (refresh_run fresh l (AppState, foreign))) = 60000
             /\ match refreshTimer (fst (refresh_run fresh l (AppState, foreign))) with
                | Some id =>
                    foreign !! id = None
                    /\ snd (refresh_run fresh l (AppState, foreign)) = <[id := 60000]> foreign
                | None => snd (refresh_run fresh l (AppState, foreign)) = foreign
                end).
  { induction l as [| op l IH] using rev_ind.
    - cbn. split; reflexivity.
    - unfold refresh_run in *. rewrite fold_left_app. cbn [fold_left].
      apply refresh_step_inv; assumption. }
  split; [apply Hinv |].
  split.
  - unfold refresh_run. rewrite fold_left_app. cbn [fold_left refresh_step].
    fold (refresh_run fresh ops (AppState, foreign)).
    destruct (Hinv ops) as [_ H].
    destruct (refresh_run fresh ops (AppState, foreign)) as [state timers].
    cbn [fst snd] in *. unfold stopAutoRefresh.
    destruct (refreshTimer state) as [id |] eqn:Hid.
    + destruct H as [Hfree ->]. f_equal. unfold clearInterval.
      apply delete_insert_id, Hfree.
    + subst timers. f_equal. destruct state; cbn in *. subst. reflexivity.
  - destruct (Hinv (ops ++ [Start])) as [_ H].
    unfold refresh_run in *. rewrite fold_left_app in *. cbn [fold_left refresh_step] in *.
    unfold startAutoRefresh in *.
    destruct (stopAutoRefresh _ _) as [state1 timers1]. cbn in *.
    eexists. split; [reflexivity |]. exact H.
Qed.

Lemma next_id_free : hands_out_free next_id.
Proof.
  intros timers. unfold next_id. apply not_elem_of_dom, is_fresh.
Qed.

Lemma refresh_timer_single_witness :
  hands_out_free next_id
  /\ exists id,
      refreshTimer (fst (refresh_run next_id ([Start; Start] ++ [Start])
                           (AppState, {[ 1%positive := 5000 ]}))) = Some id
      /\ snd (refresh_run next_id ([Start; Start] ++ [Start])
                 (AppState, {[ 1%positive := 5000 ]}))
         = <[id := 60000]> {[ 1%positive := 5000 ]}.
Proof.
  split; [exact next_id_free |].
  destruct (proj2 (proj2 (refresh_timer_single next_id {[ 1%positive := 5000 ]}
                            [Start; Start] next_id_free)))
    as (id & Hid & _ & Htimers).
  exists id. split; [exact Hid | exact Htimers].
Defined.
End RefreshTimer.
